(** * geotif: the GRD image pipeline of [src/image.py] and [geotif.py]

    A shallow embedding of the [GRDImage] class (normalize, calibrate,
    downsample, save_as_png, extract_info_from_filename) and of the driver
    [main], followed by the properties proved about them.

    The class is followed twice.
    - First on rasters of finite floating-point samples, held as exact
      rationals ([Q]) under a [dtype] tag, where a computation that would
      put a NaN or an infinity in an array ends in the outcome
      [NonFinite], and a path is a string of one-byte characters.  This is
      where the stages are composed, with [downsample] and the driver:
      which stage assigns [data], what a failure leaves, the formula of
      [calibrate] on samples in [0,1], the size of a thumbnail.
    - Then, in the module [Full], on every raster the program can hold:
      the integer dtypes, whose arithmetic wraps, and the floats with NaN,
      the infinities, overflow and a rounding; and on paths of Unicode
      characters, with a writer of files that can fail.  This is where the
      range check of [calibrate], the values of [normalize] on integers,
      the bytes of [save_as_png] and the parser are studied.

    Common conventions.
    - A method is a function from the object's state to an outcome that
      carries the state the object is left in, also when it raises.
    - [logging] calls have no effect on the object and are left out; an
      [except ...: log; raise] handler re-raises the same exception.
    - numpy's [log10] and PIL's default resampling filter are parameters. *)

From Stdlib Require Import String Ascii List NArith ZArith QArith Qminmax Qabs Qround.
From Stdlib Require Import Lia Lqa Bool.
Import ListNotations.

Open Scope Q_scope.

(* ================================================================== *)
(** ** Python exceptions and methods *)

Inductive exn : Type :=
| ValueError (msg : string)
| ZeroDivisionError
| RasterioIOError.

(** Outcome of running a method on an object whose state has type [S]. *)
Inductive outcome (S A : Type) : Type :=
| Returns (v : A) (s : S)
| Raises (e : exn) (s : S)
| NonFinite.
Arguments Returns {S A} v s.
Arguments Raises {S A} e s.
Arguments NonFinite {S A}.

Definition method (S A : Type) : Type := S -> outcome S A.

Definition ret {S A} (v : A) : method S A := fun s => Returns v s.

Definition bind {S A B} (m : method S A) (k : A -> method S B) : method S B :=
  fun s =>
    match m s with
    | Returns v s' => k v s'
    | Raises e s' => Raises e s'
    | NonFinite => NonFinite
    end.

Definition raise {S A} (e : exn) : method S A := fun s => Raises e s.
Definition non_finite {S A} : method S A := fun _ => NonFinite.
Definition gets {S A} (f : S -> A) : method S A := fun s => Returns (f s) s.
Definition modify {S} (f : S -> S) : method S unit := fun s => Returns tt (f s).

Declare Scope method_scope.
Delimit Scope method_scope with method.
Notation "x <- m ;; k" := (bind m (fun x => k))
  (at level 61, m at next level, right associativity) : method_scope.
Notation "m ;;; k" := (bind m (fun _ => k))
  (at level 61, right associativity) : method_scope.

(* ================================================================== *)
(** ** numpy arrays *)

Inductive dtype : Type := Float32 | Float64.

(** A 2-D array, row by row. *)
Record ndarray : Type := mk_ndarray { arr_dtype : dtype; arr_rows : list (list Q) }.

Definition samples (a : ndarray) : list Q := concat (arr_rows a).

(** [a.shape]: (rows, columns). *)
Definition shape (a : ndarray) : nat * nat :=
  (length (arr_rows a), length (hd [] (arr_rows a))).

(** Elementwise operation with a scalar: the dtype is kept. *)
Definition amap (f : Q -> Q) (a : ndarray) : ndarray :=
  mk_ndarray (arr_dtype a) (map (map f) (arr_rows a)).

(** [a.astype(t)] *)
Definition astype (t : dtype) (a : ndarray) : ndarray :=
  mk_ndarray t (arr_rows a).

Definition Qlt_bool (a b : Q) : bool := negb (Qle_bool b a).

Definition zero_size (op : string) : exn :=
  ValueError ("zero-size array to reduction operation " ++ op
              ++ " which has no identity").

(** [np.min] / [np.amin]: raises on an array without samples. *)
Definition reduce_min (l : list Q) : option Q :=
  match l with
  | [] => None
  | x :: t => Some (fold_left Qmin t x)
  end.

Definition reduce_max (l : list Q) : option Q :=
  match l with
  | [] => None
  | x :: t => Some (fold_left Qmax t x)
  end.

Definition np_min {S} (a : ndarray) : method S Q :=
  match reduce_min (samples a) with
  | Some m => ret m
  | None => raise (zero_size "minimum")
  end.

Definition np_max {S} (a : ndarray) : method S Q :=
  match reduce_max (samples a) with
  | Some m => ret m
  | None => raise (zero_size "maximum")
  end.

(** [a / d] for a scalar [d]: every sample of the quotient by zero is a NaN
    or an infinity. *)
Definition np_div {S} (a : ndarray) (d : Q) : method S ndarray :=
  if Qeq_bool d 0 then
    match samples a with
    | [] => ret a
    | _ :: _ => non_finite
    end
  else ret (amap (fun x => x / d) a).

(** [a.clip(lo, hi)] *)
Definition clip (lo hi : Q) (a : ndarray) : ndarray :=
  amap (fun x => Qmin (Qmax x lo) hi) a.

(** [a.astype(np.uint8)] on samples already within 0..255: the fractional
    part is dropped. *)
Definition astype_uint8 (a : ndarray) : list (list Z) :=
  map (map Qfloor) (arr_rows a).

Section Numpy.

(** The value of [np.log10] at a positive argument. *)
Variable log10 : Q -> Q.

(** [np.log10(a)]: NaN at a negative sample, minus infinity at zero. *)
Definition np_log10 {S} (a : ndarray) : method S ndarray :=
  if forallb (fun x => Qlt_bool 0 x) (samples a)
  then ret (amap log10 a)
  else non_finite.

End Numpy.

(* ================================================================== *)
(** ** PIL images

    [Image.fromarray] of a 2-D floating-point array gives an image of mode
    "F" (single precision); [np.array] of it gives the array back.  An image
    is held as that array: its size is (width, height) = (columns, rows).
    [Image.thumbnail] is the one of Pillow 7 and later, which computes the
    new size in [preserve_aspect_ratio]; the arithmetic is exact. *)

Definition fromarray (a : ndarray) : ndarray := astype Float32 a.

Definition im_width (im : ndarray) : Z := Z.of_nat (snd (shape im)).
Definition im_height (im : ndarray) : Z := Z.of_nat (fst (shape im)).

(** A resampling gives the sample at (row, column) of the image resized to
    (width, height): in PIL, a reduction by whole factors followed by a
    filter. *)
Definition resampling : Type := ndarray -> nat -> nat -> nat -> nat -> Q.

(** [round_aspect(number, key)]:
    [max(min(math.floor(number), math.ceil(number), key=key), 1)];
    [min] keeps the first of two candidates with equal keys. *)
Definition round_aspect (number : Q) (key : Z -> Q) : Z :=
  let lo := Qfloor number in
  let hi := Qceiling number in
  Z.max (if Qle_bool (key lo) (key hi) then lo else hi) 1.

(** [preserve_aspect_ratio()] inside [Image.thumbnail]: [None] when the
    image already fits the requested size. *)
Definition preserve_aspect_ratio {S} (size : Z * Z) (im : ndarray)
  : method S (option (Z * Z)) :=
  let (x, y) := size in
  if ((im_width im <=? x) && (im_height im <=? y))%Z then ret None
  else if (im_height im =? 0)%Z then raise ZeroDivisionError
  else
    let aspect := inject_Z (im_width im) / inject_Z (im_height im) in
    if (y =? 0)%Z then raise ZeroDivisionError
    else if Qle_bool aspect (inject_Z x / inject_Z y) then
      ret (Some (round_aspect (inject_Z y * aspect)
                   (fun n => Qabs (aspect - inject_Z n / inject_Z y)), y))
    else if Qeq_bool aspect 0 then raise ZeroDivisionError
    else
      ret (Some (x, round_aspect (inject_Z x / aspect)
                      (fun n => if (n =? 0)%Z then 0
                                else Qabs (aspect - inject_Z x / inject_Z n)))).

(** [im.resize(size, resample)] *)
Definition resize {S} (size : Z * Z) (resample : resampling) (im : ndarray)
  : method S ndarray :=
  let (x, y) := size in
  if ((0 <? x) && (0 <? y))%Z then
    let w := Z.to_nat x in
    let h := Z.to_nat y in
    ret (mk_ndarray Float32
           (map (fun i => map (fun j => resample im w h i j) (seq 0 w)) (seq 0 h)))
  else raise (ValueError "height and width must be > 0").

(** [im.thumbnail(size, resample)]: the image it leaves in [im]. *)
Definition thumbnail {S} (size : Z * Z) (resample : resampling) (im : ndarray)
  : method S ndarray :=
  (new_size <- preserve_aspect_ratio size im ;;
   match new_size with
   | None => ret im
   | Some sz =>
       if ((fst sz =? im_width im) && (snd sz =? im_height im))%Z then ret im
       else resize sz resample im
   end)%method.

(* ================================================================== *)
(** ** The file-name pattern

    [re.search(r"ICEYE_X\d+_GRD_(SM|SL)_(\d+)_(\d{8}T\d{6})", path)].
    Every run of digits in the pattern is followed by a character that is
    not a digit, so at a given start the greedy match is the only one; the
    search tries the starts from left to right. *)

Definition chars : Type := list ascii.

Definition is_digit (c : ascii) : bool :=
  ((48 <=? nat_of_ascii c) && (nat_of_ascii c <=? 57))%nat.

(** A literal: the rest of the text after it. *)
Fixpoint literal (p s : chars) : option chars :=
  match p with
  | [] => Some s
  | c :: p' =>
      match s with
      | [] => None
      | d :: s' => if Ascii.eqb c d then literal p' s' else None
      end
  end.

(** [\d+], greedy: the longest run of digits (not empty) and the rest. *)
Fixpoint span_digits (s : chars) : chars * chars :=
  match s with
  | [] => ([], [])
  | c :: s' =>
      if is_digit c then let (ds, r) := span_digits s' in (c :: ds, r)
      else ([], s)
  end.

Definition digits1 (s : chars) : option (chars * chars) :=
  match span_digits s with
  | ([], _) => None
  | (ds, r) => Some (ds, r)
  end.

(** [\d{n}] *)
Fixpoint digitsN (n : nat) (s : chars) : option (chars * chars) :=
  match n with
  | O => Some ([], s)
  | Datatypes.S n' =>
      match s with
      | [] => None
      | c :: s' =>
          if is_digit c then
            match digitsN n' s' with
            | Some (ds, r) => Some (c :: ds, r)
            | None => None
            end
          else None
      end
  end.

Definition lit (p : string) : chars := list_ascii_of_string p.

(** (SM|SL) *)
Definition sm_or_sl (s : chars) : option chars :=
  match literal (lit "SM") s with
  | Some r => Some r
  | None => literal (lit "SL") s
  end.

(** The match that starts at the head of [s]: groups 2 and 3. *)
Definition match_here (s : chars) : option (chars * chars) :=
  match literal (lit "ICEYE_X") s with None => None | Some s1 =>
  match digits1 s1 with None => None | Some (_, s2) =>
  match literal (lit "_GRD_") s2 with None => None | Some s3 =>
  match sm_or_sl s3 with None => None | Some s4 =>
  match literal (lit "_") s4 with None => None | Some s5 =>
  match digits1 s5 with None => None | Some (g2, s6) =>
  match literal (lit "_") s6 with None => None | Some s7 =>
  match digitsN 8 s7 with None => None | Some (d8, s8) =>
  match literal (lit "T") s8 with None => None | Some s9 =>
  match digitsN 6 s9 with None => None | Some (d6, _) =>
    Some (g2, d8 ++ lit "T" ++ d6)
  end end end end end end end end end end.

(** [re.search]: the leftmost start with a match. *)
Fixpoint re_search (s : chars) : option (chars * chars) :=
  match match_here s with
  | Some g => Some g
  | None =>
      match s with
      | [] => None
      | _ :: s' => re_search s'
      end
  end.

(* ================================================================== *)
(** ** datetime *)

Record datetime : Type := mk_datetime {
  dt_year : N; dt_month : N; dt_day : N;
  dt_hour : N; dt_minute : N; dt_second : N }.

Definition digit_val (c : ascii) : N := N_of_ascii c - 48.
Definition digit_char (n : N) : ascii := ascii_of_N (48 + n).

Definition num2 (a b : ascii) : N := 10 * digit_val a + digit_val b.

Definition is_leap (y : N) : bool :=
  ((y mod 4 =? 0) && (negb (y mod 100 =? 0) || (y mod 400 =? 0)))%N.

Definition days_in_month (y m : N) : N :=
  match m with
  | 2 => if is_leap y then 29 else 28
  | 4 | 6 | 9 | 11 => 30
  | _ => 31
  end%N.

(** What [datetime(...)] accepts (MINYEAR is 1, MAXYEAR is 9999). *)
Definition valid_datetime (d : datetime) : bool :=
  ((1 <=? dt_year d) && (dt_year d <=? 9999)
   && (1 <=? dt_month d) && (dt_month d <=? 12)
   && (1 <=? dt_day d) && (dt_day d <=? days_in_month (dt_year d) (dt_month d))
   && (dt_hour d <=? 23) && (dt_minute d <=? 59) && (dt_second d <=? 59))%N.

(** [datetime.strptime(s, "%Y%m%dT%H%M%S")]: [None] stands for the
    [ValueError] it raises, when the text does not have the format or the
    fields do not make a date and a time of day.  With eight digits before
    the T and six after it, every field but the year has two digits; the
    letter of the format is matched without regard to case. *)
Definition strptime (s : chars) : option datetime :=
  match s with
  | [y1; y2; y3; y4; m1; m2; d1; d2; t; h1; h2; n1; n2; s1; s2] =>
      if forallb is_digit [y1; y2; y3; y4; m1; m2; d1; d2; h1; h2; n1; n2; s1; s2]
         && (Ascii.eqb t "T" || Ascii.eqb t "t")
      then
        let d := mk_datetime (100 * num2 y1 y2 + num2 y3 y4)%N (num2 m1 m2)
                   (num2 d1 d2) (num2 h1 h2) (num2 n1 n2) (num2 s1 s2) in
        if valid_datetime d then Some d else None
      else None
  | _ => None
  end.

Definition pad2 (n : N) : chars :=
  [digit_char (n / 10); digit_char (n mod 10)]%N.

Definition pad4 (n : N) : chars := (pad2 (n / 100) ++ pad2 (n mod 100))%N.

(** [d.isoformat()] of a datetime without microseconds or time zone. *)
Definition isoformat (d : datetime) : chars :=
  pad4 (dt_year d) ++ lit "-" ++ pad2 (dt_month d) ++ lit "-" ++ pad2 (dt_day d)
  ++ lit "T" ++ pad2 (dt_hour d) ++ lit ":" ++ pad2 (dt_minute d)
  ++ lit ":" ++ pad2 (dt_second d).

(* ================================================================== *)
(** ** rasterio and the file system *)

(** What [rasterio.open(path)] gives: band 1 and the tags, the value of a
    tag already read as a float. *)
Record dataset : Type := mk_dataset { band1 : ndarray; tags : list (string * Q) }.

Fixpoint tags_get (key : string) (t : list (string * Q)) (default : Q) : Q :=
  match t with
  | [] => default
  | (k, v) :: t' => if String.eqb k key then v else tags_get key t' default
  end.

(** An 8-bit single-channel image (mode "L"), row by row. *)
Definition image_L : Type := list (list Z).

(** The files written, the latest first. *)
Definition disk : Type := list (string * image_L).

(* ================================================================== *)
(** ** class GRDImage *)

Record GRDImage : Type := mk_GRDImage {
  file_path : string;
  data : ndarray;
  image_id : string;
  timestamp : string;
  calibration_factor : Q }.

(** The object after [self.data = a]. *)
Definition with_data (self : GRDImage) (a : ndarray) : GRDImage :=
  mk_GRDImage (file_path self) a (image_id self) (timestamp self)
    (calibration_factor self).

Definition set_data (a : ndarray) : method GRDImage unit :=
  modify (fun self => with_data self a).

(** The double quote character, for the messages that hold one. *)
Definition dq : string := String "034"%char EmptyString.

Definition invalid_output_format : exn :=
  ValueError ("Invalid output format. Choose from " ++ dq ++ "0-1" ++ dq ++ ", "
              ++ dq ++ "-1-1" ++ dq ++ ", or " ++ dq ++ "0-255" ++ dq ++ ".").

Definition not_normalized : exn :=
  ValueError "Data must be normalized to a valid range (0-1) before calibration".

Definition invalid_file_name : exn := ValueError "Invalid file name format".

(** The [ValueError] of [strptime]; the text of its message varies with the
    field that fails and is not followed here. *)
Definition strptime_error (s : chars) : exn :=
  ValueError ("time data '" ++ string_of_list_ascii s
              ++ "' does not match format '%Y%m%dT%H%M%S'").

(** [normalize], lines 48-82. *)
Definition normalize (output_format : string) : method GRDImage unit :=
  (grd_data <- gets data ;;
   normalized_data <-
     (if String.eqb output_format "0-1" then
        lo <- np_min grd_data ;;
        hi <- np_max grd_data ;;
        lo' <- np_min grd_data ;;
        np_div (amap (fun x => x - lo) grd_data) (hi - lo')
      else if String.eqb output_format "-1-1" then
        lo <- np_min grd_data ;;
        hi <- np_max grd_data ;;
        lo' <- np_min grd_data ;;
        q <- np_div (amap (fun x => 2 * x) (amap (fun x => x - lo) grd_data))
               (hi - lo') ;;
        ret (amap (fun x => x - 1) q)
      else if String.eqb output_format "0-255" then
        lo <- np_min grd_data ;;
        hi <- np_max grd_data ;;
        lo' <- np_min grd_data ;;
        np_div (amap (fun x => 255 * x) (amap (fun x => x - lo) grd_data))
          (hi - lo')
      else raise invalid_output_format) ;;
   set_data (astype Float32 normalized_data))%method.

(** The range check of [calibrate], lines 112-115. *)
Definition range_check : method GRDImage unit :=
  (d <- gets data ;;
   lo <- np_min d ;;
   out_of_range <- (if Qlt_bool lo 0 then ret true
                    else d' <- gets data ;; hi <- np_max d' ;; ret (Qlt_bool 1 hi)) ;;
   if out_of_range : bool then raise not_normalized else ret tt)%method.

(** The branch taken at lines 118-121 of [calibrate]. *)
Inductive adjustment : Type :=
| Divide255   (* [self.data = self.data / 255.0] *)
| ShiftHalve  (* [self.data = (self.data + 1) / 2.0] *)
| Keep.       (* neither condition holds *)

Definition choose_adjustment : method GRDImage adjustment :=
  (d <- gets data ;;
   lo <- np_min d ;;
   first <- (if Qle_bool 0 lo then
               d' <- gets data ;; hi <- np_max d' ;; ret (Qlt_bool 1 hi)
             else ret false) ;;
   if first : bool then ret Divide255
   else
     d <- gets data ;;
     lo <- np_min d ;;
     if Qlt_bool lo 0 then ret ShiftHalve else ret Keep)%method.

Definition apply_adjustment (a : adjustment) : method GRDImage unit :=
  match a with
  | Divide255 => (d <- gets data ;; q <- np_div d 255 ;; set_data q)%method
  | ShiftHalve =>
      (d <- gets data ;; q <- np_div (amap (fun x => x + 1) d) 2 ;; set_data q)%method
  | Keep => ret tt
  end.

(** Lines 118-121 of [calibrate]. *)
Definition adjust_ranges : method GRDImage unit :=
  (a <- choose_adjustment ;; apply_adjustment a)%method.

Section Pipeline.

(** The value of [np.log10] at a positive argument. *)
Variable log10 : Q -> Q.

(** The resampling [Image.thumbnail] does when no filter is given. *)
Variable BICUBIC : resampling.

(** Lines 125-129 of [calibrate]. *)
Definition sigma0_db : method GRDImage unit :=
  (cf <- gets calibration_factor ;;
   d <- gets data ;;
   let sigma0 := amap (fun x => cf * x) (amap (fun x => Qabs x ^ 2) d) in
   l <- np_log10 log10 (amap (fun x => x + 1e-10) sigma0) ;;
   let sigma0_db := amap (fun x => 10 * x) l in
   set_data sigma0_db)%method.

(** [calibrate], lines 84-136. *)
Definition calibrate : method GRDImage unit :=
  (range_check ;;; adjust_ranges ;;; sigma0_db)%method.

(** Lines 112-115 and 125-129 alone: [calibrate] without lines 118-121. *)
Definition calibrate_without_adjustment : method GRDImage unit :=
  (range_check ;;; sigma0_db)%method.

(** [downsample], lines 138-156: the array it returns. *)
Definition downsample (size : Z * Z) : method GRDImage ndarray :=
  (d <- gets data ;;
   let image_data := astype_uint8 (clip 0 255 (amap (fun x => x * 255) d)) in
   d' <- gets data ;;
   thumbnail size BICUBIC (fromarray d'))%method.

(** [save_as_png], lines 158-174, on the object and the files. *)
Definition save_as_png (path : string) : method (GRDImage * disk) unit :=
  (d <- gets (fun w => data (fst w)) ;;
   let image_data := astype_uint8 (clip 0 255 (amap (fun x => x * 255) d)) in
   modify (fun w => (fst w, (path, image_data) :: snd w)))%method.

(** [extract_info_from_filename], lines 176-197, as a function of the path. *)
Definition extract_info_from_filename (path : string)
  : exn + (string * string) :=
  match re_search (list_ascii_of_string path) with
  | Some (g2, g3) =>
      match strptime g3 with
      | Some t => inr (string_of_list_ascii g2, string_of_list_ascii (isoformat t))
      | None => inl (strptime_error g3)
      end
  | None => inl invalid_file_name
  end.

(** [rasterio.open]: [None] when it raises. *)
Variable rasterio_open : string -> option dataset.

(** [GRDImage(file_path)], lines 16-46. *)
Definition GRDImage_init (path : string) : exn + GRDImage :=
  match rasterio_open path with
  | None => inl RasterioIOError
  | Some src =>
      let grd_data := band1 src in
      let cf := tags_get "CALIBRATION_FACTOR" (tags src) 1 in
      match extract_info_from_filename path with
      | inl e => inl e
      | inr (id, ts) => inr (mk_GRDImage path grd_data id ts cf)
      end
  end.

(** A method of the image run next to the files. *)
Definition on_image {A} (m : method GRDImage A) : method (GRDImage * disk) A :=
  fun w =>
    match m (fst w) with
    | Returns v s => Returns v (s, snd w)
    | Raises e s => Raises e (s, snd w)
    | NonFinite => NonFinite
    end.

Record arguments : Type := mk_arguments {
  arg_file_path : string;
  arg_normalization_format : string;
  arg_max_size : Z * Z;
  arg_output_filename : string }.

(** The stages [main] runs on the image, lines 47-50 of geotif.py. *)
Definition stages (args : arguments) : method (GRDImage * disk) unit :=
  (on_image (normalize (arg_normalization_format args)) ;;;
   on_image calibrate ;;;
   on_image (downsample (arg_max_size args)) ;;;
   save_as_png (arg_output_filename args))%method.

(** [main], lines 38-55 of geotif.py, on the files. *)
Definition main (args : arguments) : method disk unit :=
  fun files =>
    match GRDImage_init (arg_file_path args) with
    | inl e => Raises e files
    | inr image =>
        match stages args (image, files) with
        | Returns v w => Returns v (snd w)
        | Raises e w => Raises e (snd w)
        | NonFinite => NonFinite
        end
    end.

End Pipeline.

(* ================================================================== *)
(** ** Vocabulary of the statements *)

Definition in_unit_range (a : ndarray) : Prop :=
  forall x, In x (samples a) -> 0 <= x <= 1.

(* ================================================================== *)
(** ** Sample inputs *)

(** A coarse stand-in for [np.log10], to run the model on a sample: the
    difference of the binary logarithms of numerator and denominator, times
    log10(2). *)
Definition log10_coarse (x : Q) : Q :=
  inject_Z (Z.log2 (Qnum x) - Z.log2 (Zpos (Qden x))) * 0.30103.

(** A stand-in for the resampling of PIL: the source sample under the
    centre of each output pixel. *)
Definition nearest : resampling := fun im w h i j =>
  nth ((2 * j + 1) * snd (shape im) / (2 * w))
    (nth ((2 * i + 1) * fst (shape im) / (2 * h)) (arr_rows im) []) 0.

Definition sample_path : string :=
  "data/input/ICEYE_X4_GRD_SM_9281_20190903T144946.tif".

(** An image of the sample file with the given samples. *)
Definition sample_image (rows : list (list Q)) (cf : Q) : GRDImage :=
  mk_GRDImage sample_path (mk_ndarray Float32 rows) "9281" "2019-09-03T14:49:46" cf.


(** Samples within [0,1]. *)
Definition unit_image : GRDImage := sample_image [[0; 1 # 4]; [1 # 2; 1]] 1.

(** A sample above 1. *)
Definition wide_image : GRDImage := sample_image [[1 # 2; 2]] 1.


(** 200 rows of 2 columns. *)
Definition tall_image : GRDImage := sample_image (repeat [0; 1] 200) 1.

(** A raster source that holds the given band and no tag, at any path. *)
Definition sample_source (band : ndarray) : string -> option dataset :=
  fun _ => Some (mk_dataset band []).

(* ================================================================== *)
(** ** Vocabulary of the further statements *)

(** The three selectors [normalize] knows. *)
Definition known_format (fmt : string) : Prop :=
  fmt = "0-1"%string \/ fmt = "-1-1"%string \/ fmt = "0-255"%string.

(** The value [normalize] gives a sample, for a known selector. *)
Definition rescaled (fmt : string) (lo hi x : Q) : Q :=
  if String.eqb fmt "0-1" then (x - lo) / (hi - lo)
  else if String.eqb fmt "-1-1" then 2 * (x - lo) / (hi - lo) - 1
  else 255 * (x - lo) / (hi - lo).

(** The number of samples of each row. *)
Definition row_lengths (a : ndarray) : list nat := map (@List.length Q) (arr_rows a).

(** The size [Image.thumbnail] resizes to, for an image of width [W] and
    height [H] that does not fit the bound ([x], [y]): the second branch of
    [preserve_aspect_ratio]. *)
Definition scaled_size (W H x y : Z) : Z * Z :=
  let aspect := inject_Z W / inject_Z H in
  if Qle_bool aspect (inject_Z x / inject_Z y) then
    (round_aspect (inject_Z y * aspect)
       (fun n => Qabs (aspect - inject_Z n / inject_Z y)), y)
  else
    (x, round_aspect (inject_Z x / aspect)
          (fun n => if (n =? 0)%Z then 0
                    else Qabs (aspect - inject_Z x / inject_Z n))).

(** ** Further sample inputs *)

(** No sample at all. *)
Definition empty_image : GRDImage := sample_image [] 1.

(** Every sample equal to 3. *)
Definition constant_image : GRDImage := sample_image [[3; 3]; [3; 3]] 1.

(** 200 rows of 140 columns: 7 by 10. *)
Definition portrait_image : GRDImage := sample_image (repeat (repeat 0 140) 200) 1.

(* ================================================================== *)
(** * The methods on every raster and every path

    The definitions above follow the class on finite samples, with exact
    arithmetic and one-byte characters.  The module [Full] follows
    [normalize], [calibrate], [save_as_png] and
    [extract_info_from_filename] on what the program can hold.
    - A raster keeps the dtype of the file ([src.read(1)], line 38): an
      array of machine integers, whose arithmetic wraps, or an array of
      floats, which can be NaN or infinite.
    - A floating-point operation gives the float nearest to the exact
      result, an infinity beyond the largest float; the rounding is the
      parameter [rounded].  numpy computes with a Python scalar in the
      dtype of the array (numpy 2).  Zeros carry no sign.
    - A method returns also when it leaves NaN in the data.
    - A [str] is a list of code points; which of them [\d] takes is the
      parameter [is_decimal] (the Unicode category Nd).
    - Writing the file can fail: [write_image] is a parameter. *)

Module Full.

(* ------------------------------------------------------------------ *)
(** ** Python values *)

(** A [str]: its code points. *)
Definition str : Type := list N.

Definition text (s : string) : str := map N_of_ascii (list_ascii_of_string s).

(** [a == b] *)
Fixpoint str_eqb (a b : str) : bool :=
  match a, b with
  | [], [] => true
  | x :: a', y :: b' => (x =? y)%N && str_eqb a' b'
  | _, _ => false
  end.

(** An exception: its class and its message. *)
Record exception : Type := mk_exception { exc_class : string; exc_message : str }.

Definition ValueError (msg : str) : exception := mk_exception "ValueError" msg.

(** Outcome of running a method on an object whose state has type [S]. *)
Inductive outcome (S A : Type) : Type :=
| Returns (v : A) (s : S)
| Raises (e : exception) (s : S).
Arguments Returns {S A} v s.
Arguments Raises {S A} e s.

Definition method (S A : Type) : Type := S -> outcome S A.

Definition ret {S A} (v : A) : method S A := fun s => Returns v s.

Definition bind {S A B} (m : method S A) (k : A -> method S B) : method S B :=
  fun s =>
    match m s with
    | Returns v s' => k v s'
    | Raises e s' => Raises e s'
    end.

Definition raise {S A} (e : exception) : method S A := fun s => Raises e s.
Definition gets {S A} (f : S -> A) : method S A := fun s => Returns (f s) s.
Definition modify {S} (f : S -> S) : method S unit := fun s => Returns tt (f s).

Declare Scope py_scope.
Delimit Scope py_scope with py.
Notation "x <- m ;; k" := (bind m (fun x => k))
  (at level 61, m at next level, right associativity) : py_scope.
Notation "m ;;; k" := (bind m (fun _ => k))
  (at level 61, right associativity) : py_scope.

(* ------------------------------------------------------------------ *)
(** ** Machine integers *)

Inductive int_dtype : Type := UInt8 | Int16 | UInt16 | Int32 | UInt32.

Definition int_min (t : int_dtype) : Z :=
  match t with
  | UInt8 | UInt16 | UInt32 => 0
  | Int16 => -32768
  | Int32 => -2147483648
  end.

Definition int_max (t : int_dtype) : Z :=
  match t with
  | UInt8 => 255
  | UInt16 => 65535
  | UInt32 => 4294967295
  | Int16 => 32767
  | Int32 => 2147483647
  end.

(** The value a result takes in the dtype: modulo the size of its range. *)
Definition wrap (t : int_dtype) (z : Z) : Z :=
  (int_min t + (z - int_min t) mod (int_max t - int_min t + 1))%Z.

(* ------------------------------------------------------------------ *)
(** ** Floats *)

Inductive float_dtype : Type := Float32 | Float64.

Inductive float : Type :=
| Finite (q : Q)
| PosInf
| NegInf
| Nan.

(** The largest finite float. *)
Definition max_finite (t : float_dtype) : Q :=
  match t with
  | Float32 => inject_Z ((2 ^ 24 - 1) * 2 ^ 104)
  | Float64 => inject_Z ((2 ^ 53 - 1) * 2 ^ 971)
  end.

Definition of_int (z : Z) : float := Finite (inject_Z z).

Definition fneg (a : float) : float :=
  match a with
  | Finite q => Finite (- q)
  | PosInf => NegInf
  | NegInf => PosInf
  | Nan => Nan
  end.

Definition fabs (a : float) : float :=
  match a with
  | Finite q => Finite (Qabs q)
  | PosInf | NegInf => PosInf
  | Nan => Nan
  end.

(** [a < b] and [a <= b]: false when either is a NaN. *)
Definition flt (a b : float) : bool :=
  match a, b with
  | Finite x, Finite y => Qlt_bool x y
  | Finite _, PosInf | NegInf, Finite _ | NegInf, PosInf => true
  | _, _ => false
  end.

Definition fle (a b : float) : bool :=
  match a, b with
  | Finite x, Finite y => Qle_bool x y
  | Nan, _ | _, Nan => false
  | NegInf, _ | _, PosInf => true
  | _, _ => false
  end.

(** [np.minimum] and [np.maximum], which the reductions [np.min] and
    [np.max] fold over the samples: a NaN on either side gives a NaN. *)
Definition fmin (a b : float) : float :=
  match a, b with
  | Nan, _ | _, Nan => Nan
  | _, _ => if flt b a then b else a
  end.

Definition fmax (a b : float) : float :=
  match a, b with
  | Nan, _ | _, Nan => Nan
  | _, _ => if flt a b then b else a
  end.

Section Arithmetic.

(** The float of each precision nearest to an exact result, before the
    test for overflow. *)
Variable rounded : float_dtype -> Q -> Q.

(** The float an exact result becomes. *)
Definition to_float (t : float_dtype) (q : Q) : float :=
  let r := rounded t q in
  if Qlt_bool (max_finite t) r then PosInf
  else if Qlt_bool r (- max_finite t) then NegInf
  else Finite r.

(** A float taken to the precision [t]. *)
Definition cast (t : float_dtype) (a : float) : float :=
  match a with
  | Finite q => to_float t q
  | _ => a
  end.

Definition fadd (t : float_dtype) (a b : float) : float :=
  match a, b with
  | Nan, _ | _, Nan => Nan
  | Finite x, Finite y => to_float t (x + y)
  | PosInf, NegInf | NegInf, PosInf => Nan
  | PosInf, _ | _, PosInf => PosInf
  | NegInf, _ | _, NegInf => NegInf
  end.

Definition fsub (t : float_dtype) (a b : float) : float := fadd t a (fneg b).

(** An infinity times a finite factor. *)
Definition scale_inf (i : float) (x : Q) : float :=
  if Qeq_bool x 0 then Nan else if Qlt_bool 0 x then i else fneg i.

Definition fmul (t : float_dtype) (a b : float) : float :=
  match a, b with
  | Nan, _ | _, Nan => Nan
  | Finite x, Finite y => to_float t (x * y)
  | Finite x, i => scale_inf i x
  | i, Finite y => scale_inf i y
  | PosInf, PosInf | NegInf, NegInf => PosInf
  | PosInf, NegInf | NegInf, PosInf => NegInf
  end.

(** A quotient by zero takes the sign of the numerator. *)
Definition fdiv (t : float_dtype) (a b : float) : float :=
  match a, b with
  | Nan, _ | _, Nan => Nan
  | Finite x, Finite y =>
      if Qeq_bool y 0 then
        if Qeq_bool x 0 then Nan else if Qlt_bool 0 x then PosInf else NegInf
      else to_float t (x / y)
  | Finite _, _ => Finite 0
  | i, Finite y => if Qlt_bool y 0 then fneg i else i
  | _, _ => Nan
  end.

(** The value of [np.log10] at a positive finite argument, in each
    precision. *)
Variable log10 : float_dtype -> Q -> Q.

Definition flog10 (t : float_dtype) (a : float) : float :=
  match a with
  | Finite q =>
      if Qlt_bool 0 q then Finite (log10 t q)
      else if Qeq_bool q 0 then NegInf
      else Nan
  | PosInf => PosInf
  | NegInf | Nan => Nan
  end.

End Arithmetic.

(* ------------------------------------------------------------------ *)
(** ** numpy arrays and scalars *)

(** A 2-D array, row by row. *)
Inductive ndarray : Type :=
| IntArray (t : int_dtype) (rows : list (list Z))
| FloatArray (t : float_dtype) (rows : list (list float)).

(** What a reduction of an array gives: a scalar of its dtype. *)
Inductive scalar : Type :=
| IntScalar (t : int_dtype) (z : Z)
| FloatScalar (t : float_dtype) (x : float).

(** The values of the samples, and of a scalar. *)
Definition promote (a : ndarray) : list (list float) :=
  match a with
  | IntArray _ rows => map (map of_int) rows
  | FloatArray _ rows => rows
  end.

Definition elements (a : ndarray) : list float := concat (promote a).

Definition value (s : scalar) : float :=
  match s with
  | IntScalar _ z => of_int z
  | FloatScalar _ x => x
  end.

(** The precision numpy computes in when a Python float meets the array. *)
Definition float_dtype_of (a : ndarray) : float_dtype :=
  match a with
  | IntArray _ _ => Float64
  | FloatArray t _ => t
  end.

Definition zero_size (op : string) : exception :=
  ValueError (text ("zero-size array to reduction operation " ++ op
                    ++ " which has no identity")).

Definition reduce {A} (f : A -> A -> A) (l : list A) : option A :=
  match l with
  | [] => None
  | x :: t => Some (fold_left f t x)
  end.

(** [np.min] / [np.amin]: raises on an array without samples. *)
Definition np_min {S} (a : ndarray) : method S scalar :=
  match a with
  | IntArray t rows =>
      match reduce Z.min (concat rows) with
      | Some m => ret (IntScalar t m)
      | None => raise (zero_size "minimum")
      end
  | FloatArray t rows =>
      match reduce fmin (concat rows) with
      | Some m => ret (FloatScalar t m)
      | None => raise (zero_size "minimum")
      end
  end.

Definition np_max {S} (a : ndarray) : method S scalar :=
  match a with
  | IntArray t rows =>
      match reduce Z.max (concat rows) with
      | Some m => ret (IntScalar t m)
      | None => raise (zero_size "maximum")
      end
  | FloatArray t rows =>
      match reduce fmax (concat rows) with
      | Some m => ret (FloatScalar t m)
      | None => raise (zero_size "maximum")
      end
  end.

(** An 8-bit single-channel image (mode "L"), row by row. *)
Definition image_L : Type := list (list Z).

Section Numpy.

Variable rounded : float_dtype -> Q -> Q.
Variable log10 : float_dtype -> Q -> Q.

(** [a - s] and [a / s] for a reduction [s] of the same array, which has
    its dtype: integers are subtracted in the dtype and divided as
    doubles.  (An array and a scalar of other dtypes do not meet in this
    program; they are computed as doubles.) *)
Definition subtract (a : ndarray) (s : scalar) : ndarray :=
  match a, s with
  | IntArray t rows, IntScalar _ z =>
      IntArray t (map (map (fun x => wrap t (x - z))) rows)
  | FloatArray t rows, FloatScalar _ y =>
      FloatArray t (map (map (fun x => fsub rounded t x y)) rows)
  | _, _ =>
      FloatArray Float64
        (map (map (fun x => fsub rounded Float64 x (value s))) (promote a))
  end.

Definition divide (a : ndarray) (s : scalar) : ndarray :=
  match a, s with
  | FloatArray t rows, FloatScalar _ y =>
      FloatArray t (map (map (fun x => fdiv rounded t x y)) rows)
  | _, _ =>
      FloatArray Float64
        (map (map (fun x => fdiv rounded Float64 x (value s))) (promote a))
  end.

(** [s1 - s2] for two reductions of one array. *)
Definition subtract_scalars (s1 s2 : scalar) : scalar :=
  match s1, s2 with
  | IntScalar t x, IntScalar _ y => IntScalar t (wrap t (x - y))
  | FloatScalar t x, FloatScalar _ y => FloatScalar t (fsub rounded t x y)
  | _, _ => FloatScalar Float64 (fsub rounded Float64 (value s1) (value s2))
  end.

(** [k * a], [a + k] and [a - k] for a Python int [k] that the dtype can
    hold: the dtype is kept. *)
Definition times (k : Z) (a : ndarray) : ndarray :=
  match a with
  | IntArray t rows => IntArray t (map (map (fun x => wrap t (k * x))) rows)
  | FloatArray t rows =>
      FloatArray t (map (map (fun x => fmul rounded t (of_int k) x)) rows)
  end.

Definition plus_int (a : ndarray) (k : Z) : ndarray :=
  match a with
  | IntArray t rows => IntArray t (map (map (fun x => wrap t (x + k))) rows)
  | FloatArray t rows =>
      FloatArray t (map (map (fun x => fadd rounded t x (of_int k))) rows)
  end.

Definition minus_int (a : ndarray) (k : Z) : ndarray := plus_int a (- k).

(** An operation with a Python float [c]: an array of integers becomes one
    of doubles, an array of floats keeps its precision and [c] is taken to
    it. *)
Definition with_float (op : float_dtype -> float -> float -> float)
    (a : ndarray) (c : float) : ndarray :=
  let t := float_dtype_of a in
  FloatArray t (map (map (fun x => op t x (cast rounded t c))) (promote a)).

(** [np.abs(a)] and [a ** 2] *)
Definition np_abs (a : ndarray) : ndarray :=
  match a with
  | IntArray t rows => IntArray t (map (map (fun x => wrap t (Z.abs x))) rows)
  | FloatArray t rows => FloatArray t (map (map fabs) rows)
  end.

Definition square (a : ndarray) : ndarray :=
  match a with
  | IntArray t rows => IntArray t (map (map (fun x => wrap t (x * x))) rows)
  | FloatArray t rows => FloatArray t (map (map (fun x => fmul rounded t x x)) rows)
  end.

(** [np.log10(a)] *)
Definition np_log10 (a : ndarray) : ndarray :=
  let t := float_dtype_of a in
  FloatArray t (map (map (flog10 log10 t)) (promote a)).

(** [a.astype(np.float32)] *)
Definition astype_float32 (a : ndarray) : ndarray :=
  FloatArray Float32 (map (map (cast rounded Float32)) (promote a)).

(** [a.clip(0, 255)]: [np.minimum(np.maximum(a, 0), 255)]. *)
Definition clip_0_255 (a : ndarray) : ndarray :=
  match a with
  | IntArray t rows => IntArray t (map (map (fun x => Z.min (Z.max x 0) 255)) rows)
  | FloatArray t rows =>
      FloatArray t (map (map (fun x => fmin (fmax x (of_int 0)) (of_int 255))) rows)
  end.

(** The byte the conversion of the platform gives for a float that has no
    integer part within 0..255 (C leaves it undefined). *)
Variable uint8_of_other : float -> Z.

(** [a.astype(np.uint8)]: an integer modulo 256, a float without its
    fractional part. *)
Definition float_to_uint8 (x : float) : Z :=
  match x with
  | Finite q =>
      if Qle_bool 0 q && Qlt_bool q 256 then Qfloor q else uint8_of_other x
  | _ => uint8_of_other x
  end.

Definition astype_uint8 (a : ndarray) : image_L :=
  match a with
  | IntArray _ rows => map (map (wrap UInt8)) rows
  | FloatArray _ rows => map (map float_to_uint8) rows
  end.

End Numpy.

(* ------------------------------------------------------------------ *)
(** ** The file-name pattern

    [re.search(r"ICEYE_X\d+_GRD_(SM|SL)_(\d+)_(\d{8}T\d{6})", path)] on a
    [str]: [\d] takes every decimal digit of Unicode. *)

Definition ascii_digit (c : N) : bool := ((48 <=? c) && (c <=? 57))%N.

Section Pattern.

(** The characters [\d] takes. *)
Variable is_decimal : N -> bool.

(** A literal: the rest of the text after it. *)
Fixpoint literal (p s : str) : option str :=
  match p with
  | [] => Some s
  | c :: p' =>
      match s with
      | [] => None
      | d :: s' => if (c =? d)%N then literal p' s' else None
      end
  end.

(** [\d+], greedy: the longest run of digits (not empty) and the rest. *)
Fixpoint span_digits (s : str) : str * str :=
  match s with
  | [] => ([], [])
  | c :: s' =>
      if is_decimal c then let (ds, r) := span_digits s' in (c :: ds, r)
      else ([], s)
  end.

Definition digits1 (s : str) : option (str * str) :=
  match span_digits s with
  | ([], _) => None
  | (ds, r) => Some (ds, r)
  end.

(** [\d{n}] *)
Fixpoint digitsN (n : nat) (s : str) : option (str * str) :=
  match n with
  | O => Some ([], s)
  | Datatypes.S n' =>
      match s with
      | [] => None
      | c :: s' =>
          if is_decimal c then
            match digitsN n' s' with
            | Some (ds, r) => Some (c :: ds, r)
            | None => None
            end
          else None
      end
  end.

(** (SM|SL) *)
Definition sm_or_sl (s : str) : option str :=
  match literal (text "SM") s with
  | Some r => Some r
  | None => literal (text "SL") s
  end.

(** The match that starts at the head of [s]: groups 2 and 3. *)
Definition match_here (s : str) : option (str * str) :=
  match literal (text "ICEYE_X") s with None => None | Some s1 =>
  match digits1 s1 with None => None | Some (_, s2) =>
  match literal (text "_GRD_") s2 with None => None | Some s3 =>
  match sm_or_sl s3 with None => None | Some s4 =>
  match literal (text "_") s4 with None => None | Some s5 =>
  match digits1 s5 with None => None | Some (g2, s6) =>
  match literal (text "_") s6 with None => None | Some s7 =>
  match digitsN 8 s7 with None => None | Some (d8, s8) =>
  match literal (text "T") s8 with None => None | Some s9 =>
  match digitsN 6 s9 with None => None | Some (d6, _) =>
    Some (g2, d8 ++ text "T" ++ d6)
  end end end end end end end end end end.

(** [re.search]: the leftmost start with a match. *)
Fixpoint re_search (s : str) : option (str * str) :=
  match match_here s with
  | Some g => Some g
  | None =>
      match s with
      | [] => None
      | _ :: s' => re_search s'
      end
  end.

End Pattern.

(* ------------------------------------------------------------------ *)
(** ** datetime *)

Definition digit_val (c : N) : N := c - 48.
Definition digit_char (n : N) : N := 48 + n.

Definition num2 (a b : N) : N := 10 * digit_val a + digit_val b.

Definition pad2 (n : N) : str := [digit_char (n / 10); digit_char (n mod 10)]%N.

Definition pad4 (n : N) : str := (pad2 (n / 100) ++ pad2 (n mod 100))%N.

(** [d.isoformat()] of a datetime without microseconds or time zone. *)
Definition isoformat (d : datetime) : str :=
  pad4 (dt_year d) ++ text "-" ++ pad2 (dt_month d) ++ text "-" ++ pad2 (dt_day d)
  ++ text "T" ++ pad2 (dt_hour d) ++ text ":" ++ pad2 (dt_minute d)
  ++ text ":" ++ pad2 (dt_second d).

(** The date and time that eight ASCII digits, T and six ASCII digits
    spell, when there is one: every field but the year has two digits. *)
Definition ascii_datetime (s : str) : option (option datetime) :=
  match s with
  | [y1; y2; y3; y4; m1; m2; d1; d2; t; h1; h2; n1; n2; s1; s2] =>
      if forallb ascii_digit [y1; y2; y3; y4; m1; m2; d1; d2; h1; h2; n1; n2; s1; s2]
         && (t =? 84)%N
      then
        let d := mk_datetime (100 * num2 y1 y2 + num2 y3 y4)%N (num2 m1 m2)
                   (num2 d1 d2) (num2 h1 h2) (num2 n1 n2) (num2 s1 s2) in
        Some (if valid_datetime d then Some d else None)
      else None
  | _ => None
  end.

Section Strptime.

(** The message of the [ValueError] that [strptime] raises for a text: it
    names the text or the field that fails, and changes between versions
    of Python. *)
Variable strptime_message : str -> str.

(** [datetime.strptime(s, "%Y%m%dT%H%M%S")] for any other text: one with a
    decimal digit outside ASCII, or not of the form the pattern gives. *)
Variable strptime_other : str -> exception + datetime.

(** [datetime.strptime(s, "%Y%m%dT%H%M%S")] *)
Definition strptime (s : str) : exception + datetime :=
  match ascii_datetime s with
  | Some (Some d) => inr d
  | Some None => inl (ValueError (strptime_message s))
  | None => strptime_other s
  end.

End Strptime.

(* ------------------------------------------------------------------ *)
(** ** class GRDImage *)

(** The files written, the latest first. *)
Definition disk : Type := list (str * image_L).

Record GRDImage : Type := mk_GRDImage {
  file_path : str;
  data : ndarray;
  image_id : str;
  timestamp : str;
  calibration_factor : float }.

(** The object after [self.data = a]. *)
Definition with_data (self : GRDImage) (a : ndarray) : GRDImage :=
  mk_GRDImage (file_path self) a (image_id self) (timestamp self)
    (calibration_factor self).

Definition set_data (a : ndarray) : method GRDImage unit :=
  modify (fun self => with_data self a).

Definition invalid_output_format : exception :=
  ValueError (text ("Invalid output format. Choose from " ++ dq ++ "0-1" ++ dq
                    ++ ", " ++ dq ++ "-1-1" ++ dq ++ ", or " ++ dq ++ "0-255"
                    ++ dq ++ ".")).

Definition not_normalized : exception :=
  ValueError
    (text "Data must be normalized to a valid range (0-1) before calibration").

Definition invalid_file_name : exception :=
  ValueError (text "Invalid file name format").

(** The range check of [calibrate], lines 112-115. *)
Definition range_check : method GRDImage unit :=
  (d <- gets data ;;
   lo <- np_min d ;;
   out_of_range <- (if flt (value lo) (of_int 0) then ret true
                    else d' <- gets data ;; hi <- np_max d' ;;
                         ret (flt (of_int 1) (value hi))) ;;
   if out_of_range : bool then raise not_normalized else ret tt)%py.

(** The branch taken at lines 118-121 of [calibrate]. *)
Definition choose_adjustment : method GRDImage adjustment :=
  (d <- gets data ;;
   lo <- np_min d ;;
   first <- (if fle (of_int 0) (value lo) then
               d' <- gets data ;; hi <- np_max d' ;;
               ret (flt (of_int 1) (value hi))
             else ret false) ;;
   if first : bool then ret Divide255
   else
     d <- gets data ;;
     lo <- np_min d ;;
     if flt (value lo) (of_int 0) then ret ShiftHalve else ret Keep)%py.

Section Methods.

Variable rounded : float_dtype -> Q -> Q.
Variable log10 : float_dtype -> Q -> Q.

(** [normalize], lines 48-82. *)
Definition normalize (output_format : str) : method GRDImage unit :=
  (grd_data <- gets data ;;
   normalized_data <-
     (if str_eqb output_format (text "0-1") then
        lo <- np_min grd_data ;;
        hi <- np_max grd_data ;;
        lo' <- np_min grd_data ;;
        ret (divide rounded (subtract rounded grd_data lo)
               (subtract_scalars rounded hi lo'))
      else if str_eqb output_format (text "-1-1") then
        lo <- np_min grd_data ;;
        hi <- np_max grd_data ;;
        lo' <- np_min grd_data ;;
        ret (minus_int rounded
               (divide rounded (times rounded 2 (subtract rounded grd_data lo))
                  (subtract_scalars rounded hi lo'))
               1)
      else if str_eqb output_format (text "0-255") then
        lo <- np_min grd_data ;;
        hi <- np_max grd_data ;;
        lo' <- np_min grd_data ;;
        ret (divide rounded (times rounded 255 (subtract rounded grd_data lo))
               (subtract_scalars rounded hi lo'))
      else raise invalid_output_format) ;;
   set_data (astype_float32 rounded normalized_data))%py.

Definition apply_adjustment (a : adjustment) : method GRDImage unit :=
  match a with
  | Divide255 =>
      (d <- gets data ;; set_data (with_float rounded (fdiv rounded) d (of_int 255)))%py
  | ShiftHalve =>
      (d <- gets data ;;
       set_data (with_float rounded (fdiv rounded) (plus_int rounded d 1) (of_int 2)))%py
  | Keep => ret tt
  end.

(** Lines 118-121 of [calibrate]. *)
Definition adjust_ranges : method GRDImage unit :=
  (a <- choose_adjustment ;; apply_adjustment a)%py.

(** The Python float [1e-10]. *)
Definition epsilon : float := to_float rounded Float64 1e-10.

(** [self.calibration_factor * np.abs(self.data) ** 2 + 1e-10], what
    lines 126-127 give to [np.log10]. *)
Definition log10_argument (cf : float) (d : ndarray) : ndarray :=
  let sigma0 := with_float rounded (fmul rounded) (square rounded (np_abs d)) cf in
  with_float rounded (fadd rounded) sigma0 epsilon.

(** Lines 125-129 of [calibrate]. *)
Definition sigma0_db : method GRDImage unit :=
  (cf <- gets calibration_factor ;;
   d <- gets data ;;
   let sigma0_db := times rounded 10 (np_log10 log10 (log10_argument cf d)) in
   set_data sigma0_db)%py.

(** [calibrate], lines 84-136. *)
Definition calibrate : method GRDImage unit :=
  (range_check ;;; adjust_ranges ;;; sigma0_db)%py.

(** Lines 112-115 and 125-129 alone: [calibrate] without lines 118-121. *)
Definition calibrate_without_adjustment : method GRDImage unit :=
  (range_check ;;; sigma0_db)%py.

Variable uint8_of_other : float -> Z.

(** [Image.fromarray(image_data, mode="L").save(path)]: the exception it
    raises (a path without a known extension, a directory that does not
    exist, an image without pixels), or [None] when the file is written. *)
Variable write_image : str -> image_L -> option exception.

(** The bytes [save_as_png] computes, line 166. *)
Definition encode (a : ndarray) : image_L :=
  astype_uint8 uint8_of_other (clip_0_255 (times rounded 255 a)).

(** [save_as_png], lines 158-174, on the object and the files. *)
Definition save_as_png (path : str) : method (GRDImage * disk) unit :=
  (d <- gets (fun w => data (fst w)) ;;
   let image_data := encode d in
   match write_image path image_data with
   | Some e => raise e
   | None => modify (fun w => (fst w, (path, image_data) :: snd w))
   end)%py.

End Methods.

Section Parser.

Variable is_decimal : N -> bool.
Variable strptime_message : str -> str.
Variable strptime_other : str -> exception + datetime.

(** [extract_info_from_filename], lines 176-197, as a function of the path. *)
Definition extract_info_from_filename (path : str) : exception + (str * str) :=
  match re_search is_decimal path with
  | Some (g2, g3) =>
      match strptime strptime_message strptime_other g3 with
      | inr t => inr (g2, isoformat t)
      | inl e => inl e
      end
  | None => inl invalid_file_name
  end.

End Parser.

(* ------------------------------------------------------------------ *)
(** ** Vocabulary of the statements *)

Definition has_nan (a : ndarray) : Prop := In Nan (elements a).

(** Every sample is a number from 0 to 1. *)
Definition in_unit_range (a : ndarray) : Prop :=
  forall x, In x (elements a) -> exists q, x = Finite q /\ 0 <= q <= 1.

(** Some sample is below 0 or above 1. *)
Definition out_of_unit_range (a : ndarray) : Prop :=
  exists x, In x (elements a) /\ (flt x (of_int 0) = true \/ flt (of_int 1) x = true).

(** The value of [np.min(a)] and of [np.max(a)], when [a] has a sample. *)
Definition lowest (a : ndarray) : option float :=
  match a with
  | IntArray _ rows => option_map of_int (reduce Z.min (concat rows))
  | FloatArray _ rows => reduce fmin (concat rows)
  end.

Definition highest (a : ndarray) : option float :=
  match a with
  | IntArray _ rows => option_map of_int (reduce Z.max (concat rows))
  | FloatArray _ rows => reduce fmax (concat rows)
  end.

(** The number of samples of each row. *)
Definition row_lengths (a : ndarray) : list nat :=
  map (@List.length float) (promote a).

(** The sample is above 0: a positive number or the positive infinity. *)
Definition positive (x : float) : Prop := flt (of_int 0) x = true.

(** The three selectors [normalize] knows. *)
Definition known_format (fmt : str) : Prop :=
  fmt = text "0-1" \/ fmt = text "-1-1" \/ fmt = text "0-255".

(** What holds of the rounding to the nearest float of either precision:
    it keeps the order and the sign, the integers up to 2^24 and their
    quotients by the powers of two up to 2^100 are floats, and so is the
    largest float. *)
Record nearest_float (rounded : float_dtype -> Q -> Q) : Prop := {
  rounded_monotone : forall t a b, a <= b -> rounded t a <= rounded t b;
  rounded_opp : forall t a, rounded t (- a) == - rounded t a;
  rounded_dyadic : forall t (z : Z) (k : N),
      (Z.abs z <= 2 ^ 24)%Z -> (k <= 100)%N ->
      rounded t (inject_Z z / inject_Z (2 ^ Z.of_N k))
      == inject_Z z / inject_Z (2 ^ Z.of_N k);
  rounded_max : forall t, rounded t (max_finite t) == max_finite t }.

(** What holds of the decimal digits of Unicode: below 128 they are the
    ASCII digits. *)
Definition decimal_digits (is_decimal : N -> bool) : Prop :=
  forall c, (c < 128)%N -> is_decimal c = ascii_digit c.

Section PatternWords.

Variable is_decimal : N -> bool.

Definition all_digits (s : str) : Prop := Forall (fun c => is_decimal c = true) s.

(** The text does not go on with a digit. *)
Definition ends_digits (r : str) : Prop :=
  match r with
  | [] => True
  | c :: _ => is_decimal c = false
  end.

(** [pattern_match m g2 g3]: the text [m] is
    ICEYE_X<digits>_GRD_(SM|SL)_<digits>_<8 digits>T<6 digits>, its second
    group of digits is [g2] and its last part [g3]. *)
Inductive pattern_match : str -> str -> str -> Prop :=
| pattern_match_intro (d1 mode g2 d8 d6 : str) :
    d1 <> [] -> all_digits d1 ->
    mode = text "SM" \/ mode = text "SL" ->
    g2 <> [] -> all_digits g2 ->
    List.length d8 = 8%nat -> all_digits d8 ->
    List.length d6 = 6%nat -> all_digits d6 ->
    pattern_match
      (text "ICEYE_X" ++ d1 ++ text "_GRD_" ++ mode ++ text "_" ++ g2 ++ text "_"
       ++ d8 ++ text "T" ++ d6)
      g2 (d8 ++ text "T" ++ d6).

(** A match of the pattern starts in [s] after the prefix [pre]. *)
Definition match_at (s pre : str) (g2 g3 : str) : Prop :=
  exists m post, s = pre ++ m ++ post /\ pattern_match m g2 g3.

(** Some part of [s] matches the pattern. *)
Definition occurs (s : str) : Prop := exists pre g2 g3, match_at s pre g2 g3.

(** The match after [pre] is the leftmost one. *)
Definition leftmost (s pre : str) : Prop :=
  forall pre' g2 g3, match_at s pre' g2 g3 -> (List.length pre <= List.length pre')%nat.

End PatternWords.

(** Every character of the text is an ASCII one. *)
Definition ascii_text (s : str) : Prop := Forall (fun c => (c < 128)%N) s.

(** The third group with the separators of ISO 8601 put in:
    YYYYMMDDTHHMMSS as YYYY-MM-DDTHH:MM:SS. *)
Definition iso_text (g3 : str) : str :=
  match g3 with
  | [y1; y2; y3; y4; m1; m2; d1; d2; t; h1; h2; n1; n2; s1; s2] =>
      [y1; y2; y3; y4] ++ text "-" ++ [m1; m2] ++ text "-" ++ [d1; d2] ++ text "T"
      ++ [h1; h2] ++ text ":" ++ [n1; n2] ++ text ":" ++ [s1; s2]
  | _ => []
  end.

(** The encoding as the specification words it: the array clipped to
    [0,255] and cast to unsigned 8-bit integers. *)
Definition clip_and_cast (uint8_of_other : float -> Z) (a : ndarray) : image_L :=
  astype_uint8 uint8_of_other (clip_0_255 a).

(** The byte [save_as_png] writes for a sample that is a number:
    the product by 255 in the precision of the array (the maximum of it
    and 0, the minimum of that and 255), without its fractional part. *)
Definition pixel (rounded : float_dtype -> Q -> Q) (t : float_dtype) (x : Q) : Z :=
  match to_float rounded t (255 * x) with
  | Finite p => Qfloor (Qmin (Qmax p 0) 255)
  | PosInf => 255
  | _ => 0
  end.

(** The byte [save_as_png] writes for a sample. *)
Definition byte_of (rounded : float_dtype -> Q -> Q) (uint8_of_other : float -> Z)
    (t : float_dtype) (x : float) : Z :=
  match x with
  | Finite q => pixel rounded t q
  | PosInf => 255
  | NegInf => 0
  | Nan => uint8_of_other Nan
  end.

(* ------------------------------------------------------------------ *)
(** ** Sample inputs *)

(** Exact arithmetic: every rational is taken for a float. *)
Definition exact : float_dtype -> Q -> Q := fun _ q => q.

(** A coarse stand-in for [np.log10]. *)
Definition log10_sample : float_dtype -> Q -> Q := fun _ => log10_coarse.

(** A conversion that gives 0 where C leaves the byte undefined. *)
Definition zero_byte : float -> Z := fun _ => 0%Z.

(** A file system on which every write succeeds. *)
Definition writable : str -> image_L -> option exception := fun _ _ => None.

(** A file system on which no write succeeds. *)
Definition read_only : str -> image_L -> option exception :=
  fun _ _ => Some (mk_exception "OSError" (text "Read-only file system")).

(** A [strptime] that raises for every text it is asked about. *)
Definition strptime_raises : str -> exception + datetime :=
  fun s => inl (ValueError (text "unconverted data remains")).

(** The message of a text that does not have the format, for every text. *)
Definition strptime_text : str -> str :=
  fun s => text "time data '" ++ s ++ text "' does not match format '%Y%m%dT%H%M%S'".

Definition sample_path : str :=
  text "data/input/ICEYE_X4_GRD_SM_9281_20190903T144946.tif".

(** A path with the pattern in it and a month that does not exist. *)
Definition month13_path : str :=
  text "data/input/ICEYE_X4_GRD_SM_9281_20191303T144946.tif".

(** An image of the sample file with the given raster and factor. *)
Definition sample_image (a : ndarray) (cf : float) : GRDImage :=
  mk_GRDImage sample_path a (text "9281") (text "2019-09-03T14:49:46") cf.

(** Double-precision samples within [0,1]. *)
Definition unit_image : GRDImage :=
  sample_image (FloatArray Float64
                  [[Finite 0; Finite (1 # 4)]; [Finite (1 # 2); Finite 1]])
    (Finite 1).

(** A sample above 1. *)
Definition wide_image : GRDImage :=
  sample_image (FloatArray Float64 [[Finite (1 # 2); Finite 2]]) (Finite 1).

(** One sample, 1/2. *)
Definition half_image : GRDImage :=
  sample_image (FloatArray Float64 [[Finite (1 # 2)]]) (Finite 1).


(** A sample 0 and an infinite calibration factor (the tag "inf"). *)
Definition infinite_factor_image : GRDImage :=
  sample_image (FloatArray Float64 [[Finite 0; Finite 1]]) PosInf.

(** Every sample equal to 3, in single precision. *)
Definition constant_image : GRDImage :=
  sample_image (FloatArray Float32 [[Finite 3; Finite 3]; [Finite 3; Finite 3]])
    (Finite 1).

(** A raster of unsigned 16-bit integers. *)
Definition uint16_image : GRDImage :=
  sample_image (IntArray UInt16 [[0; 300; 1000; 40000]]%Z) (Finite 1).

(** A raster of signed 16-bit integers. *)
Definition int16_image : GRDImage :=
  sample_image (IntArray Int16 [[-30000; 0; 30000]]%Z) (Finite 1).

End Full.

(* ================================================================== *)
(** * Properties of the stages on finite samples *)

(** ** Arrays *)

Lemma Qlt_bool_iff (a b : Q) : Qlt_bool a b = true <-> a < b.
Proof.
  unfold Qlt_bool. rewrite negb_true_iff.
  split; intro H.
  - apply Qnot_le_lt. intro L. apply Qle_bool_iff in L. congruence.
  - destruct (Qle_bool b a) eqn:E; [|reflexivity].
    apply Qle_bool_iff in E. exfalso. apply (Qlt_not_le _ _ H E).
Qed.

Lemma Qlt_bool_false_iff (a b : Q) : Qlt_bool a b = false <-> b <= a.
Proof.
  unfold Qlt_bool. rewrite negb_false_iff. apply Qle_bool_iff.
Qed.

Lemma Qmin_cases (a b : Q) :
  (Qmin a b = a /\ a <= b) \/ (Qmin a b = b /\ b <= a).
Proof.
  unfold Qmin, GenericMinMax.gmin.
  destruct (Qcompare_spec a b) as [E|L|G].
  - left. split; [reflexivity | rewrite E; apply Qle_refl].
  - left. split; [reflexivity | apply Qlt_le_weak, L].
  - right. split; [reflexivity | apply Qlt_le_weak, G].
Qed.

Lemma Qmax_cases (a b : Q) :
  (Qmax a b = a /\ b <= a) \/ (Qmax a b = b /\ a <= b).
Proof.
  unfold Qmax, GenericMinMax.gmax.
  destruct (Qcompare_spec a b) as [E|L|G].
  - left. split; [reflexivity | rewrite E; apply Qle_refl].
  - right. split; [reflexivity | apply Qlt_le_weak, L].
  - left. split; [reflexivity | apply Qlt_le_weak, G].
Qed.

Lemma fold_min_spec (t : list Q) : forall x,
  (fold_left Qmin t x = x \/ In (fold_left Qmin t x) t)
  /\ fold_left Qmin t x <= x
  /\ (forall y, In y t -> fold_left Qmin t x <= y).
Proof.
  induction t as [|a t IH]; intro x; simpl.
  - repeat split; [now left | apply Qle_refl | intros y []].
  - destruct (IH (Qmin x a)) as (Hin & Hle & Hall).
    destruct (Qmin_cases x a) as [[E L]|[E L]]; rewrite E in *.
    + repeat split.
      * destruct Hin; [now left | right; now right].
      * exact Hle.
      * intros y [<-|Hy]; [eapply Qle_trans; eauto | auto].
    + repeat split.
      * destruct Hin as [->|Hin]; right; [now left | now right].
      * eapply Qle_trans; eauto.
      * intros y [<-|Hy]; auto.
Qed.

Lemma fold_max_spec (t : list Q) : forall x,
  (fold_left Qmax t x = x \/ In (fold_left Qmax t x) t)
  /\ x <= fold_left Qmax t x
  /\ (forall y, In y t -> y <= fold_left Qmax t x).
Proof.
  induction t as [|a t IH]; intro x; simpl.
  - repeat split; [now left | apply Qle_refl | intros y []].
  - destruct (IH (Qmax x a)) as (Hin & Hle & Hall).
    destruct (Qmax_cases x a) as [[E L]|[E L]]; rewrite E in *.
    + repeat split.
      * destruct Hin; [now left | right; now right].
      * exact Hle.
      * intros y [<-|Hy]; [eapply Qle_trans; eauto | auto].
    + repeat split.
      * destruct Hin as [->|Hin]; right; [now left | now right].
      * eapply Qle_trans; eauto.
      * intros y [<-|Hy]; auto.
Qed.

(** [np.min] gives a sample of the array that no sample is below. *)
Lemma reduce_min_spec (l : list Q) (m : Q) :
  reduce_min l = Some m -> In m l /\ forall y, In y l -> m <= y.
Proof.
  destruct l as [|x t]; simpl; [discriminate|].
  intros [= <-]. destruct (fold_min_spec t x) as (Hin & Hle & Hall).
  split.
  - destruct Hin as [->|Hin]; [now left | now right].
  - intros y [<-|Hy]; auto.
Qed.

(** [np.max] gives a sample of the array that no sample is above. *)
Lemma reduce_max_spec (l : list Q) (m : Q) :
  reduce_max l = Some m -> In m l /\ forall y, In y l -> y <= m.
Proof.
  destruct l as [|x t]; simpl; [discriminate|].
  intros [= <-]. destruct (fold_max_spec t x) as (Hin & Hle & Hall).
  split.
  - destruct Hin as [->|Hin]; [now left | now right].
  - intros y [<-|Hy]; auto.
Qed.

Lemma reduce_min_some (l : list Q) : l <> [] -> exists m, reduce_min l = Some m.
Proof. destruct l; [congruence | intros _; eexists; reflexivity]. Qed.

Lemma reduce_max_some (l : list Q) : l <> [] -> exists m, reduce_max l = Some m.
Proof. destruct l; [congruence | intros _; eexists; reflexivity]. Qed.

Lemma amap_amap (f g : Q -> Q) (a : ndarray) :
  amap f (amap g a) = amap (fun x => f (g x)) a.
Proof.
  unfold amap; simpl. f_equal.
  rewrite map_map. apply map_ext. intro r. apply map_map.
Qed.

Lemma samples_amap (f : Q -> Q) (a : ndarray) :
  samples (amap f a) = map f (samples a).
Proof.
  unfold samples, amap; simpl. now rewrite concat_map.
Qed.

(** ** The range check and the adjustment of [calibrate] *)

Lemma range_check_unfold (self : GRDImage) :
  range_check self =
  match reduce_min (samples (data self)) with
  | None => Raises (zero_size "minimum") self
  | Some lo =>
      if Qlt_bool lo 0 then Raises not_normalized self
      else
        match reduce_max (samples (data self)) with
        | None => Raises (zero_size "maximum") self
        | Some hi =>
            if Qlt_bool 1 hi then Raises not_normalized self else Returns tt self
        end
  end.
Proof.
  unfold range_check, bind, gets, np_min, np_max, ret, raise.
  destruct (reduce_min (samples (data self))) as [lo|]; [|reflexivity].
  destruct (Qlt_bool lo 0); [reflexivity|].
  destruct (reduce_max (samples (data self))) as [hi|]; [|reflexivity].
  destruct (Qlt_bool 1 hi); reflexivity.
Qed.

Lemma choose_adjustment_unfold (self : GRDImage) :
  choose_adjustment self =
  match reduce_min (samples (data self)) with
  | None => Raises (zero_size "minimum") self
  | Some lo =>
      if Qle_bool 0 lo then
        match reduce_max (samples (data self)) with
        | None => Raises (zero_size "maximum") self
        | Some hi =>
            if Qlt_bool 1 hi then Returns Divide255 self
            else if Qlt_bool lo 0 then Returns ShiftHalve self
                 else Returns Keep self
        end
      else if Qlt_bool lo 0 then Returns ShiftHalve self else Returns Keep self
  end.
Proof.
  unfold choose_adjustment, bind, gets, np_min, np_max, ret, raise.
  destruct (reduce_min (samples (data self))) as [lo|] eqn:E; [|reflexivity].
  destruct (Qle_bool 0 lo).
  - destruct (reduce_max (samples (data self))) as [hi|]; [|reflexivity].
    destruct (Qlt_bool 1 hi); [reflexivity|].
    rewrite E. destruct (Qlt_bool lo 0); reflexivity.
  - rewrite E. destruct (Qlt_bool lo 0); reflexivity.
Qed.

(** The check returns exactly on an array with a sample and all of its
    samples in [0,1]; it never changes the object. *)
Lemma range_check_returns (self s : GRDImage) :
  range_check self = Returns tt s <->
  s = self /\ samples (data self) <> [] /\ in_unit_range (data self).
Proof.
  rewrite range_check_unfold. split.
  - destruct (reduce_min (samples (data self))) as [lo|] eqn:Emin; [|discriminate].
    destruct (Qlt_bool lo 0) eqn:Elo; [discriminate|].
    destruct (reduce_max (samples (data self))) as [hi|] eqn:Emax; [|discriminate].
    destruct (Qlt_bool 1 hi) eqn:Ehi; [discriminate|].
    intros [= <-].
    apply Qlt_bool_false_iff in Elo, Ehi.
    destruct (reduce_min_spec _ _ Emin) as [Hin Hlo].
    destruct (reduce_max_spec _ _ Emax) as [_ Hhi].
    split; [reflexivity|]. split.
    + intro E. rewrite E in Hin. destruct Hin.
    + intros x Hx. split.
      * eapply Qle_trans; [exact Elo | auto].
      * eapply Qle_trans; [apply Hhi, Hx | exact Ehi].
  - intros (-> & Hne & Hall).
    destruct (reduce_min_some _ Hne) as [lo Emin].
    destruct (reduce_max_some _ Hne) as [hi Emax].
    rewrite Emin, Emax.
    destruct (reduce_min_spec _ _ Emin) as [Hlo _].
    destruct (reduce_max_spec _ _ Emax) as [Hhi _].
    destruct (Qlt_bool lo 0) eqn:Elo.
    { apply Qlt_bool_iff in Elo. exfalso.
      apply (Qlt_not_le _ _ Elo). apply (Hall lo Hlo). }
    destruct (Qlt_bool 1 hi) eqn:Ehi; [|reflexivity].
    apply Qlt_bool_iff in Ehi. exfalso.
    apply (Qlt_not_le _ _ Ehi). apply (Hall hi Hhi).
Qed.

(** On an array that passes the check neither adjustment is chosen. *)
Lemma choose_adjustment_keep (self : GRDImage) :
  samples (data self) <> [] -> in_unit_range (data self) ->
  choose_adjustment self = Returns Keep self.
Proof.
  intros Hne Hall. rewrite choose_adjustment_unfold.
  destruct (reduce_min_some _ Hne) as [lo Emin].
  destruct (reduce_max_some _ Hne) as [hi Emax].
  rewrite Emin, Emax.
  destruct (reduce_min_spec _ _ Emin) as [Hlo _].
  destruct (reduce_max_spec _ _ Emax) as [Hhi _].
  assert (L : Qlt_bool lo 0 = false) by (apply Qlt_bool_false_iff, (Hall lo Hlo)).
  assert (H : Qlt_bool 1 hi = false) by (apply Qlt_bool_false_iff, (Hall hi Hhi)).
  rewrite L, H. destruct (Qle_bool 0 lo); reflexivity.
Qed.

Lemma adjust_ranges_keep (self : GRDImage) :
  samples (data self) <> [] -> in_unit_range (data self) ->
  adjust_ranges self = Returns tt self.
Proof.
  intros Hne Hall. unfold adjust_ranges, bind.
  now rewrite (choose_adjustment_keep self Hne Hall).
Qed.

(** ** The calibration formula *)

Section Calibration.

Variable log10 : Q -> Q.



Lemma calibrate_skips_adjustment (self : GRDImage) :
  calibrate log10 self = calibrate_without_adjustment log10 self.
Proof.
  unfold calibrate, calibrate_without_adjustment, bind.
  destruct (range_check self) as [[] s|e s|] eqn:E; try reflexivity.
  apply range_check_returns in E as (-> & Hne & Hall).
  now rewrite (adjust_ranges_keep self Hne Hall).
Qed.




End Calibration.

(** ** normalize *)

Lemma np_div_nonzero {S} (a : ndarray) (d : Q) (s : S) :
  ~ d == 0 -> np_div a d s = Returns (amap (fun x => x / d) a) s.
Proof.
  intro H. unfold np_div.
  destruct (Qeq_bool d 0) eqn:E; [|reflexivity].
  apply Qeq_bool_iff in E. contradiction.
Qed.

(** Decide the comparisons of the selector with the three formats. *)
Ltac eval_selector :=
  repeat match goal with
    | |- context [String.eqb ?a ?b] =>
        let v := eval vm_compute in (String.eqb a b) in
        change (String.eqb a b) with v
    end;
  cbv iota beta.

(** ** Which stages assign data *)


Section Stages.

Variable log10 : Q -> Q.
Variable resample : resampling.

Lemma sigma0_db_assigns (self s : GRDImage) (v : unit) :
  sigma0_db log10 self = Returns v s ->
  s = with_data self
        (amap (fun x => 10 * log10 (calibration_factor self * Qabs x ^ 2 + 1e-10))
           (data self)).
Proof.
  unfold sigma0_db, bind, gets, np_log10, set_data, modify, ret, non_finite.
  destruct (forallb _ _); [|discriminate].
  intro H. inversion H; subst. now rewrite !amap_amap.
Qed.

Lemma calibrate_assigns (self s : GRDImage) (v : unit) :
  calibrate log10 self = Returns v s ->
  s = with_data self
        (amap (fun x => 10 * log10 (calibration_factor self * Qabs x ^ 2 + 1e-10))
           (data self)).
Proof.
  rewrite calibrate_skips_adjustment.
  unfold calibrate_without_adjustment, bind.
  destruct (range_check self) as [[] s0|e s0|] eqn:R; try discriminate.
  apply range_check_returns in R as (-> & _ & _).
  apply sigma0_db_assigns.
Qed.




End Stages.


(** ** Image.thumbnail *)

Lemma round_aspect_spec (q : Q) (key : Z -> Q) (B : Z) :
  0 < q -> q <= inject_Z B ->
  (1 <= round_aspect q key <= B)%Z
  /\ Qabs (inject_Z (round_aspect q key) - q) < 1
  /\ (forall A, inject_Z A <= q -> (A <= round_aspect q key)%Z).
Proof.
  intros Hq HB.
  pose proof (Qfloor_le q) as Hf1. pose proof (Qlt_floor q) as Hf2.
  pose proof (Qle_ceiling q) as Hc1. pose proof (Qceiling_lt q) as Hc2.
  pose proof (Qceiling_resp_le _ _ HB) as HcB. rewrite Qceiling_Z in HcB.
  assert (Hf0 : (0 <= Qfloor q)%Z).
  { change 0%Z with (Qfloor (inject_Z 0)). apply Qfloor_resp_le, Qlt_le_weak, Hq. }
  assert (Hfc : (Qfloor q <= Qceiling q)%Z).
  { rewrite Zle_Qle. apply Qle_floor_ceiling. }
  assert (Hc0 : (1 <= Qceiling q)%Z).
  { assert (H : (0 < Qceiling q)%Z); [|lia].
    rewrite Zlt_Qlt. eapply Qlt_le_trans; eauto. }
  rewrite inject_Z_plus in Hf2. unfold Z.sub in Hc2. rewrite inject_Z_plus in Hc2.
  change (inject_Z 1) with 1 in Hf2. change (inject_Z (- (1))) with (- (1)) in Hc2.
  assert (Hlow : forall A, inject_Z A <= q -> (A <= Qfloor q)%Z).
  { intros A HA. rewrite <- (Qfloor_Z A). now apply Qfloor_resp_le. }
  unfold round_aspect.
  destruct (Qle_bool _ _).
  - destruct (Z.max_spec (Qfloor q) 1) as [[L ->]|[L ->]].
    + assert (E : Qfloor q = 0%Z) by lia. rewrite E in *.
      split; [lia|]. split.
      * apply Qabs_Qlt_condition.
        change (inject_Z 1) with 1. change (inject_Z 0) with 0 in *. split; lra.
      * intros A HA. specialize (Hlow A HA). lia.
    + split; [lia|]. split.
      * apply Qabs_Qlt_condition. split; lra.
      * intros A HA. specialize (Hlow A HA). lia.
  - rewrite Z.max_l by lia.
    split; [lia|]. split.
    + apply Qabs_Qlt_condition. split; lra.
    + intros A HA. specialize (Hlow A HA). lia.
Qed.

Lemma ratio_le (a b c d : Q) :
  0 < b -> 0 < d -> (a / b <= c / d <-> a * d <= c * b).
Proof.
  intros Hb Hd. split; intro H.
  - assert (E1 : a * d == a / b * (b * d)) by (field; lra).
    assert (E2 : c * b == c / d * (b * d)) by (field; lra).
    rewrite E1, E2. apply Qmult_le_compat_r; [exact H|].
    apply Qlt_le_weak. apply Qmult_lt_0_compat; assumption.
  - apply Qle_shift_div_l; [exact Hd|].
    assert (E : a / b * d == a * d / b) by (field; lra).
    rewrite E. apply Qle_shift_div_r; assumption.
Qed.

Section ThumbnailSize.

Variables W H x y : Z.
Hypothesis HW : (1 <= W)%Z.
Hypothesis HH : (1 <= H)%Z.
Hypothesis Hx : (1 <= x)%Z.
Hypothesis Hy : (1 <= y)%Z.
Hypothesis Hbig : ~ (W <= x /\ H <= y)%Z.

Let aspect : Q := inject_Z W / inject_Z H.

Lemma positive_inject (n : Z) : (1 <= n)%Z -> 0 < inject_Z n.
Proof. intro Hn. change 0 with (inject_Z 0). rewrite <- Zlt_Qlt. lia. Qed.

Lemma aspect_le_iff : aspect <= inject_Z x / inject_Z y <-> (W * y <= x * H)%Z.
Proof.
  unfold aspect. rewrite ratio_le by now apply positive_inject.
  rewrite <- !inject_Z_mult, <- Zle_Qle. reflexivity.
Qed.

(** The height is the side that binds: the width is scaled. *)
Lemma scaled_width (key : Z -> Q) :
  (W * y <= x * H)%Z ->
  let x' := round_aspect (inject_Z y * aspect) key in
  (1 <= x' <= x)%Z /\ (x' <= W)%Z /\ (y <= H)%Z
  /\ Qabs (inject_Z x' - inject_Z y * (inject_Z W / inject_Z H)) < 1
  /\ ((W <= H)%Z -> (x' <= y)%Z).
Proof.
  intros Hr x'.
  pose proof (positive_inject W HW) as PW. pose proof (positive_inject H HH) as PH.
  pose proof (positive_inject x Hx) as Px. pose proof (positive_inject y Hy) as Py.
  assert (HyH : (y <= H)%Z) by nia.
  assert (E : inject_Z y * aspect == inject_Z (y * W) / inject_Z H).
  { unfold aspect. rewrite inject_Z_mult. field. lra. }
  assert (Hpos : 0 < inject_Z y * aspect).
  { apply Qmult_lt_0_compat; [exact Py|]. unfold aspect.
    apply Qlt_shift_div_l; [exact PH | lra]. }
  assert (bound : forall B, (y * W <= B * H)%Z -> inject_Z y * aspect <= inject_Z B).
  { intros B HB. rewrite E. apply Qle_shift_div_r; [exact PH|].
    rewrite <- inject_Z_mult, <- Zle_Qle. exact HB. }
  destruct (round_aspect_spec _ key x Hpos (bound x ltac:(lia))) as ((L & U) & Habs & _).
  destruct (round_aspect_spec _ key W Hpos (bound W ltac:(nia))) as ((_ & UW) & _ & _).
  fold x' in L, U, UW, Habs.
  repeat split; try assumption.
  intro HWH.
  destruct (round_aspect_spec _ key y Hpos (bound y ltac:(nia))) as ((_ & Uy) & _ & _).
  exact Uy.
Qed.

(** The width is the side that binds: the height is scaled. *)
Lemma scaled_height (key : Z -> Q) :
  (x * H < W * y)%Z ->
  let y' := round_aspect (inject_Z x / aspect) key in
  (1 <= y' <= y)%Z /\ (y' <= H)%Z /\ (x <= W)%Z
  /\ Qabs (inject_Z y' - inject_Z x * (inject_Z H / inject_Z W)) < 1
  /\ ((W <= H)%Z -> (x <= y')%Z).
Proof.
  intros Hr y'.
  pose proof (positive_inject W HW) as PW. pose proof (positive_inject H HH) as PH.
  pose proof (positive_inject x Hx) as Px. pose proof (positive_inject y Hy) as Py.
  assert (HxW : (x <= W)%Z) by nia.
  assert (E : inject_Z x / aspect == inject_Z (x * H) / inject_Z W).
  { unfold aspect. rewrite inject_Z_mult. field. split; lra. }
  assert (E' : inject_Z x / aspect == inject_Z x * (inject_Z H / inject_Z W)).
  { unfold aspect. field. split; lra. }
  assert (Hpos : 0 < inject_Z x / aspect).
  { rewrite E'. apply Qmult_lt_0_compat; [exact Px|].
    apply Qlt_shift_div_l; [exact PW | lra]. }
  assert (bound : forall B, (x * H <= B * W)%Z -> inject_Z x / aspect <= inject_Z B).
  { intros B HB. rewrite E. apply Qle_shift_div_r; [exact PW|].
    rewrite <- inject_Z_mult, <- Zle_Qle. exact HB. }
  destruct (round_aspect_spec _ key y Hpos (bound y ltac:(lia))) as ((L & U) & Habs & Hlow).
  destruct (round_aspect_spec _ key H Hpos (bound H ltac:(nia))) as ((_ & UH) & _ & _).
  fold y' in L, U, UH, Habs, Hlow.
  repeat split; try assumption.
  - rewrite <- E'. exact Habs.
  - intro HWH. apply Hlow. rewrite E.
    apply Qle_shift_div_l; [exact PW|].
    rewrite <- inject_Z_mult, <- Zle_Qle. nia.
Qed.

End ThumbnailSize.

Lemma resize_shape {S} (resample : resampling) (im : ndarray) (x y : Z) (s : S) :
  (1 <= x)%Z -> (1 <= y)%Z ->
  exists a, resize (x, y) resample im s = Returns a s
    /\ im_width a = x /\ im_height a = y.
Proof.
  intros Hx Hy. unfold resize.
  replace ((0 <? x) && (0 <? y))%Z with true
    by (symmetry; apply andb_true_iff; split; apply Z.ltb_lt; lia).
  eexists. split; [reflexivity|].
  unfold im_width, im_height, shape; simpl.
  rewrite length_map, length_seq.
  destruct (Z.to_nat y) as [|n] eqn:E; [lia|].
  simpl. rewrite length_map, length_seq. split; lia.
Qed.

Lemma thumbnail_spec {S} (resample : resampling) (im : ndarray) (x y : Z) (s : S) :
  (1 <= x)%Z -> (1 <= y)%Z -> (1 <= im_width im)%Z -> (1 <= im_height im)%Z ->
  exists a, thumbnail (x, y) resample im s = Returns a s
    /\ (1 <= im_width a <= x)%Z /\ (1 <= im_height a <= y)%Z
    /\ (im_width a <= im_width im)%Z /\ (im_height a <= im_height im)%Z
    /\ ((im_width im <= x)%Z -> (im_height im <= y)%Z -> a = im)
    /\ (Qabs (inject_Z (im_width a)
              - inject_Z (im_height a) * (inject_Z (im_width im) / inject_Z (im_height im))) < 1
        \/ Qabs (inject_Z (im_height a)
                 - inject_Z (im_width a) * (inject_Z (im_height im) / inject_Z (im_width im))) < 1)
    /\ ((im_width im <= im_height im)%Z -> (Z.max (im_width a) (im_height a) <= y)%Z).
Proof.
  intros Hx Hy HW HH.
  set (W := im_width im) in *. set (H := im_height im) in *.
  pose proof (positive_inject W HW) as PW. pose proof (positive_inject H HH) as PH.
  unfold thumbnail, bind, preserve_aspect_ratio. fold W H.
  destruct ((W <=? x) && (H <=? y))%Z eqn:Efit.
  - (* the image fits: it is left as it is *)
    apply andb_true_iff in Efit as [F1 F2].
    apply Z.leb_le in F1, F2.
    exists im. unfold ret. fold W H.
    repeat split; try lia.
    left. apply Qabs_Qlt_condition.
    assert (E : inject_Z W - inject_Z H * (inject_Z W / inject_Z H) == 0)
      by (field; lra).
    rewrite E. split; reflexivity.
  - assert (Hbig : ~ (W <= x /\ H <= y)%Z).
    { intros [F1 F2]. apply Z.leb_le in F1, F2. rewrite F1, F2 in Efit. discriminate. }
    replace (H =? 0)%Z with false by (symmetry; apply Z.eqb_neq; lia).
    replace (y =? 0)%Z with false by (symmetry; apply Z.eqb_neq; lia).
    destruct (Qle_bool (inject_Z W / inject_Z H) (inject_Z x / inject_Z y)) eqn:Er.
    + apply Qle_bool_iff in Er.
      apply (aspect_le_iff W H x y HH Hy) in Er.
      match goal with |- context [round_aspect ?q ?k] =>
        destruct (scaled_width W H x y HW HH Hx Hy Hbig k Er) as (Bx & BW & ByH & Habs & Hport);
        set (x' := round_aspect q k) in * end.
      unfold ret at 1. cbn [fst snd].
      destruct ((x' =? W) && (y =? H))%Z eqn:Esame.
      * apply andb_true_iff in Esame as [F1 F2].
        apply Z.eqb_eq in F1, F2.
        exfalso. lia.
      * destruct (resize_shape resample im x' y s) as (a & Ea & Ewa & Eha); [lia | lia |].
        exists a. rewrite Ea, Ewa, Eha.
        repeat split; try lia. now left.
    + assert (Hr : (x * H < W * y)%Z).
      { destruct (Z.le_gt_cases (W * y) (x * H)) as [L|G]; [|lia].
        apply (aspect_le_iff W H x y HH Hy) in L.
        apply Qle_bool_iff in L. congruence. }
      replace (Qeq_bool (inject_Z W / inject_Z H) 0) with false.
      2:{ symmetry. apply not_true_iff_false. intro E. apply Qeq_bool_iff in E.
          assert (0 < inject_Z W / inject_Z H)
            by (apply Qlt_shift_div_l; [exact PH | lra]).
          lra. }
      match goal with |- context [round_aspect ?q ?k] =>
        destruct (scaled_height W H x y HW HH Hx Hy Hbig k Hr) as (By & BH & BxW & Habs & Hport);
        set (y' := round_aspect q k) in * end.
      unfold ret at 1. cbn [fst snd].
      destruct ((x =? W) && (y' =? H))%Z eqn:Esame.
      * apply andb_true_iff in Esame as [F1 F2].
        apply Z.eqb_eq in F1, F2.
        exfalso. lia.
      * destruct (resize_shape resample im x y' s) as (a & Ea & Ewa & Eha); [lia | lia |].
        exists a. rewrite Ea, Ewa, Eha.
        repeat split; try lia. now right.
Qed.

(** C6. For a bound (x, y) of positive integers and an array with at least
    one row and one column, downsample returns an array, the image left as
    it was, whose width is at most x and height at most y; neither side is
    larger than the source's, and a source that already fits is returned as
    it is (in single precision); the side that was scaled is within one
    pixel of the exact proportional value; and for a source at least as
    tall as wide the largest side of the output is at most y, so at most
    180 for the bound (256, 180). *)
Theorem downsample_fits (resample : resampling) (self : GRDImage) (x y : Z) :
  (1 <= x)%Z -> (1 <= y)%Z ->
  (1 <= im_width (data self))%Z -> (1 <= im_height (data self))%Z ->
  exists a, downsample resample (x, y) self = Returns a self
    /\ (1 <= im_width a <= x)%Z /\ (1 <= im_height a <= y)%Z
    /\ (im_width a <= im_width (data self))%Z
    /\ (im_height a <= im_height (data self))%Z
    /\ ((im_width (data self) <= x)%Z -> (im_height (data self) <= y)%Z ->
        a = astype Float32 (data self))
    /\ (Qabs (inject_Z (im_width a)
              - inject_Z (im_height a)
                * (inject_Z (im_width (data self)) / inject_Z (im_height (data self)))) < 1
        \/ Qabs (inject_Z (im_height a)
                 - inject_Z (im_width a)
                   * (inject_Z (im_height (data self)) / inject_Z (im_width (data self)))) < 1)
    /\ ((im_width (data self) <= im_height (data self))%Z ->
        (Z.max (im_width a) (im_height a) <= y)%Z).
Proof.
  intros Hx Hy HW HH.
  unfold downsample, bind, gets.
  exact (thumbnail_spec resample (fromarray (data self)) x y self Hx Hy HW HH).
Qed.

(* ================================================================== *)
(** * The statements at sample inputs *)


Lemma downsample_fits_witness :
  exists a, downsample nearest (256, 180)%Z tall_image = Returns a tall_image
    /\ (1 <= im_width a <= 256)%Z /\ (1 <= im_height a <= 180)%Z
    /\ (im_width a <= im_width (data tall_image))%Z
    /\ (im_height a <= im_height (data tall_image))%Z
    /\ ((im_width (data tall_image) <= 256)%Z ->
        (im_height (data tall_image) <= 180)%Z ->
        a = astype Float32 (data tall_image))
    /\ (Qabs (inject_Z (im_width a)
              - inject_Z (im_height a)
                * (inject_Z (im_width (data tall_image))
                   / inject_Z (im_height (data tall_image)))) < 1
        \/ Qabs (inject_Z (im_height a)
                 - inject_Z (im_width a)
                   * (inject_Z (im_height (data tall_image))
                      / inject_Z (im_width (data tall_image)))) < 1)
    /\ ((im_width (data tall_image) <= im_height (data tall_image))%Z ->
        (Z.max (im_width a) (im_height a) <= 180)%Z).
Proof.
  apply (downsample_fits nearest tall_image 256 180); discriminate.
Defined.



(* ================================================================== *)
(** * Further properties of the stages *)

(** ** normalize: arrays without samples, constant arrays, failures *)

Lemma reduce_max_of_min (l : list Q) (lo : Q) :
  reduce_min l = Some lo -> exists hi, reduce_max l = Some hi.
Proof. destruct l; [discriminate | intros _; eexists; reflexivity]. Qed.

Lemma np_div_zero {S} (a : ndarray) (d : Q) (s : S) :
  d == 0 -> samples a <> [] -> np_div a d s = NonFinite.
Proof.
  intros Hd Hne. unfold np_div.
  replace (Qeq_bool d 0) with true by (symmetry; now apply Qeq_bool_iff).
  destruct (samples a); [congruence | reflexivity].
Qed.

Lemma samples_nonempty_amap (f : Q -> Q) (a : ndarray) :
  samples a <> [] -> samples (amap f a) <> [].
Proof.
  rewrite samples_amap. destruct (samples a); [congruence | discriminate].
Qed.

(** What [normalize] does for a known selector, by the minimum and the
    maximum of the array. *)
Lemma normalize_known (fmt : string) (self : GRDImage) :
  known_format fmt ->
  normalize fmt self =
  match reduce_min (samples (data self)), reduce_max (samples (data self)) with
  | Some lo, Some hi =>
      if Qeq_bool (hi - lo) 0 then NonFinite
      else Returns tt (with_data self
             (astype Float32 (amap (rescaled fmt lo hi) (data self))))
  | _, _ => Raises (zero_size "minimum") self
  end.
Proof.
  intros [-> | [-> | ->]];
    unfold normalize, bind, gets, np_min, np_max; eval_selector;
    (destruct (reduce_min (samples (data self))) as [lo|] eqn:Emin; [|reflexivity]);
    destruct (reduce_max_of_min _ _ Emin) as [hi Emax]; rewrite Emax;
    unfold ret at 1 2 3;
    assert (Hne : samples (data self) <> [])
      by (intro E; rewrite E in Emin; discriminate);
    (destruct (Qeq_bool (hi - lo) 0) eqn:Ez;
     [ apply Qeq_bool_iff in Ez; rewrite np_div_zero;
       [reflexivity | exact Ez | repeat apply samples_nonempty_amap; exact Hne]
     | rewrite np_div_nonzero by (intro K; apply Qeq_bool_iff in K; congruence);
       unfold ret; rewrite ?amap_amap; reflexivity ]).
Qed.

(** X1. On an array without samples, normalize with any of the three
    selectors raises the ValueError of np.min (zero-size array) and leaves
    the image as it was. *)
Theorem normalize_empty (fmt : string) (self : GRDImage) :
  known_format fmt ->
  samples (data self) = [] ->
  normalize fmt self = Raises (zero_size "minimum") self.
Proof.
  intros Hf He. rewrite (normalize_known fmt self Hf), He. reflexivity.
Qed.


(** X3. However normalize fails, it has assigned nothing: whenever it
    raises, the exception is a ValueError and the image is the one it
    started from. *)
Theorem normalize_raises_unchanged (fmt : string) (self s : GRDImage) (e : exn) :
  normalize fmt self = Raises e s ->
  s = self /\ exists msg, e = ValueError msg.
Proof.
  unfold normalize, bind, gets, np_min, np_max, np_div, set_data, modify,
    ret, raise, non_finite.
  destruct (String.eqb fmt "0-1"); [|destruct (String.eqb fmt "-1-1");
    [|destruct (String.eqb fmt "0-255")]];
    destruct (reduce_min (samples (data self))); try discriminate;
    destruct (reduce_max (samples (data self))); try discriminate;
    repeat match goal with
      | |- context [if ?c then _ else _] => destruct c
      | |- context [match samples ?a with _ => _ end] => destruct (samples a)
      end;
    try discriminate; intro H; inversion H; subst; split; try reflexivity;
    eexists; reflexivity.
Qed.

Lemma min_le_max (l : list Q) (lo hi : Q) :
  reduce_min l = Some lo -> reduce_max l = Some hi -> lo <= hi.
Proof.
  intros Hmin Hmax.
  destruct (reduce_min_spec _ _ Hmin) as [Ilo _].
  destruct (reduce_max_spec _ _ Hmax) as [_ Hhi]. now apply Hhi.
Qed.

Lemma normalize_returns_known (fmt : string) (self s : GRDImage) (v : unit) :
  normalize fmt self = Returns v s -> known_format fmt.
Proof.
  unfold normalize, bind, gets, known_format.
  destruct (String.eqb fmt "0-1") eqn:E1; [apply String.eqb_eq in E1; auto|].
  destruct (String.eqb fmt "-1-1") eqn:E2; [apply String.eqb_eq in E2; auto|].
  destruct (String.eqb fmt "0-255") eqn:E3; [apply String.eqb_eq in E3; auto|].
  discriminate.
Qed.

Lemma normalize_returns_char (fmt : string) (self s : GRDImage) :
  normalize fmt self = Returns tt s <->
  known_format fmt
  /\ exists lo hi,
       reduce_min (samples (data self)) = Some lo
       /\ reduce_max (samples (data self)) = Some hi
       /\ lo < hi
       /\ s = with_data self (astype Float32 (amap (rescaled fmt lo hi) (data self))).
Proof.
  split.
  - intro H. pose proof (normalize_returns_known _ _ _ _ H) as Hf.
    split; [exact Hf|]. rewrite (normalize_known fmt self Hf) in H.
    destruct (reduce_min (samples (data self))) as [lo|] eqn:Emin; [|discriminate].
    destruct (reduce_max (samples (data self))) as [hi|] eqn:Emax; [|discriminate].
    destruct (Qeq_bool (hi - lo) 0) eqn:Ez; [discriminate|].
    exists lo, hi. repeat split; [|now inversion H].
    pose proof (min_le_max _ _ _ Emin Emax) as Hle.
    apply Qle_lt_or_eq in Hle as [L|E]; [exact L|].
    exfalso. apply not_true_iff_false in Ez. apply Ez. apply Qeq_bool_iff.
    rewrite E. ring.
  - intros (Hf & lo & hi & Hmin & Hmax & Hlt & ->).
    rewrite (normalize_known fmt self Hf), Hmin, Hmax.
    replace (Qeq_bool (hi - lo) 0) with false; [reflexivity|].
    symmetry. apply not_true_iff_false. intro K. apply Qeq_bool_iff in K. lra.
Qed.

Lemma row_lengths_amap (f : Q -> Q) (a : ndarray) :
  row_lengths (amap f a) = row_lengths a.
Proof.
  unfold row_lengths, amap; simpl. rewrite map_map.
  apply map_ext. intro r. apply length_map.
Qed.

Lemma normalize_returns_map (fmt : string) (self s : GRDImage) (v : unit) :
  normalize fmt self = Returns v s ->
  exists f, s = with_data self (astype Float32 (amap f (data self))).
Proof.
  destruct v. intro H. apply normalize_returns_char in H
    as (_ & lo & hi & _ & _ & _ & ->). eexists. reflexivity.
Qed.

Section Composition.

Variable log10 : Q -> Q.
Variable resample : resampling.


End Composition.

(** ** calibrate: what a failure leaves *)

Lemma forallb_of_map {A B} (f : B -> bool) (g : A -> B) (l : list A) :
  forallb f (map g l) = forallb (fun x => f (g x)) l.
Proof. induction l as [|a l IH]; simpl; [reflexivity | now rewrite IH]. Qed.

Section CalibrateOutcomes.

Variable log10 : Q -> Q.

Lemma sigma0_db_outcome (self : GRDImage) :
  sigma0_db log10 self =
  if forallb (fun x => Qlt_bool 0 (calibration_factor self * Qabs x ^ 2 + 1e-10))
       (samples (data self))
  then Returns tt (with_data self
         (amap (fun x => 10 * log10 (calibration_factor self * Qabs x ^ 2 + 1e-10))
            (data self)))
  else NonFinite.
Proof.
  unfold sigma0_db, bind, gets, np_log10, set_data, modify, ret, non_finite.
  rewrite !amap_amap, samples_amap, forallb_of_map.
  destruct (forallb _ _); [|reflexivity].
  now rewrite !amap_amap.
Qed.

(** X10. calibrate assigns nothing before it fails: whenever it raises, the
    image is the one it started from and the exception is either its own
    ValueError (a sample outside [0,1]) or the ValueError of np.amin on an
    array without samples, which is what it raises on such an array. *)
Theorem calibrate_raises_unchanged (self : GRDImage) :
  (forall e s, calibrate log10 self = Raises e s ->
     s = self /\ (e = not_normalized \/ e = zero_size "minimum"))
  /\ (samples (data self) = [] ->
      calibrate log10 self = Raises (zero_size "minimum") self).
Proof.
  split.
  - intros e s. rewrite calibrate_skips_adjustment.
    unfold calibrate_without_adjustment, bind. rewrite range_check_unfold.
    destruct (reduce_min (samples (data self))) as [lo|] eqn:Emin.
    + destruct (Qlt_bool lo 0); [intro H; inversion H; auto|].
      destruct (reduce_max_of_min _ _ Emin) as [hi Emax]. rewrite Emax.
      destruct (Qlt_bool 1 hi); [intro H; inversion H; auto|].
      rewrite sigma0_db_outcome. destruct (forallb _ _); discriminate.
    + intro H; inversion H; auto.
  - intro E. unfold calibrate, bind. rewrite range_check_unfold, E. reflexivity.
Qed.

End CalibrateOutcomes.

(** ** downsample: the size of the result *)

Lemma thumbnail_fits {S} (resample : resampling) (im : ndarray) (x y : Z) (s : S) :
  (im_width im <= x)%Z -> (im_height im <= y)%Z ->
  thumbnail (x, y) resample im s = Returns im s.
Proof.
  intros Hw Hh. unfold thumbnail, bind, preserve_aspect_ratio.
  replace ((im_width im <=? x) && (im_height im <=? y))%Z with true; [reflexivity|].
  symmetry. apply andb_true_iff. split; now apply Z.leb_le.
Qed.

Lemma thumbnail_resizes {S} (resample : resampling) (im : ndarray) (x y : Z) (s : S) :
  (1 <= x)%Z -> (1 <= y)%Z -> (1 <= im_width im)%Z -> (1 <= im_height im)%Z ->
  ~ (im_width im <= x /\ im_height im <= y)%Z ->
  thumbnail (x, y) resample im s
    = resize (scaled_size (im_width im) (im_height im) x y) resample im s
  /\ (1 <= fst (scaled_size (im_width im) (im_height im) x y))%Z
  /\ (1 <= snd (scaled_size (im_width im) (im_height im) x y))%Z
  /\ (fst (scaled_size (im_width im) (im_height im) x y) = x
      \/ snd (scaled_size (im_width im) (im_height im) x y) = y).
Proof.
  intros Hx Hy HW HH Hbig.
  set (W := im_width im) in *. set (H := im_height im) in *.
  pose proof (positive_inject W HW) as PW. pose proof (positive_inject H HH) as PH.
  unfold thumbnail, bind, preserve_aspect_ratio, scaled_size. fold W H.
  replace ((W <=? x) && (H <=? y))%Z with false.
  2:{ symmetry. apply not_true_iff_false. intro E.
      apply andb_true_iff in E as [F1 F2]. apply Z.leb_le in F1, F2. tauto. }
  replace (H =? 0)%Z with false by (symmetry; apply Z.eqb_neq; lia).
  replace (y =? 0)%Z with false by (symmetry; apply Z.eqb_neq; lia).
  destruct (Qle_bool (inject_Z W / inject_Z H) (inject_Z x / inject_Z y)) eqn:Er.
  - apply Qle_bool_iff in Er. apply (aspect_le_iff W H x y HH Hy) in Er.
    match goal with |- context [round_aspect ?q ?k] =>
      destruct (scaled_width W H x y HW HH Hx Hy Hbig k Er) as (Bx & BW & ByH & _ & _);
      set (x' := round_aspect q k) in * end.
    unfold ret at 1. cbn [fst snd].
    replace ((x' =? W) && (y =? H))%Z with false.
    2:{ symmetry. apply not_true_iff_false. intro E.
        apply andb_true_iff in E as [F1 F2]. apply Z.eqb_eq in F1, F2. lia. }
    repeat split; lia.
  - assert (Hr : (x * H < W * y)%Z).
    { destruct (Z.le_gt_cases (W * y) (x * H)) as [L|G]; [|lia].
      apply (aspect_le_iff W H x y HH Hy) in L.
      apply Qle_bool_iff in L. congruence. }
    replace (Qeq_bool (inject_Z W / inject_Z H) 0) with false.
    2:{ symmetry. apply not_true_iff_false. intro E. apply Qeq_bool_iff in E.
        assert (0 < inject_Z W / inject_Z H)
          by (apply Qlt_shift_div_l; [exact PH | lra]).
        lra. }
    match goal with |- context [round_aspect ?q ?k] =>
      destruct (scaled_height W H x y HW HH Hx Hy Hbig k Hr) as (By & BH & BxW & _ & _);
      set (y' := round_aspect q k) in * end.
    unfold ret at 1. cbn [fst snd].
    replace ((x =? W) && (y' =? H))%Z with false.
    2:{ symmetry. apply not_true_iff_false. intro E.
        apply andb_true_iff in E as [F1 F2]. apply Z.eqb_eq in F1, F2. lia. }
    repeat split; lia.
Qed.

Lemma resize_returns {S} (resample : resampling) (im : ndarray) (x y : Z) (s : S) :
  (1 <= x)%Z -> (1 <= y)%Z ->
  exists a, resize (x, y) resample im s = Returns a s
    /\ im_width a = x /\ im_height a = y
    /\ arr_dtype a = Float32
    /\ row_lengths a = repeat (Z.to_nat x) (Z.to_nat y).
Proof.
  intros Hx Hy. unfold resize.
  replace ((0 <? x) && (0 <? y))%Z with true
    by (symmetry; apply andb_true_iff; split; apply Z.ltb_lt; lia).
  eexists. split; [reflexivity|].
  unfold im_width, im_height, shape, row_lengths; simpl.
  rewrite length_map, length_seq, map_map.
  assert (R : forall n k, map (fun i : nat =>
                List.length (map (fun j => resample im (Z.to_nat x) (Z.to_nat y) i j)
                               (seq 0 (Z.to_nat x)))) (seq k n)
              = repeat (Z.to_nat x) n).
  { induction n as [|n IH]; intro k; simpl; [reflexivity|].
    now rewrite length_map, length_seq, IH. }
  rewrite R.
  destruct (Z.to_nat y) as [|n] eqn:E; [lia|].
  simpl. rewrite length_map, length_seq. repeat split; lia.
Qed.

(** X12. For a bound of positive integers and an array with at least one
    row and one column that does not fit it, downsample returns a new
    single-precision array that is rectangular (every row has the width of
    the result) and touches the bound: its width is the bound's width or
    its height is the bound's height. *)
Theorem downsample_touches_bound (resample : resampling) (self : GRDImage) (x y : Z) :
  (1 <= x)%Z -> (1 <= y)%Z ->
  (1 <= im_width (data self))%Z -> (1 <= im_height (data self))%Z ->
  ~ (im_width (data self) <= x /\ im_height (data self) <= y)%Z ->
  exists a, downsample resample (x, y) self = Returns a self
    /\ (im_width a = x \/ im_height a = y)
    /\ arr_dtype a = Float32
    /\ row_lengths a = repeat (Z.to_nat (im_width a)) (Z.to_nat (im_height a)).
Proof.
  intros Hx Hy HW HH Hbig. unfold downsample, bind, gets.
  destruct (thumbnail_resizes resample (fromarray (data self)) x y self
              Hx Hy HW HH Hbig) as (E & L1 & L2 & Hb).
  rewrite E.
  destruct (scaled_size _ _ x y) as [x' y']. cbn [fst snd] in *.
  destruct (resize_returns resample (fromarray (data self)) x' y' self L1 L2)
    as (a & Ea & Ew & Eh & Ed & Er).
  exists a. rewrite Ea, Ew, Eh. auto.
Qed.

Lemma round_aspect_exact (q : Q) (key : Z -> Q) (n : Z) :
  q == inject_Z n -> (1 <= n)%Z -> round_aspect q key = n.
Proof.
  intros E Hn. unfold round_aspect.
  rewrite (Qfloor_comp _ _ E), (Qceiling_comp _ _ E), Qfloor_Z, Qceiling_Z.
  destruct (Qle_bool _ _); lia.
Qed.

(** X13. When the height is the side that binds (W * y <= x * H) and the
    proportional width y * W / H is a whole number n, downsample gives
    exactly n columns and y rows; when the width binds and x * H / W is a
    whole number n, exactly x columns and n rows.  So a source of 7 by 10
    proportions taller than 180 rows gives 126 by 180 under the bound
    (256, 180). *)
Theorem downsample_exact_size (resample : resampling) (self : GRDImage) (x y n : Z) :
  (1 <= x)%Z -> (1 <= y)%Z ->
  (1 <= im_width (data self))%Z -> (1 <= im_height (data self))%Z ->
  ~ (im_width (data self) <= x /\ im_height (data self) <= y)%Z ->
  ((im_width (data self) * y <= x * im_height (data self))%Z ->
   (n * im_height (data self) = y * im_width (data self))%Z ->
   exists a, downsample resample (x, y) self = Returns a self
     /\ im_width a = n /\ im_height a = y)
  /\ ((x * im_height (data self) < im_width (data self) * y)%Z ->
      (n * im_width (data self) = x * im_height (data self))%Z ->
      exists a, downsample resample (x, y) self = Returns a self
        /\ im_width a = x /\ im_height a = n).
Proof.
  intros Hx Hy HW HH Hbig. unfold downsample, bind, gets.
  destruct (thumbnail_resizes resample (fromarray (data self)) x y self
              Hx Hy HW HH Hbig) as (E & _ & _ & _).
  rewrite E. clear E.
  change (im_width (fromarray (data self))) with (im_width (data self)).
  change (im_height (fromarray (data self))) with (im_height (data self)).
  set (W := im_width (data self)) in *. set (H := im_height (data self)) in *.
  pose proof (positive_inject W HW) as PW. pose proof (positive_inject H HH) as PH.
  unfold scaled_size. split; intros Hr Hn.
  - replace (Qle_bool _ _) with true
      by (symmetry; apply Qle_bool_iff; now apply (aspect_le_iff W H x y HH Hy)).
    assert (N1 : (1 <= n)%Z) by nia.
    rewrite (round_aspect_exact _ _ n); [| |exact N1].
    + destruct (resize_returns resample (fromarray (data self)) n y self N1 Hy)
        as (a & Ea & Ew & Eh & _). now exists a.
    + apply (f_equal inject_Z) in Hn. rewrite !inject_Z_mult in Hn.
      field_simplify_eq; [|lra]. rewrite <- Hn. ring.
  - replace (Qle_bool _ _) with false.
    2:{ symmetry. apply not_true_iff_false. intro K. apply Qle_bool_iff in K.
        apply (aspect_le_iff W H x y HH Hy) in K. lia. }
    assert (N1 : (1 <= n)%Z) by nia.
    rewrite (round_aspect_exact _ _ n); [| |exact N1].
    + destruct (resize_returns resample (fromarray (data self)) x n self Hx N1)
        as (a & Ea & Ew & Eh & _). now exists a.
    + apply (f_equal inject_Z) in Hn. rewrite !inject_Z_mult in Hn.
      field_simplify_eq; [|split; lra]. rewrite <- Hn. ring.
Qed.

Lemma thumbnail_dtype {S} (resample : resampling) (im : ndarray) (size : Z * Z)
    (s s' : S) (a : ndarray) :
  thumbnail size resample im s = Returns a s' ->
  arr_dtype im = Float32 -> arr_dtype a = Float32.
Proof.
  unfold thumbnail, bind, preserve_aspect_ratio, resize, ret, raise.
  destruct size as [x y]. intros H D.
  repeat match type of H with
    | context [if ?c then _ else _] => destruct c; cbn [fst snd] in H
    end;
    try discriminate; inversion H; subst; auto.
Qed.

Lemma astype_same (a : ndarray) : arr_dtype a = Float32 -> astype Float32 a = a.
Proof. destruct a as [t r]; simpl. now intros ->. Qed.

(** X14. Downsampling twice changes nothing more: for a bound of positive
    integers and an array with at least one row and one column, the array
    downsample returns, put in data, is returned as it is by a second
    downsample with the same bound. *)
Theorem downsample_twice (resample : resampling) (self : GRDImage) (x y : Z) :
  (1 <= x)%Z -> (1 <= y)%Z ->
  (1 <= im_width (data self))%Z -> (1 <= im_height (data self))%Z ->
  exists a, downsample resample (x, y) self = Returns a self
    /\ downsample resample (x, y) (with_data self a) = Returns a (with_data self a).
Proof.
  intros Hx Hy HW HH.
  destruct (thumbnail_spec resample (fromarray (data self)) x y self Hx Hy HW HH)
    as (a & E & (_ & B1) & (_ & B2) & _).
  pose proof (thumbnail_dtype resample (fromarray (data self)) (x, y) self self a
                E eq_refl) as D.
  exists a. split; [exact E|].
  unfold downsample, bind, gets. simpl data.
  rewrite thumbnail_fits by assumption.
  unfold fromarray. now rewrite (astype_same a D).
Qed.

(** ** The driver *)

Lemma shape_of_row_lengths (a b : ndarray) :
  row_lengths a = row_lengths b -> shape a = shape b.
Proof.
  unfold row_lengths, shape. intro E.
  assert (L : List.length (arr_rows a) = List.length (arr_rows b)).
  { apply (f_equal (@List.length nat)) in E. now rewrite !length_map in E. }
  rewrite L. f_equal.
  destruct (arr_rows a) as [|r1 l1], (arr_rows b) as [|r2 l2];
    try discriminate; [reflexivity|]. simpl in E. now injection E.
Qed.

Section Driver.

Variable log10 : Q -> Q.
Variable resample : resampling.
Variable rasterio_open : string -> option dataset.

Lemma stages_outcome (args : arguments) (image : GRDImage) (files : disk) :
  stages log10 resample args (image, files) =
  match normalize (arg_normalization_format args) image with
  | Returns _ s1 =>
      match calibrate log10 s1 with
      | Returns _ s2 =>
          match downsample resample (arg_max_size args) s2 with
          | Returns _ s3 => save_as_png (arg_output_filename args) (s3, files)
          | Raises e s3 => Raises e (s3, files)
          | NonFinite => NonFinite
          end
      | Raises e s2 => Raises e (s2, files)
      | NonFinite => NonFinite
      end
  | Raises e s1 => Raises e (s1, files)
  | NonFinite => NonFinite
  end.
Proof.
  unfold stages, bind, on_image. cbn [fst snd].
  destruct (normalize _ image) as [v1 s1|e1 s1|]; try reflexivity. cbn [fst snd].
  destruct (calibrate log10 s1) as [v2 s2|e2 s2|]; try reflexivity. cbn [fst snd].
  destruct (downsample resample _ s2) as [v3 s3|e3 s3|]; reflexivity.
Qed.

Lemma init_data (path : string) (image : GRDImage) :
  GRDImage_init rasterio_open path = inr image ->
  exists src, rasterio_open path = Some src /\ data image = band1 src.
Proof.
  unfold GRDImage_init.
  destruct (rasterio_open path) as [src|]; [|discriminate].
  destruct (extract_info_from_filename path) as [e|[id ts]]; [discriminate|].
  intros [= <-]. now exists src.
Qed.

(** X18. The size given to main does not reach the file: for a raster with
    at least one row and one column, main run with two bounds of positive
    integers, everything else the same, ends in the same way and writes the
    same file. *)
Theorem main_ignores_max_size (path fmt out : string) (size1 size2 : Z * Z)
    (files : disk) :
  (1 <= fst size1)%Z -> (1 <= snd size1)%Z ->
  (1 <= fst size2)%Z -> (1 <= snd size2)%Z ->
  (forall src, rasterio_open path = Some src ->
     (1 <= im_width (band1 src))%Z /\ (1 <= im_height (band1 src))%Z) ->
  main log10 resample rasterio_open (mk_arguments path fmt size1 out) files
  = main log10 resample rasterio_open (mk_arguments path fmt size2 out) files.
Proof.
  intros A1 B1 A2 B2 Hsrc. unfold main. cbn [arg_file_path].
  destruct (GRDImage_init rasterio_open path) as [e|image] eqn:I; [reflexivity|].
  destruct (init_data path image I) as (src & Eo & Ed).
  destruct (Hsrc src Eo) as [HW HH]. rewrite <- Ed in HW, HH.
  rewrite !stages_outcome.
  cbn [arg_normalization_format arg_max_size arg_output_filename].
  destruct (normalize fmt image) as [[] s1|e1 s1|] eqn:N; try reflexivity.
  destruct (calibrate log10 s1) as [[] s2|e2 s2|] eqn:C; try reflexivity.
  apply normalize_returns_map in N as (f & ->).
  apply calibrate_assigns in C. subst s2.
  match goal with |- context [downsample resample size1 ?s] => set (s2 := s) end.
  assert (Hs : shape (data s2) = shape (data image)).
  { apply shape_of_row_lengths. unfold s2. simpl data.
    rewrite row_lengths_amap. apply row_lengths_amap. }
  assert (HW2 : (1 <= im_width (data s2))%Z) by (unfold im_width; now rewrite Hs).
  assert (HH2 : (1 <= im_height (data s2))%Z) by (unfold im_height; now rewrite Hs).
  destruct size1 as [x1 y1], size2 as [x2 y2]. cbn [fst snd] in *.
  destruct (thumbnail_spec resample (fromarray (data s2)) x1 y1 s2 A1 B1 HW2 HH2)
    as (a1 & E1 & _).
  destruct (thumbnail_spec resample (fromarray (data s2)) x2 y2 s2 A2 B2 HW2 HH2)
    as (a2 & E2 & _).
  unfold downsample, bind, gets. rewrite E1, E2. reflexivity.
Qed.

End Driver.

(* ================================================================== *)
(** * The further statements at sample inputs *)

Lemma normalize_empty_witness :
  normalize "0-1" empty_image = Raises (zero_size "minimum") empty_image.
Proof.
  apply (normalize_empty "0-1" empty_image); [left; reflexivity | reflexivity].
Defined.


Lemma normalize_raises_unchanged_witness :
  wide_image = wide_image /\ exists msg, invalid_output_format = ValueError msg.
Proof.
  apply (normalize_raises_unchanged "wrong" wide_image wide_image invalid_output_format).
  reflexivity.
Defined.


Lemma calibrate_raises_unchanged_witness :
  calibrate log10_coarse empty_image = Raises (zero_size "minimum") empty_image.
Proof.
  apply (proj2 (calibrate_raises_unchanged log10_coarse empty_image)). reflexivity.
Defined.

Lemma downsample_touches_bound_witness :
  exists a, downsample nearest (256, 180)%Z tall_image = Returns a tall_image
    /\ (im_width a = 256%Z \/ im_height a = 180%Z)
    /\ arr_dtype a = Float32
    /\ row_lengths a = repeat (Z.to_nat (im_width a)) (Z.to_nat (im_height a)).
Proof.
  apply (downsample_touches_bound nearest tall_image 256 180); try discriminate.
  intros [_ H]. vm_compute in H. apply H. reflexivity.
Defined.

Lemma downsample_exact_size_witness :
  exists a, downsample nearest (256, 180)%Z portrait_image = Returns a portrait_image
    /\ im_width a = 126%Z /\ im_height a = 180%Z.
Proof.
  apply (proj1 (downsample_exact_size nearest portrait_image 256 180 126
                  ltac:(discriminate) ltac:(discriminate)
                  ltac:(discriminate) ltac:(discriminate)
                  ltac:(intros [_ H]; vm_compute in H; apply H; reflexivity)));
    [discriminate | reflexivity].
Defined.

Lemma downsample_twice_witness :
  exists a, downsample nearest (256, 180)%Z tall_image = Returns a tall_image
    /\ downsample nearest (256, 180)%Z (with_data tall_image a)
       = Returns a (with_data tall_image a).
Proof.
  apply (downsample_twice nearest tall_image 256 180); discriminate.
Defined.

Lemma main_ignores_max_size_witness :
  main log10_coarse nearest (sample_source (data unit_image))
    (mk_arguments sample_path "0-1" (1, 1)%Z "out.png") []
  = main log10_coarse nearest (sample_source (data unit_image))
      (mk_arguments sample_path "0-1" (2, 2)%Z "out.png") [].
Proof.
  apply (main_ignores_max_size log10_coarse nearest (sample_source (data unit_image)));
    try discriminate.
  intros src [= <-]. split; discriminate.
Defined.

(* ================================================================== *)
(** * Properties of the methods on every array *)

Section FullProperties.

Import Full.

(** ** The order of the floats *)

Lemma flt_irrefl_nan (a : float) : flt Nan a = false /\ flt a Nan = false.
Proof. destruct a; split; reflexivity. Qed.

Lemma flt_false_fle (a b : float) :
  a <> Nan -> b <> Nan -> flt b a = false -> fle a b = true.
Proof.
  intros Ha Hb. destruct a, b; simpl; try congruence.
  intro H. apply Qlt_bool_false_iff in H. now apply Qle_bool_iff.
Qed.

Lemma flt_fle (a b : float) : flt a b = true -> fle a b = true.
Proof.
  destruct a, b; simpl; try congruence.
  intro H. apply Qlt_bool_iff in H. apply Qle_bool_iff. now apply Qlt_le_weak.
Qed.

Lemma fle_refl (a : float) : a <> Nan -> fle a a = true.
Proof.
  destruct a; simpl; try congruence. intros _. apply Qle_bool_iff, Qle_refl.
Qed.

Lemma fle_trans (a b c : float) : fle a b = true -> fle b c = true -> fle a c = true.
Proof.
  destruct a, b, c; simpl; try congruence.
  intros H1 H2. apply Qle_bool_iff in H1, H2. apply Qle_bool_iff.
  eapply Qle_trans; eauto.
Qed.

Lemma fle_flt_trans (a b c : float) : fle a b = true -> flt b c = true -> flt a c = true.
Proof.
  destruct a, b, c; simpl; try congruence.
  intros H1 H2. apply Qle_bool_iff in H1. apply Qlt_bool_iff in H2.
  apply Qlt_bool_iff. eapply Qle_lt_trans; eauto.
Qed.

Lemma flt_fle_trans (a b c : float) : flt a b = true -> fle b c = true -> flt a c = true.
Proof.
  destruct a, b, c; simpl; try congruence.
  intros H1 H2. apply Qle_bool_iff in H2. apply Qlt_bool_iff in H1.
  apply Qlt_bool_iff. eapply Qlt_le_trans; eauto.
Qed.

Lemma fle_not_nan (a b : float) : fle a b = true -> a <> Nan /\ b <> Nan.
Proof. destruct a, b; simpl; split; congruence. Qed.

(** A float from 0 to 1 is a number. *)
Lemma unit_float (x : float) :
  flt x (of_int 0) = false -> flt (of_int 1) x = false -> x <> Nan ->
  exists q, x = Finite q /\ 0 <= q <= 1.
Proof.
  destruct x as [q| | |]; simpl; try congruence.
  intros H0 H1 _. apply Qlt_bool_false_iff in H0, H1. exists q. auto.
Qed.

(** ** The reductions *)

Lemma fmin_nan_l (b : float) : fmin Nan b = Nan.
Proof. reflexivity. Qed.

Lemma fmin_nan_r (a : float) : fmin a Nan = Nan.
Proof. destruct a; reflexivity. Qed.

Lemma fmax_nan_r (a : float) : fmax a Nan = Nan.
Proof. destruct a; reflexivity. Qed.

Lemma fold_fmin_nan (t : list float) : fold_left fmin t Nan = Nan.
Proof. induction t as [|y t IH]; simpl; auto. Qed.

Lemma fold_fmax_nan (t : list float) : fold_left fmax t Nan = Nan.
Proof. induction t as [|y t IH]; simpl; auto. Qed.

(** With a NaN among the samples the minimum and the maximum are NaN. *)
Lemma fold_fmin_has_nan (t : list float) : forall x,
  In Nan (x :: t) -> fold_left fmin t x = Nan.
Proof.
  induction t as [|y t IH]; intros x H; simpl.
  - destruct H as [H|[]]. auto.
  - destruct H as [->|[->|H]].
    + apply fold_fmin_nan.
    + rewrite fmin_nan_r. apply fold_fmin_nan.
    + apply IH. right. exact H.
Qed.

Lemma fold_fmax_has_nan (t : list float) : forall x,
  In Nan (x :: t) -> fold_left fmax t x = Nan.
Proof.
  induction t as [|y t IH]; intros x H; simpl.
  - destruct H as [H|[]]. auto.
  - destruct H as [->|[->|H]].
    + apply fold_fmax_nan.
    + rewrite fmax_nan_r. apply fold_fmax_nan.
    + apply IH. right. exact H.
Qed.

Lemma fmin_spec (a b : float) :
  a <> Nan -> b <> Nan ->
  (fmin a b = a \/ fmin a b = b) /\ fle (fmin a b) a = true /\ fle (fmin a b) b = true.
Proof.
  intros Ha Hb. unfold fmin.
  replace (match a with Nan => Nan | _ => match b with Nan => Nan | _ => if flt b a then b else a end end)
    with (if flt b a then b else a) by (destruct a, b; congruence).
  destruct (flt b a) eqn:E.
  - split; [now right|]. split; [now apply flt_fle | now apply fle_refl].
  - split; [now left|]. split; [now apply fle_refl | now apply flt_false_fle].
Qed.

Lemma fmax_spec (a b : float) :
  a <> Nan -> b <> Nan ->
  (fmax a b = a \/ fmax a b = b) /\ fle a (fmax a b) = true /\ fle b (fmax a b) = true.
Proof.
  intros Ha Hb. unfold fmax.
  replace (match a with Nan => Nan | _ => match b with Nan => Nan | _ => if flt a b then b else a end end)
    with (if flt a b then b else a) by (destruct a, b; congruence).
  destruct (flt a b) eqn:E.
  - split; [now right|]. split; [now apply flt_fle | now apply fle_refl].
  - split; [now left|]. split; [now apply fle_refl | now apply flt_false_fle].
Qed.

(** Without a NaN the minimum is a sample below the others. *)
Lemma fold_fmin_spec (t : list float) : forall x,
  ~ In Nan (x :: t) ->
  In (fold_left fmin t x) (x :: t)
  /\ forall y, In y (x :: t) -> fle (fold_left fmin t x) y = true.
Proof.
  induction t as [|z t IH]; intros x H; simpl.
  - split; [now left|]. intros y [<-|[]]. apply fle_refl. intro E. apply H. now left.
  - assert (Hx : x <> Nan) by (intro E; apply H; now left).
    assert (Hz : z <> Nan) by (intro E; apply H; right; now left).
    destruct (fmin_spec x z Hx Hz) as (Hc & Hlx & Hlz).
    assert (Hm : ~ In Nan (fmin x z :: t)).
    { intros [E|E]; [destruct Hc as [Hc|Hc]; congruence | apply H; right; now right]. }
    destruct (IH _ Hm) as [Hin Hle]. split.
    + destruct Hin as [Hin|Hin]; [|now right; right].
      destruct Hc as [Hc|Hc]; rewrite Hc in *; [now left | right; now left].
    + intros y [<-|[<-|Hy]].
      * eapply fle_trans; [apply Hle; now left | exact Hlx].
      * eapply fle_trans; [apply Hle; now left | exact Hlz].
      * apply Hle. now right.
Qed.

Lemma fold_fmax_spec (t : list float) : forall x,
  ~ In Nan (x :: t) ->
  In (fold_left fmax t x) (x :: t)
  /\ forall y, In y (x :: t) -> fle y (fold_left fmax t x) = true.
Proof.
  induction t as [|z t IH]; intros x H; simpl.
  - split; [now left|]. intros y [<-|[]]. apply fle_refl. intro E. apply H. now left.
  - assert (Hx : x <> Nan) by (intro E; apply H; now left).
    assert (Hz : z <> Nan) by (intro E; apply H; right; now left).
    destruct (fmax_spec x z Hx Hz) as (Hc & Hlx & Hlz).
    assert (Hm : ~ In Nan (fmax x z :: t)).
    { intros [E|E]; [destruct Hc as [Hc|Hc]; congruence | apply H; right; now right]. }
    destruct (IH _ Hm) as [Hin Hle]. split.
    + destruct Hin as [Hin|Hin]; [|now right; right].
      destruct Hc as [Hc|Hc]; rewrite Hc in *; [now left | right; now left].
    + intros y [<-|[<-|Hy]].
      * eapply fle_trans; [exact Hlx | apply Hle; now left].
      * eapply fle_trans; [exact Hlz | apply Hle; now left].
      * apply Hle. now right.
Qed.

Lemma fold_Zmin_spec (t : list Z) : forall x,
  In (fold_left Z.min t x) (x :: t)
  /\ forall y, In y (x :: t) -> (fold_left Z.min t x <= y)%Z.
Proof.
  induction t as [|z t IH]; intros x; simpl.
  - split; [now left|]. intros y [<-|[]]. lia.
  - destruct (IH (Z.min x z)) as [Hin Hle]. split.
    + destruct Hin as [Hin|Hin]; [|now right; right].
      destruct (Z.min_spec x z) as [[_ E]|[_ E]]; rewrite E in *;
        [now left | right; now left].
    + intros y [<-|[<-|Hy]].
      * specialize (Hle (Z.min x z) (or_introl eq_refl)). lia.
      * specialize (Hle (Z.min x z) (or_introl eq_refl)). lia.
      * apply Hle. now right.
Qed.

Lemma fold_Zmax_spec (t : list Z) : forall x,
  In (fold_left Z.max t x) (x :: t)
  /\ forall y, In y (x :: t) -> (y <= fold_left Z.max t x)%Z.
Proof.
  induction t as [|z t IH]; intros x; simpl.
  - split; [now left|]. intros y [<-|[]]. lia.
  - destruct (IH (Z.max x z)) as [Hin Hle]. split.
    + destruct Hin as [Hin|Hin]; [|now right; right].
      destruct (Z.max_spec x z) as [[_ E]|[_ E]]; rewrite E in *;
        [right; now left | now left].
    + intros y [<-|[<-|Hy]].
      * specialize (Hle (Z.max x z) (or_introl eq_refl)). lia.
      * specialize (Hle (Z.max x z) (or_introl eq_refl)). lia.
      * apply Hle. now right.
Qed.

Lemma elements_int (t : int_dtype) (rows : list (list Z)) :
  elements (IntArray t rows) = map of_int (concat rows).
Proof. unfold elements. simpl. now rewrite concat_map. Qed.

Lemma int_no_nan (t : int_dtype) (rows : list (list Z)) : ~ has_nan (IntArray t rows).
Proof.
  unfold has_nan. rewrite elements_int. intro H.
  apply in_map_iff in H as (z & E & _). discriminate.
Qed.

Lemma fle_of_int (a b : Z) : (a <= b)%Z -> fle (of_int a) (of_int b) = true.
Proof. intro H. simpl. apply Qle_bool_iff. now rewrite <- Zle_Qle. Qed.

(** [lowest]: nothing on an array without samples, NaN when a sample is a
    NaN, and else a sample that none is below. *)
Lemma lowest_none (a : ndarray) : lowest a = None <-> elements a = [].
Proof.
  destruct a as [t rows|t rows].
  - rewrite elements_int. simpl. destruct (concat rows); simpl; split; congruence.
  - unfold elements. simpl. destruct (concat rows); simpl; split; congruence.
Qed.

Lemma highest_none (a : ndarray) : highest a = None <-> elements a = [].
Proof.
  destruct a as [t rows|t rows].
  - rewrite elements_int. simpl. destruct (concat rows); simpl; split; congruence.
  - unfold elements. simpl. destruct (concat rows); simpl; split; congruence.
Qed.

Lemma lowest_nan (a : ndarray) (m : float) :
  lowest a = Some m -> has_nan a -> m = Nan.
Proof.
  destruct a as [t rows|t rows]; intros E H.
  - now apply int_no_nan in H.
  - unfold has_nan, elements in H. simpl in *.
    destruct (concat rows) as [|x l]; [destruct H|].
    injection E as <-. now apply fold_fmin_has_nan.
Qed.

Lemma highest_nan (a : ndarray) (m : float) :
  highest a = Some m -> has_nan a -> m = Nan.
Proof.
  destruct a as [t rows|t rows]; intros E H.
  - now apply int_no_nan in H.
  - unfold has_nan, elements in H. simpl in *.
    destruct (concat rows) as [|x l]; [destruct H|].
    injection E as <-. now apply fold_fmax_has_nan.
Qed.

Lemma lowest_spec (a : ndarray) (m : float) :
  lowest a = Some m -> ~ has_nan a ->
  In m (elements a) /\ forall x, In x (elements a) -> fle m x = true.
Proof.
  destruct a as [t rows|t rows]; intros E H.
  - rewrite elements_int. simpl in E.
    destruct (concat rows) as [|x l]; [discriminate|]. injection E as <-.
    destruct (fold_Zmin_spec l x) as [Hin Hle]. split.
    + apply in_map. exact Hin.
    + intros y Hy. apply in_map_iff in Hy as (z & <- & Hz).
      apply fle_of_int. now apply Hle.
  - unfold has_nan, elements in *. simpl in *.
    destruct (concat rows) as [|x l]; [discriminate|]. injection E as <-.
    now apply fold_fmin_spec.
Qed.

Lemma highest_spec (a : ndarray) (m : float) :
  highest a = Some m -> ~ has_nan a ->
  In m (elements a) /\ forall x, In x (elements a) -> fle x m = true.
Proof.
  destruct a as [t rows|t rows]; intros E H.
  - rewrite elements_int. simpl in E.
    destruct (concat rows) as [|x l]; [discriminate|]. injection E as <-.
    destruct (fold_Zmax_spec l x) as [Hin Hle]. split.
    + apply in_map. exact Hin.
    + intros y Hy. apply in_map_iff in Hy as (z & <- & Hz).
      apply fle_of_int. now apply Hle.
  - unfold has_nan, elements in *. simpl in *.
    destruct (concat rows) as [|x l]; [discriminate|]. injection E as <-.
    now apply fold_fmax_spec.
Qed.

(** [np.min] and [np.max] in terms of [lowest] and [highest]. *)
Lemma np_min_value {S} (a : ndarray) (s : S) :
  match lowest a with
  | Some m => exists sc, np_min a s = Returns sc s /\ value sc = m
  | None => np_min a s = Raises (zero_size "minimum") s
  end.
Proof.
  destruct a as [t rows|t rows]; simpl.
  - destruct (reduce Z.min (concat rows)); simpl; [eexists; split; reflexivity | reflexivity].
  - destruct (reduce fmin (concat rows)); simpl; [eexists; split; reflexivity | reflexivity].
Qed.

Lemma np_max_value {S} (a : ndarray) (s : S) :
  match highest a with
  | Some m => exists sc, np_max a s = Returns sc s /\ value sc = m
  | None => np_max a s = Raises (zero_size "maximum") s
  end.
Proof.
  destruct a as [t rows|t rows]; simpl.
  - destruct (reduce Z.max (concat rows)); simpl; [eexists; split; reflexivity | reflexivity].
  - destruct (reduce fmax (concat rows)); simpl; [eexists; split; reflexivity | reflexivity].
Qed.

(** ** The range check and the adjustment of [calibrate] *)

Lemma full_range_check_unfold (self : GRDImage) :
  range_check self =
  match lowest (data self) with
  | None => Raises (zero_size "minimum") self
  | Some lo =>
      if flt lo (of_int 0) then Raises not_normalized self
      else
        match highest (data self) with
        | None => Raises (zero_size "maximum") self
        | Some hi =>
            if flt (of_int 1) hi then Raises not_normalized self else Returns tt self
        end
  end.
Proof.
  unfold range_check, bind, gets.
  pose proof (np_min_value (data self) self) as Hmin.
  destruct (lowest (data self)) as [lo|].
  - destruct Hmin as (sc & -> & ->).
    destruct (flt lo (of_int 0)); [reflexivity|].
    pose proof (np_max_value (data self) self) as Hmax.
    destruct (highest (data self)) as [hi|].
    + destruct Hmax as (sc' & -> & ->). unfold ret.
      destruct (flt (of_int 1) hi); reflexivity.
    + now rewrite Hmax.
  - now rewrite Hmin.
Qed.

Lemma full_choose_adjustment_unfold (self : GRDImage) :
  choose_adjustment self =
  match lowest (data self) with
  | None => Raises (zero_size "minimum") self
  | Some lo =>
      if fle (of_int 0) lo then
        match highest (data self) with
        | None => Raises (zero_size "maximum") self
        | Some hi =>
            if flt (of_int 1) hi then Returns Divide255 self
            else if flt lo (of_int 0) then Returns ShiftHalve self
                 else Returns Keep self
        end
      else if flt lo (of_int 0) then Returns ShiftHalve self else Returns Keep self
  end.
Proof.
  unfold choose_adjustment, bind, gets.
  pose proof (np_min_value (data self) self) as Hmin.
  destruct (lowest (data self)) as [lo|].
  - destruct Hmin as (sc & E & <-). rewrite E.
    destruct (fle (of_int 0) (value sc)).
    + pose proof (np_max_value (data self) self) as Hmax.
      destruct (highest (data self)) as [hi|].
      * destruct Hmax as (sc' & -> & ->). unfold ret.
        destruct (flt (of_int 1) hi); [reflexivity|].
        rewrite E. destruct (flt (value sc) (of_int 0)); reflexivity.
      * now rewrite Hmax.
    + unfold ret. rewrite E. destruct (flt (value sc) (of_int 0)); reflexivity.
  - now rewrite Hmin.
Qed.

(** The check raises nothing but its own error and that of the reduction,
    and leaves the object as it was. *)
Lemma full_range_check_state (self : GRDImage) :
  (range_check self = Returns tt self)
  \/ (range_check self = Raises not_normalized self)
  \/ (range_check self = Raises (zero_size "minimum") self)
  \/ (range_check self = Raises (zero_size "maximum") self).
Proof.
  rewrite full_range_check_unfold.
  destruct (lowest (data self)) as [lo|]; [|auto].
  destruct (flt lo (of_int 0)); [auto|].
  destruct (highest (data self)) as [hi|]; [|auto].
  destruct (flt (of_int 1) hi); auto.
Qed.

(** A NaN among the samples: both comparisons are false. *)
Lemma full_range_check_nan (self : GRDImage) :
  has_nan (data self) -> range_check self = Returns tt self.
Proof.
  intro H. rewrite full_range_check_unfold.
  destruct (lowest (data self)) as [lo|] eqn:Emin.
  2:{ apply lowest_none in Emin. unfold has_nan in H. rewrite Emin in H. destruct H. }
  rewrite (lowest_nan _ _ Emin H). simpl.
  destruct (highest (data self)) as [hi|] eqn:Emax.
  2:{ apply highest_none in Emax. unfold has_nan in H. rewrite Emax in H. destruct H. }
  now rewrite (highest_nan _ _ Emax H).
Qed.

(** No NaN and a sample outside [0,1]: the check raises. *)
Lemma full_range_check_raises (self : GRDImage) :
  ~ has_nan (data self) -> out_of_unit_range (data self) ->
  range_check self = Raises not_normalized self.
Proof.
  intros Hn (x & Hx & Hout). rewrite full_range_check_unfold.
  destruct (lowest (data self)) as [lo|] eqn:Emin.
  2:{ apply lowest_none in Emin. rewrite Emin in Hx. destruct Hx. }
  destruct (lowest_spec _ _ Emin Hn) as [_ Hlo].
  destruct (flt lo (of_int 0)) eqn:Elo; [reflexivity|].
  destruct (highest (data self)) as [hi|] eqn:Emax.
  2:{ apply highest_none in Emax. rewrite Emax in Hx. destruct Hx. }
  destruct (highest_spec _ _ Emax Hn) as [_ Hhi].
  destruct (flt (of_int 1) hi) eqn:Ehi; [reflexivity|].
  exfalso. destruct Hout as [H|H].
  - pose proof (fle_flt_trans _ _ _ (Hlo x Hx) H). congruence.
  - pose proof (flt_fle_trans _ _ _ H (Hhi x Hx)). congruence.
Qed.

Lemma has_nan_dec (a : ndarray) : has_nan a \/ ~ has_nan a.
Proof.
  unfold has_nan. induction (elements a) as [|x l IH]; simpl.
  - right. tauto.
  - destruct x; try (destruct IH; [left; now right | right; intros [E|E]; [discriminate | tauto]]).
    left. now left.
Qed.

(** When the check returns, the array has a sample, and a NaN or all of
    its samples in [0,1]. *)
Lemma full_range_check_returns (self s : GRDImage) :
  range_check self = Returns tt s ->
  s = self /\ elements (data self) <> []
  /\ (has_nan (data self) \/ in_unit_range (data self)).
Proof.
  rewrite full_range_check_unfold.
  destruct (lowest (data self)) as [lo|] eqn:Emin; [|discriminate].
  destruct (flt lo (of_int 0)) eqn:Elo; [discriminate|].
  destruct (highest (data self)) as [hi|] eqn:Emax; [|discriminate].
  destruct (flt (of_int 1) hi) eqn:Ehi; [discriminate|].
  intros [= <-]. split; [reflexivity|]. split.
  - intro E. apply lowest_none in E. congruence.
  - destruct (has_nan_dec (data self)) as [Hn|Hn]; [now left | right].
    destruct (lowest_spec _ _ Emin Hn) as [_ Hlo].
    destruct (highest_spec _ _ Emax Hn) as [_ Hhi].
    intros x Hx. apply unit_float.
    + destruct (flt x (of_int 0)) eqn:E; [|reflexivity].
      pose proof (fle_flt_trans _ _ _ (Hlo x Hx) E). congruence.
    + destruct (flt (of_int 1) x) eqn:E; [|reflexivity].
      pose proof (flt_fle_trans _ _ _ E (Hhi x Hx)). congruence.
    + intro E. apply Hn. unfold has_nan. now rewrite <- E.
Qed.

(** An array with a sample and all of its samples in [0,1] passes. *)
Lemma full_range_check_in_range (self : GRDImage) :
  elements (data self) <> [] -> in_unit_range (data self) ->
  range_check self = Returns tt self.
Proof.
  intros Hne Hall.
  assert (Hn : ~ has_nan (data self)).
  { intro H. destruct (Hall _ H) as (q & E & _). discriminate. }
  rewrite full_range_check_unfold.
  destruct (lowest (data self)) as [lo|] eqn:Emin.
  2:{ apply lowest_none in Emin. congruence. }
  destruct (lowest_spec _ _ Emin Hn) as [Hlo _].
  destruct (Hall _ Hlo) as (q & -> & Hq).
  replace (flt (Finite q) (of_int 0)) with false
    by (symmetry; apply Qlt_bool_false_iff, Hq).
  destruct (highest (data self)) as [hi|] eqn:Emax.
  2:{ apply highest_none in Emax. congruence. }
  destruct (highest_spec _ _ Emax Hn) as [Hhi _].
  destruct (Hall _ Hhi) as (q' & -> & Hq').
  replace (flt (of_int 1) (Finite q')) with false
    by (symmetry; apply Qlt_bool_false_iff, Hq').
  reflexivity.
Qed.

(** On an array that passes the check neither adjustment is chosen. *)
Lemma full_choose_adjustment_keep (self : GRDImage) :
  range_check self = Returns tt self -> choose_adjustment self = Returns Keep self.
Proof.
  rewrite full_range_check_unfold, full_choose_adjustment_unfold.
  destruct (lowest (data self)) as [lo|]; [|discriminate].
  destruct (flt lo (of_int 0)); [discriminate|].
  destruct (highest (data self)) as [hi|]; [|discriminate].
  destruct (flt (of_int 1) hi); [discriminate|]. intros _.
  destruct (fle (of_int 0) lo); reflexivity.
Qed.

Section FullCalibration.

Variable rounded : float_dtype -> Q -> Q.
Variable log10 : float_dtype -> Q -> Q.

Lemma full_adjust_ranges_keep (self : GRDImage) :
  range_check self = Returns tt self -> adjust_ranges rounded self = Returns tt self.
Proof.
  intro H. unfold adjust_ranges, bind.
  now rewrite (full_choose_adjustment_keep self H).
Qed.

Lemma full_calibrate_skips_adjustment (self : GRDImage) :
  calibrate rounded log10 self = calibrate_without_adjustment rounded log10 self.
Proof.
  unfold calibrate, calibrate_without_adjustment, bind.
  destruct (range_check self) as [[] s|e s] eqn:E; try reflexivity.
  destruct (full_range_check_returns _ _ E) as (-> & _).
  now rewrite (full_adjust_ranges_keep self E).
Qed.

(** The formula returns whatever the samples are. *)
Lemma full_sigma0_db_returns (self : GRDImage) :
  sigma0_db rounded log10 self =
  Returns tt (with_data self
    (times rounded 10
       (np_log10 log10 (log10_argument rounded (calibration_factor self) (data self))))).
Proof. reflexivity. Qed.

(** [calibrate] is the check, then the formula. *)
Lemma full_calibrate_outcome (self : GRDImage) :
  calibrate rounded log10 self =
  match range_check self with
  | Returns _ _ => sigma0_db rounded log10 self
  | Raises e s => Raises e s
  end.
Proof.
  rewrite full_calibrate_skips_adjustment.
  unfold calibrate_without_adjustment, bind.
  destruct (range_check self) as [[] s|e s] eqn:E; [|reflexivity].
  now destruct (full_range_check_returns _ _ E) as (-> & _).
Qed.

Lemma full_calibrate_raises (self : GRDImage) :
  ~ has_nan (data self) -> out_of_unit_range (data self) ->
  calibrate rounded log10 self = Raises not_normalized self.
Proof.
  intros Hn Ho. rewrite full_calibrate_outcome.
  now rewrite (full_range_check_raises self Hn Ho).
Qed.

(** Whenever [calibrate] raises, the object is as it was. *)
Lemma full_calibrate_raises_state (self s : GRDImage) (e : exception) :
  calibrate rounded log10 self = Raises e s -> s = self.
Proof.
  rewrite full_calibrate_outcome.
  destruct (full_range_check_state self) as [H|[H|[H|H]]]; rewrite H.
  - rewrite full_sigma0_db_returns. discriminate.
  - now intros [= _ <-].
  - now intros [= _ <-].
  - now intros [= _ <-].
Qed.

End FullCalibration.

(** ** Rounding *)

Section Rounding.

Variable rounded : float_dtype -> Q -> Q.
Hypothesis HR : nearest_float rounded.

Lemma rounded_proper (t : float_dtype) (a b : Q) : a == b -> rounded t a == rounded t b.
Proof.
  intro E. apply Qle_antisym; apply (rounded_monotone _ HR); rewrite E; apply Qle_refl.
Qed.

Lemma rounded_int (t : float_dtype) (z : Z) :
  (Z.abs z <= 2 ^ 24)%Z -> rounded t (inject_Z z) == inject_Z z.
Proof.
  intro H. pose proof (rounded_dyadic _ HR t z 0 H) as E.
  assert (D : inject_Z z / inject_Z (2 ^ Z.of_N 0) == inject_Z z)
    by (change (inject_Z (2 ^ Z.of_N 0)) with 1; field).
  rewrite (rounded_proper t _ _ (Qeq_sym _ _ D)).
  rewrite E by (vm_compute; discriminate). exact D.
Qed.

Lemma rounded_zero (t : float_dtype) : rounded t 0 == 0.
Proof. apply (rounded_int t 0). vm_compute. discriminate. Qed.

Lemma rounded_one (t : float_dtype) : rounded t 1 == 1.
Proof. apply (rounded_int t 1). vm_compute. discriminate. Qed.

Lemma rounded_nonneg (t : float_dtype) (q : Q) : 0 <= q -> 0 <= rounded t q.
Proof.
  intro H. apply Qle_trans with (y := rounded t 0).
  - rewrite (rounded_zero t). apply Qle_refl.
  - now apply (rounded_monotone _ HR).
Qed.

Lemma rounded_le_one (t : float_dtype) (q : Q) : q <= 1 -> rounded t q <= 1.
Proof.
  intro H. apply Qle_trans with (y := rounded t 1).
  - now apply (rounded_monotone _ HR).
  - rewrite (rounded_one t). apply Qle_refl.
Qed.

Lemma max_finite_ge_one (t : float_dtype) : 1 <= max_finite t.
Proof. destruct t; vm_compute; discriminate. Qed.

Lemma rounded_le_max (t : float_dtype) (q : Q) :
  q <= max_finite t -> rounded t q <= max_finite t.
Proof.
  intro H. apply Qle_trans with (y := rounded t (max_finite t)).
  - now apply (rounded_monotone _ HR).
  - rewrite (rounded_max _ HR t). apply Qle_refl.
Qed.

(** A result from 0 to the largest float is a number. *)
Lemma to_float_finite (t : float_dtype) (q : Q) :
  0 <= q -> q <= max_finite t ->
  to_float rounded t q = Finite (rounded t q).
Proof.
  intros H0 H1. unfold to_float.
  pose proof (rounded_nonneg t q H0) as R0.
  pose proof (rounded_le_max t q H1) as R1.
  pose proof (max_finite_ge_one t) as M.
  replace (Qlt_bool (max_finite t) (rounded t q)) with false
    by (symmetry; now apply Qlt_bool_false_iff).
  replace (Qlt_bool (rounded t q) (- max_finite t)) with false; [reflexivity|].
  symmetry. apply Qlt_bool_false_iff. lra.
Qed.

(** A result above 0 is a positive number or the positive infinity. *)
Lemma to_float_positive (t : float_dtype) (q : Q) :
  0 < rounded t q -> positive (to_float rounded t q).
Proof.
  intro H. unfold positive, to_float.
  pose proof (max_finite_ge_one t) as M.
  destruct (Qlt_bool (max_finite t) (rounded t q)); [reflexivity|].
  replace (Qlt_bool (rounded t q) (- max_finite t)) with false.
  - simpl. now apply Qlt_bool_iff.
  - symmetry. apply Qlt_bool_false_iff. lra.
Qed.

Lemma to_float_not_nan (t : float_dtype) (q : Q) : to_float rounded t q <> Nan.
Proof.
  unfold to_float.
  destruct (Qlt_bool _ _); [discriminate|]. destruct (Qlt_bool _ _); discriminate.
Qed.

(** 2^-34, a float below 1e-10. *)
Lemma rounded_small (t : float_dtype) (q : Q) :
  (1 # 17179869184) <= q -> (1 # 17179869184) <= rounded t q.
Proof.
  intro H.
  assert (E : rounded t (1 # 17179869184) == 1 # 17179869184).
  { pose proof (rounded_dyadic _ HR t 1 34) as D.
    assert (X : inject_Z 1 / inject_Z (2 ^ Z.of_N 34) == 1 # 17179869184)
      by (vm_compute; reflexivity).
    rewrite (rounded_proper t _ _ (Qeq_sym _ _ X)).
    rewrite D by (vm_compute; discriminate). exact X. }
  apply Qle_trans with (y := rounded t (1 # 17179869184)).
  - rewrite E. apply Qle_refl.
  - now apply (rounded_monotone _ HR).
Qed.

End Rounding.

(** ** The calibration formula *)

Lemma wrap_in_range (t : int_dtype) (z : Z) :
  (int_min t <= z <= int_max t)%Z -> wrap t z = z.
Proof.
  intro H. unfold wrap. rewrite Z.mod_small; lia.
Qed.

Lemma elements_float (t : float_dtype) (rows : list (list float)) :
  elements (FloatArray t rows) = concat rows.
Proof. reflexivity. Qed.

Lemma concat_map_map {A B} (f : A -> B) (rows : list (list A)) :
  concat (map (map f) rows) = map f (concat rows).
Proof. symmetry. apply concat_map. Qed.

Lemma map_map_rows {A B C} (f : A -> B) (g : B -> C) (rows : list (list A)) :
  map (map g) (map (map f) rows) = map (map (fun x => g (f x))) rows.
Proof.
  rewrite map_map. apply map_ext. intro r. apply map_map.
Qed.

Section FullFormula.

Variable rounded : float_dtype -> Q -> Q.
Variable log10 : float_dtype -> Q -> Q.
Hypothesis HR : nearest_float rounded.

(** [np.abs(d) ** 2] of samples in [0,1]: numbers in [0,1], in the
    precision [d] is computed in. *)
Lemma square_abs_unit (d : ndarray) :
  in_unit_range d ->
  float_dtype_of (square rounded (np_abs d)) = float_dtype_of d
  /\ in_unit_range (square rounded (np_abs d)).
Proof.
  intro H. destruct d as [t rows|t rows]; simpl; split; try reflexivity.
  - unfold in_unit_range in *. rewrite elements_int in *.
    rewrite !concat_map_map, !map_map. intros x Hx.
    apply in_map_iff in Hx as (z & <- & Hz).
    destruct (H (of_int z)) as (q & E & Hq); [now apply in_map|].
    injection E as <-.
    assert (Z01 : (0 <= z <= 1)%Z) by (destruct Hq as [A B]; unfold Qle in A, B; simpl in A, B; lia).
    assert (Ez : wrap t (wrap t (Z.abs z) * wrap t (Z.abs z)) = z).
    { rewrite (wrap_in_range t (Z.abs z)) by (destruct t; simpl; lia).
      rewrite wrap_in_range by (destruct t; simpl; nia). nia. }
    rewrite Ez. exists (inject_Z z). split; [reflexivity | exact Hq].
  - unfold in_unit_range in *. rewrite elements_float in *.
    rewrite !concat_map_map, map_map. intros x Hx.
    apply in_map_iff in Hx as (y & <- & Hy).
    destruct (H y Hy) as (q & -> & Hq). simpl.
    assert (A : 0 <= Qabs q * Qabs q <= 1).
    { rewrite (Qabs_pos q) by apply Hq. split.
      - apply Qmult_le_0_compat; apply Hq.
      - apply Qle_trans with (y := 1 * q); [|lra].
        apply Qmult_le_compat_r; apply Hq. }
    rewrite (to_float_finite rounded HR).
    + eexists. split; [reflexivity|]. split.
      * now apply rounded_nonneg.
      * apply (rounded_le_one rounded HR), A.
    + apply A.
    + pose proof (max_finite_ge_one t). lra.
Qed.

(** The Python float [1e-10] is a number from 2^-34 to 1 in either
    precision. *)
Lemma epsilon_cast (t : float_dtype) :
  exists e, cast rounded t (epsilon rounded) = Finite e /\ (1 # 17179869184) <= e <= 1.
Proof.
  unfold epsilon.
  assert (B : (1 # 17179869184) <= 1e-10 <= 1) by (split; vm_compute; discriminate).
  assert (M64 := max_finite_ge_one Float64). assert (Mt := max_finite_ge_one t).
  rewrite (to_float_finite rounded HR) by lra. simpl.
  assert (B2 : (1 # 17179869184) <= rounded Float64 1e-10 <= 1).
  { split; [apply (rounded_small rounded HR), B|].
    apply (rounded_le_one rounded HR), B. }
  rewrite (to_float_finite rounded HR) by lra.
  eexists. split; [reflexivity|]. split.
  - apply (rounded_small rounded HR), B2.
  - apply (rounded_le_one rounded HR), B2.
Qed.

(** What the formula gives [np.log10] for a sample in [0,1] and a factor
    from 0 to the largest float: a positive float. *)
Lemma log10_argument_positive (t : float_dtype) (cf r : Q) :
  0 <= cf -> cf <= max_finite t -> 0 <= r <= 1 ->
  positive (fadd rounded t (fmul rounded t (Finite r) (cast rounded t (Finite cf)))
              (cast rounded t (epsilon rounded))).
Proof.
  intros C0 C1 Hr.
  destruct (epsilon_cast t) as (e & -> & He).
  simpl cast. rewrite (to_float_finite rounded HR) by assumption.
  pose proof (rounded_nonneg rounded HR t cf C0) as R0.
  pose proof (rounded_le_max rounded HR t cf C1) as R1.
  set (c := rounded t cf) in *.
  unfold fmul.
  assert (P : 0 <= r * c <= max_finite t).
  { split; [apply Qmult_le_0_compat; [apply Hr | exact R0]|].
    apply Qle_trans with (y := 1 * c); [|lra].
    apply Qmult_le_compat_r; [apply Hr | exact R0]. }
  rewrite (to_float_finite rounded HR) by apply P.
  unfold fadd. apply (to_float_positive rounded).
  apply Qlt_le_trans with (y := 1 # 17179869184); [reflexivity|].
  apply (rounded_small rounded HR).
  pose proof (rounded_nonneg rounded HR t (r * c) (proj1 P)). lra.
Qed.

Lemma flog10_positive (t : float_dtype) (x : float) :
  positive x -> flog10 log10 t x <> Nan /\ flog10 log10 t x <> NegInf.
Proof.
  unfold positive. destruct x as [q| | |]; try discriminate.
  - intro H. change (Qlt_bool 0 q = true) in H. simpl. rewrite H. split; discriminate.
  - intros _. split; discriminate.
Qed.

Lemma ten_times_not_nan (t : float_dtype) (x : float) :
  x <> Nan -> x <> NegInf -> fmul rounded t (of_int 10) x <> Nan.
Proof.
  destruct x as [q| | |]; simpl; try congruence; intros _ _.
  - apply to_float_not_nan.
  - discriminate.
Qed.

Lemma promote_with_float (op : float_dtype -> float -> float -> float)
    (a : ndarray) (c : float) :
  with_float rounded op a c =
  FloatArray (float_dtype_of a)
    (map (map (fun x => op (float_dtype_of a) x (cast rounded (float_dtype_of a) c)))
       (promote a)).
Proof. reflexivity. Qed.

(** The samples [np.log10] is given, in terms of those of
    [np.abs(d) ** 2]. *)
Lemma log10_argument_elements (cf : float) (d : ndarray) :
  let t := float_dtype_of (square rounded (np_abs d)) in
  log10_argument rounded cf d =
  FloatArray t
    (map (map (fun x => fadd rounded t (fmul rounded t x (cast rounded t cf))
                          (cast rounded t (epsilon rounded))))
       (promote (square rounded (np_abs d)))).
Proof.
  unfold log10_argument. rewrite !promote_with_float. simpl.
  now rewrite map_map_rows.
Qed.

End FullFormula.

(** ** calibrate *)

Lemma str_eqb_eq (a : str) : forall b, str_eqb a b = true <-> a = b.
Proof.
  induction a as [|x a IH]; intros [|y b]; simpl; split; try congruence.
  - intro H. apply andb_true_iff in H as [H1 H2].
    apply N.eqb_eq in H1. apply IH in H2. congruence.
  - intros [= -> ->]. apply andb_true_iff. split; [apply N.eqb_refl | now apply IH].
Qed.

Lemma str_eqb_neq (a b : str) : a <> b -> str_eqb a b = false.
Proof.
  intro H. destruct (str_eqb a b) eqn:E; [|reflexivity].
  apply str_eqb_eq in E. contradiction.
Qed.

Section FullCalibrate.

Variable rounded : float_dtype -> Q -> Q.
Variable log10 : float_dtype -> Q -> Q.

(** With a selector it does not know [normalize] raises before it reads
    the data. *)
Lemma full_normalize_unknown (fmt : str) (self : GRDImage) :
  ~ known_format fmt ->
  normalize rounded fmt self = Raises invalid_output_format self.
Proof.
  intro H. unfold normalize, bind, gets.
  rewrite !str_eqb_neq; [reflexivity | | |];
    intro E; apply H; unfold known_format; auto.
Qed.

(** The samples of the result of the formula. *)
Lemma sigma0_db_elements (cf : float) (d : ndarray) :
  let t := float_dtype_of (square rounded (np_abs d)) in
  elements (times rounded 10 (np_log10 log10 (log10_argument rounded cf d))) =
  map (fun x => fmul rounded t (of_int 10) (flog10 log10 t x))
    (elements (log10_argument rounded cf d)).
Proof.
  rewrite log10_argument_elements. simpl.
  rewrite elements_float, map_map_rows. apply concat_map_map.
Qed.


(** C10. A stage that fails at its own validation leaves the image as it
    was.  normalize with a selector other than "0-1", "-1-1" and "0-255"
    raises its ValueError with the object unchanged.  Whenever calibrate
    raises, data, calibration_factor, image_id and timestamp hold the
    values they had; and on data without NaN that has a sample below 0 or
    above 1 it does raise its ValueError. *)
Theorem failed_validation_keeps_image (self : Full.GRDImage) :
  (forall fmt : Full.str, ~ Full.known_format fmt ->
     exists s, Full.normalize rounded fmt self = Full.Raises Full.invalid_output_format s
       /\ s = self /\ Full.data s = Full.data self
       /\ Full.calibration_factor s = Full.calibration_factor self
       /\ Full.image_id s = Full.image_id self
       /\ Full.timestamp s = Full.timestamp self)
  /\ (forall e s, Full.calibrate rounded log10 self = Full.Raises e s ->
        s = self /\ Full.data s = Full.data self
        /\ Full.calibration_factor s = Full.calibration_factor self
        /\ Full.image_id s = Full.image_id self
        /\ Full.timestamp s = Full.timestamp self)
  /\ (~ Full.has_nan (Full.data self) -> Full.out_of_unit_range (Full.data self) ->
        Full.calibrate rounded log10 self = Full.Raises Full.not_normalized self).
Proof.
  split; [|split].
  - intros fmt H. exists self. repeat split; try reflexivity.
    now apply full_normalize_unknown.
  - intros e s E. apply full_calibrate_raises_state in E. subst s.
    repeat split; reflexivity.
  - apply full_calibrate_raises.
Qed.

(** C7. On an array whose samples all lie in [0,1], with a calibration
    factor that is a number, not negative and not beyond the largest float
    of the precision the array is computed in, every sample handed to
    log10 is above 0, and calibrate leaves no NaN in the array; on such an
    array with at least one sample it returns.  The rounding may be any
    that keeps the order and the small dyadic numbers. *)
Theorem calibrate_no_nan (self : Full.GRDImage) (cf : Q) :
  Full.nearest_float rounded ->
  Full.in_unit_range (Full.data self) ->
  Full.calibration_factor self = Full.Finite cf ->
  0 <= cf ->
  cf <= Full.max_finite (Full.float_dtype_of (Full.data self)) ->
  (forall x,
     In x (Full.elements
             (Full.log10_argument rounded (Full.calibration_factor self)
                (Full.data self))) ->
     Full.positive x)
  /\ (Full.elements (Full.data self) <> [] ->
      exists s, Full.calibrate rounded log10 self = Full.Returns tt s)
  /\ (forall s, Full.calibrate rounded log10 self = Full.Returns tt s ->
        ~ Full.has_nan (Full.data s)).
Proof.
  intros HR Hall Hcf C0 C1.
  destruct (square_abs_unit rounded HR _ Hall) as [Et Hsq].
  assert (Hpos : forall x,
     In x (elements (log10_argument rounded (calibration_factor self) (data self))) ->
     positive x).
  { intros x Hx. rewrite log10_argument_elements in Hx. simpl in Hx.
    rewrite elements_float, concat_map_map in Hx.
    apply in_map_iff in Hx as (y & <- & Hy).
    destruct (Hsq y Hy) as (r & -> & Hr).
    rewrite Hcf, Et. now apply log10_argument_positive. }
  split; [exact Hpos|]. split.
  - intro Hne. rewrite full_calibrate_outcome.
    rewrite (full_range_check_in_range self Hne Hall), full_sigma0_db_returns.
    eexists. reflexivity.
  - intros s E. rewrite full_calibrate_outcome in E.
    destruct (range_check self) as [[] s0|e s0]; [|discriminate].
    rewrite full_sigma0_db_returns in E. injection E as <-.
    change (~ In Nan (elements (times rounded 10 (np_log10 log10
              (log10_argument rounded (calibration_factor self) (data self)))))).
    rewrite sigma0_db_elements.
    intro H. apply in_map_iff in H as (x & E & Hx).
    destruct (flog10_positive log10 (float_dtype_of (square rounded (np_abs (data self)))) x
                (Hpos x Hx)) as [N1 N2].
    exact (ten_times_not_nan rounded _ _ N1 N2 E).
Qed.

End FullCalibrate.

(** ** normalize on a raster of integers *)

(** Decide the comparisons of the selector with the three formats. *)
Ltac eval_str_eqb :=
  repeat match goal with
    | |- context [str_eqb ?a ?b] =>
        let v := eval vm_compute in (str_eqb a b) in
        change (str_eqb a b) with v
    end;
  cbv iota beta.

(** Compute the integers a dtype gives. *)
Ltac eval_wrap :=
  repeat match goal with
    | |- context [wrap ?t ?z] =>
        let v := eval vm_compute in (wrap t z) in
        progress change (wrap t z) with v
    end.

Section FullNormalize.

Variable rounded : float_dtype -> Q -> Q.

(** On a raster of integers of dtype [t] with minimum [lo] and maximum
    [hi], the differences, the products by 2 or 255 and the divisor are
    computed in [t], and wrap; the quotient is a double. *)
Lemma full_normalize_int (self : GRDImage) (t : int_dtype) (rows : list (list Z))
    (lo hi : Z) :
  data self = IntArray t rows ->
  reduce Z.min (concat rows) = Some lo ->
  reduce Z.max (concat rows) = Some hi ->
  let den := of_int (wrap t (hi - lo)) in
  normalize rounded (text "0-1") self =
    Returns tt (with_data self (FloatArray Float32
      (map (map (fun x => cast rounded Float32
                   (fdiv rounded Float64 (of_int (wrap t (x - lo))) den))) rows)))
  /\ normalize rounded (text "-1-1") self =
    Returns tt (with_data self (FloatArray Float32
      (map (map (fun x => cast rounded Float32
                   (fadd rounded Float64
                      (fdiv rounded Float64
                         (of_int (wrap t (2 * wrap t (x - lo)))) den)
                      (of_int (-1))))) rows)))
  /\ normalize rounded (text "0-255") self =
    Returns tt (with_data self (FloatArray Float32
      (map (map (fun x => cast rounded Float32
                   (fdiv rounded Float64
                      (of_int (wrap t (255 * wrap t (x - lo)))) den))) rows))).
Proof.
  intros Hd Hmin Hmax den.
  repeat split; unfold normalize, bind, gets; rewrite Hd; eval_str_eqb;
    simpl np_min; simpl np_max; rewrite Hmin, Hmax;
    unfold ret, set_data, modify; do 2 f_equal;
    unfold astype_float32, minus_int, plus_int, divide, times, subtract,
      subtract_scalars, promote, value;
    rewrite ?map_map_rows; reflexivity.
Qed.

Hypothesis HR : nearest_float rounded.

(** A result between the largest floats of either sign is a number. *)
Lemma to_float_number (t : float_dtype) (q : Q) :
  - max_finite t <= q -> q <= max_finite t ->
  to_float rounded t q = Finite (rounded t q).
Proof.
  intros H0 H1. unfold to_float.
  pose proof (rounded_le_max rounded HR t q H1) as R1.
  assert (R0 : - max_finite t <= rounded t q).
  { apply Qle_trans with (y := rounded t (- max_finite t)).
    - rewrite (rounded_opp _ HR), (rounded_max _ HR). apply Qle_refl.
    - now apply (rounded_monotone _ HR). }
  replace (Qlt_bool (max_finite t) (rounded t q)) with false
    by (symmetry; now apply Qlt_bool_false_iff).
  replace (Qlt_bool (rounded t q) (- max_finite t)) with false; [reflexivity|].
  symmetry. now apply Qlt_bool_false_iff.
Qed.

(** The rounding keeps a bound that is an integer up to 2^24 over a power
    of two up to 2^100. *)
Lemma rounded_below (t : float_dtype) (q : Q) (z : Z) (k : N) :
  (Z.abs z <= 2 ^ 24)%Z -> (k <= 100)%N ->
  q <= inject_Z z / inject_Z (2 ^ Z.of_N k) ->
  rounded t q <= inject_Z z / inject_Z (2 ^ Z.of_N k).
Proof.
  intros Hz Hk H.
  apply Qle_trans with (y := rounded t (inject_Z z / inject_Z (2 ^ Z.of_N k))).
  - now apply (rounded_monotone _ HR).
  - rewrite (rounded_dyadic _ HR t z k Hz Hk). apply Qle_refl.
Qed.

Lemma rounded_above (t : float_dtype) (q : Q) (z : Z) (k : N) :
  (Z.abs z <= 2 ^ 24)%Z -> (k <= 100)%N ->
  inject_Z z / inject_Z (2 ^ Z.of_N k) <= q ->
  inject_Z z / inject_Z (2 ^ Z.of_N k) <= rounded t q.
Proof.
  intros Hz Hk H.
  apply Qle_trans with (y := rounded t (inject_Z z / inject_Z (2 ^ Z.of_N k))).
  - rewrite (rounded_dyadic _ HR t z k Hz Hk). apply Qle_refl.
  - now apply (rounded_monotone _ HR).
Qed.

(** The quotient of two integers below 2^24 in size, the divisor not 0,
    taken to single precision: a number that keeps the bounds of the exact
    quotient which are integers up to 2^24 over a power of two. *)
Lemma quotient_as_float32 (n d : Z) :
  (Z.abs n <= 2 ^ 24)%Z -> (1 <= Z.abs d <= 2 ^ 24)%Z ->
  exists r,
    cast rounded Float32 (fdiv rounded Float64 (of_int n) (of_int d)) = Finite r
    /\ (forall z k, (Z.abs z <= 2 ^ 24)%Z -> (k <= 100)%N ->
          inject_Z n / inject_Z d <= inject_Z z / inject_Z (2 ^ Z.of_N k) ->
          r <= inject_Z z / inject_Z (2 ^ Z.of_N k))
    /\ (forall z k, (Z.abs z <= 2 ^ 24)%Z -> (k <= 100)%N ->
          inject_Z z / inject_Z (2 ^ Z.of_N k) <= inject_Z n / inject_Z d ->
          inject_Z z / inject_Z (2 ^ Z.of_N k) <= r).
Proof.
  intros Hn Hd. unfold fdiv, of_int.
  assert (D0 : ~ inject_Z d == 0).
  { intro E. unfold Qeq in E. simpl in E. lia. }
  replace (Qeq_bool (inject_Z d) 0) with false
    by (symmetry; apply not_true_iff_false; intro E; apply Qeq_bool_iff in E; contradiction).
  set (q := inject_Z n / inject_Z d).
  assert (B : - inject_Z (2 ^ 24) <= q <= inject_Z (2 ^ 24)).
  { unfold q. change (2 ^ 24)%Z with 16777216%Z in *.
    destruct d as [|p|p]; [simpl in Hd; lia| |];
      unfold Qdiv, Qmult, Qinv, Qle, Qopp, inject_Z; simpl; split; nia. }
  assert (M64 : inject_Z (2 ^ 24) <= max_finite Float64) by (vm_compute; discriminate).
  assert (M32 : inject_Z (2 ^ 24) <= max_finite Float32) by (vm_compute; discriminate).
  rewrite to_float_number by lra. simpl cast.
  assert (E24 : inject_Z (2 ^ 24) == inject_Z (2 ^ 24) / inject_Z (2 ^ Z.of_N 0))
    by (vm_compute; reflexivity).
  assert (E24' : - inject_Z (2 ^ 24) == inject_Z (- 2 ^ 24) / inject_Z (2 ^ Z.of_N 0))
    by (vm_compute; reflexivity).
  assert (R : - inject_Z (2 ^ 24) <= rounded Float64 q <= inject_Z (2 ^ 24)).
  { split.
    - rewrite E24'. apply rounded_above; [vm_compute; discriminate | vm_compute; discriminate|].
      rewrite <- E24'. apply B.
    - rewrite E24. apply rounded_below; [vm_compute; discriminate | vm_compute; discriminate|].
      rewrite <- E24. apply B. }
  rewrite to_float_number by lra.
  eexists. split; [reflexivity|]. split.
  - intros z k Hz Hk H. apply rounded_below; try assumption.
    now apply rounded_below.
  - intros z k Hz Hk H. apply rounded_above; try assumption.
    now apply rounded_above.
Qed.

End FullNormalize.

Section FullWraps.

Variable rounded : float_dtype -> Q -> Q.

(** C4. normalize("0-255") computes 255 * (x - min) in the dtype of the
    raster.  On the unsigned 16-bit raster [[0, 300, 1000, 40000]] the
    products 76500, 255000 and 10200000 wrap to 10964, 58392 and 41920, so
    the result is not 255 * (x - min) / (max - min): the maximum 40000 is
    taken to a value not above 9/8 (the formula gives 255), 1000 to a
    value not below 5/4, above the one of the maximum, and 300 to a value
    not above 1/2 (the formula gives 1.9125). *)
Theorem normalize_uint16_wraps :
  Full.nearest_float rounded ->
  exists a b c d,
    Full.normalize rounded (Full.text "0-255") Full.uint16_image =
      Full.Returns tt
        (Full.with_data Full.uint16_image
           (Full.FloatArray Full.Float32
              [[Full.Finite a; Full.Finite b; Full.Finite c; Full.Finite d]]))
    /\ a == 0 /\ b <= 1 # 2 /\ 5 # 4 <= c /\ d <= 9 # 8.
Proof.
  intro HR.
  destruct (full_normalize_int rounded uint16_image UInt16
              [[0; 300; 1000; 40000]]%Z 0 40000 eq_refl eq_refl eq_refl)
    as (_ & _ & E).
  rewrite E. cbn [map]. eval_wrap.
  destruct (quotient_as_float32 rounded HR 0 40000) as (a & -> & La & Ga);
    [vm_compute; discriminate | split; vm_compute; discriminate|].
  destruct (quotient_as_float32 rounded HR 10964 40000) as (b & -> & Lb & _);
    [vm_compute; discriminate | split; vm_compute; discriminate|].
  destruct (quotient_as_float32 rounded HR 58392 40000) as (c & -> & _ & Gc);
    [vm_compute; discriminate | split; vm_compute; discriminate|].
  destruct (quotient_as_float32 rounded HR 41920 40000) as (d & -> & Ld & _);
    [vm_compute; discriminate | split; vm_compute; discriminate|].
  exists a, b, c, d. split; [reflexivity|].
  split; [|split; [|split]].
  - apply Qle_antisym.
    + apply (La 0%Z 0%N); vm_compute; discriminate.
    + apply (Ga 0%Z 0%N); vm_compute; discriminate.
  - apply Qle_trans with (y := inject_Z 1 / inject_Z (2 ^ Z.of_N 1));
      [apply Lb | ]; vm_compute; discriminate.
  - apply Qle_trans with (y := inject_Z 5 / inject_Z (2 ^ Z.of_N 2));
      [|apply Gc]; vm_compute; discriminate.
  - apply Qle_trans with (y := inject_Z 9 / inject_Z (2 ^ Z.of_N 3));
      [apply Ld | ]; vm_compute; discriminate.
Qed.

(** C8. normalize("0-1") computes x - min and max - min in the dtype of
    the raster.  On the signed 16-bit raster [[-30000, 0, 30000]] the
    difference 60000 wraps to -5536, in the samples and in the divisor, so
    the sample 0 is taken to 30000 / -5536, a value not above -5: the
    result does not lie in [0,1]. *)
Theorem normalize_int16_leaves_range :
  Full.nearest_float rounded ->
  exists a b c,
    Full.normalize rounded (Full.text "0-1") Full.int16_image =
      Full.Returns tt
        (Full.with_data Full.int16_image
           (Full.FloatArray Full.Float32
              [[Full.Finite a; Full.Finite b; Full.Finite c]]))
    /\ a == 0 /\ b <= -5 /\ c == 1
    /\ ~ Full.in_unit_range
           (Full.FloatArray Full.Float32
              [[Full.Finite a; Full.Finite b; Full.Finite c]]).
Proof.
  intro HR.
  destruct (full_normalize_int rounded int16_image Int16
              [[-30000; 0; 30000]]%Z (-30000) 30000 eq_refl eq_refl eq_refl)
    as (E & _ & _).
  rewrite E. cbn [map]. eval_wrap.
  destruct (quotient_as_float32 rounded HR 0 (-5536)) as (a & -> & La & Ga);
    [vm_compute; discriminate | split; vm_compute; discriminate|].
  destruct (quotient_as_float32 rounded HR 30000 (-5536)) as (b & -> & Lb & _);
    [vm_compute; discriminate | split; vm_compute; discriminate|].
  destruct (quotient_as_float32 rounded HR (-5536) (-5536)) as (c & -> & Lc & Gc);
    [vm_compute; discriminate | split; vm_compute; discriminate|].
  assert (Hb : b <= -5).
  { apply Qle_trans with (y := inject_Z (-5) / inject_Z (2 ^ Z.of_N 0));
      [apply Lb | ]; vm_compute; discriminate. }
  exists a, b, c. split; [reflexivity|].
  split; [|split; [exact Hb|split]].
  - apply Qle_antisym.
    + apply (La 0%Z 0%N); vm_compute; discriminate.
    + apply (Ga 0%Z 0%N); vm_compute; discriminate.
  - apply Qle_antisym.
    + apply Qle_trans with (y := inject_Z 1 / inject_Z (2 ^ Z.of_N 0));
        [apply Lc | ]; vm_compute; discriminate.
    + apply Qle_trans with (y := inject_Z 1 / inject_Z (2 ^ Z.of_N 0));
        [|apply Gc]; vm_compute; discriminate.
  - intro H. destruct (H (Finite b)) as (q & Eq & Hq).
    + rewrite elements_float. simpl. auto.
    + injection Eq as <-. destruct Hq as [Hq _]. lra.
Qed.

End FullWraps.

(** ** save_as_png *)

Section FullSave.

Variable rounded : float_dtype -> Q -> Q.
Variable uint8_of_other : float -> Z.
Variable write_image : str -> image_L -> option exception.

Lemma pixel_bounds (t : float_dtype) (q : Q) : (0 <= pixel rounded t q <= 255)%Z.
Proof.
  unfold pixel. destruct (to_float rounded t (255 * q)) as [p| | |]; try lia.
  assert (L : 0 <= Qmin (Qmax p 0) 255).
  { apply Q.min_glb; [apply Q.le_max_r | discriminate]. }
  assert (U : Qmin (Qmax p 0) 255 <= 255) by apply Q.le_min_r.
  apply Qfloor_resp_le in L, U.
  change (Qfloor 0) with 0%Z in L. change (Qfloor 255) with 255%Z in U. lia.
Qed.

(** One sample through [* 255], [.clip(0, 255)] and [.astype(np.uint8)]. *)
Lemma byte_of_sample (t : float_dtype) (x : float) :
  float_to_uint8 uint8_of_other
    (fmin (fmax (fmul rounded t (of_int 255) x) (of_int 0)) (of_int 255))
  = byte_of rounded uint8_of_other t x.
Proof.
  destruct x as [q| | |]; try reflexivity.
  unfold byte_of, pixel, fmul, of_int.
  change (inject_Z 255 * q) with (255 * q).
  pose proof (to_float_not_nan rounded t (255 * q)) as NN.
  destruct (to_float rounded t (255 * q)) as [p| | |]; try reflexivity;
    [|congruence].
  unfold fmax, flt.
  destruct (Qlt_bool p (inject_Z 0)) eqn:E0.
  - apply Qlt_bool_iff in E0. change (inject_Z 0) with 0 in E0.
    simpl. symmetry.
    assert (E : Qmin (Qmax p 0) 255 == 0).
    { rewrite Q.max_r by lra. apply Q.min_l. discriminate. }
    rewrite (Qfloor_comp _ _ E). reflexivity.
  - apply Qlt_bool_false_iff in E0. change (inject_Z 0) with 0 in E0.
    unfold fmin, flt.
    destruct (Qlt_bool (inject_Z 255) p) eqn:E1.
    + apply Qlt_bool_iff in E1. change (inject_Z 255) with 255 in E1.
      simpl. symmetry.
      assert (E : Qmin (Qmax p 0) 255 == 255).
      { rewrite Q.max_l by lra. apply Q.min_r. lra. }
      rewrite (Qfloor_comp _ _ E). reflexivity.
    + apply Qlt_bool_false_iff in E1. change (inject_Z 255) with 255 in E1.
      unfold float_to_uint8.
      replace (Qle_bool 0 p) with true by (symmetry; now apply Qle_bool_iff).
      replace (Qlt_bool p 256) with true by (symmetry; apply Qlt_bool_iff; lra).
      simpl. apply Qfloor_comp.
      rewrite Q.max_l by lra. rewrite Q.min_l by lra. reflexivity.
Qed.

Lemma encode_floats (t : float_dtype) (rows : list (list float)) :
  encode rounded uint8_of_other (FloatArray t rows)
  = map (map (byte_of rounded uint8_of_other t)) rows.
Proof.
  unfold encode, times, clip_0_255, astype_uint8.
  rewrite !map_map_rows. apply map_ext. intro row. apply map_ext. intro x.
  apply byte_of_sample.
Qed.

Lemma encode_ints (t : int_dtype) (rows : list (list Z)) :
  encode rounded uint8_of_other (IntArray t rows)
  = map (map (fun x => Z.min (Z.max (wrap t (255 * x)) 0) 255)) rows.
Proof.
  unfold encode, times, clip_0_255, astype_uint8.
  rewrite !map_map_rows. apply map_ext. intro row. apply map_ext. intro x.
  apply wrap_in_range. simpl. lia.
Qed.

(** C9. save_as_png multiplies the array by 255 before it clips and
    casts.  When the file is written, the method returns, the image is as
    it was, and the file at the path holds, for each sample, one byte: for
    a float that is a number, its product by 255 in the precision of the
    array, clipped to [0,255], without its fractional part (so 255 for
    the positive infinity and 0 for the negative one); for a NaN, what the
    conversion of the platform gives; for an integer, its product by 255
    in its dtype, which wraps, clipped.  When writing fails, the method
    raises the exception of the writer, with the image and the files as
    they were.  A byte is from 0 to 255. *)
Theorem save_as_png_scales_clips_casts (path : Full.str) (self : Full.GRDImage)
    (files : Full.disk) :
  let image_data := Full.encode rounded uint8_of_other (Full.data self) in
  (write_image path image_data = None ->
     Full.save_as_png rounded uint8_of_other write_image path (self, files)
     = Full.Returns tt (self, (path, image_data) :: files))
  /\ (forall e, write_image path image_data = Some e ->
        Full.save_as_png rounded uint8_of_other write_image path (self, files)
        = Full.Raises e (self, files))
  /\ (forall t rows, Full.data self = Full.FloatArray t rows ->
        image_data = map (map (Full.byte_of rounded uint8_of_other t)) rows)
  /\ (forall t rows, Full.data self = Full.IntArray t rows ->
        image_data
        = map (map (fun x => Z.min (Z.max (Full.wrap t (255 * x)) 0) 255)) rows)
  /\ (forall t q, (0 <= Full.pixel rounded t q <= 255)%Z).
Proof.
  intro image_data. unfold image_data.
  split; [|split; [|split; [|split]]].
  - intro H. unfold save_as_png, bind, gets. cbn [fst snd data]. now rewrite H.
  - intros e H. unfold save_as_png, bind, gets. cbn [fst snd data]. now rewrite H.
  - intros t rows ->. apply encode_floats.
  - intros t rows ->. apply encode_ints.
  - apply pixel_bounds.
Qed.

End FullSave.

(** ** normalize: when it returns, and what a constant raster becomes *)

Section FullNormalizeOutcome.

Variable rounded : float_dtype -> Q -> Q.

(** On a raster of floats of precision [t] with minimum [lo] and maximum
    [hi], every operation is done in [t]. *)
Lemma full_normalize_float (self : GRDImage) (t : float_dtype)
    (rows : list (list float)) (lo hi : float) :
  data self = FloatArray t rows ->
  reduce fmin (concat rows) = Some lo ->
  reduce fmax (concat rows) = Some hi ->
  let den := fsub rounded t hi lo in
  normalize rounded (text "0-1") self =
    Returns tt (with_data self (FloatArray Float32
      (map (map (fun x => cast rounded Float32
                   (fdiv rounded t (fsub rounded t x lo) den))) rows)))
  /\ normalize rounded (text "-1-1") self =
    Returns tt (with_data self (FloatArray Float32
      (map (map (fun x => cast rounded Float32
                   (fadd rounded t
                      (fdiv rounded t
                         (fmul rounded t (of_int 2) (fsub rounded t x lo)) den)
                      (of_int (-1))))) rows)))
  /\ normalize rounded (text "0-255") self =
    Returns tt (with_data self (FloatArray Float32
      (map (map (fun x => cast rounded Float32
                   (fdiv rounded t
                      (fmul rounded t (of_int 255) (fsub rounded t x lo)) den)))
         rows))).
Proof.
  intros Hd Hmin Hmax den.
  repeat split; unfold normalize, bind, gets; rewrite Hd; eval_str_eqb;
    simpl np_min; simpl np_max; rewrite Hmin, Hmax;
    unfold ret, set_data, modify; do 2 f_equal;
    unfold astype_float32, minus_int, plus_int, divide, times, subtract,
      subtract_scalars, promote, value;
    rewrite ?map_map_rows; reflexivity.
Qed.

Lemma reduce_some {A} (f : A -> A -> A) (l : list A) :
  l <> [] -> exists m, reduce f l = Some m.
Proof. destruct l; [congruence | eexists; reflexivity]. Qed.

Lemma lengths_map_rows {A B} (f : A -> B) (rows : list (list A)) :
  map (@List.length B) (map (map f) rows) = map (@List.length A) rows.
Proof.
  rewrite map_map. apply map_ext. intro r. apply length_map.
Qed.

(** With a selector it knows, on a raster with a sample, [normalize]
    returns, whatever the samples are. *)
Lemma full_normalize_known (fmt : str) (self : GRDImage) :
  known_format fmt -> elements (data self) <> [] ->
  exists rows,
    normalize rounded fmt self
    = Returns tt (with_data self (FloatArray Float32 rows))
    /\ map (@List.length float) rows = row_lengths (data self).
Proof.
  intros Hk Hne. destruct (data self) as [t rows|t rows] eqn:Hd.
  - rewrite elements_int in Hne.
    assert (Hc : concat rows <> []) by (intro E; rewrite E in Hne; now apply Hne).
    destruct (reduce_some Z.min _ Hc) as [lo Hmin].
    destruct (reduce_some Z.max _ Hc) as [hi Hmax].
    destruct (full_normalize_int rounded self t rows lo hi Hd Hmin Hmax)
      as (E1 & E2 & E3).
    unfold row_lengths, promote.
    destruct Hk as [->|[->| ->]]; eexists; (split; [eassumption|]);
      now rewrite !lengths_map_rows.
  - rewrite elements_float in Hne.
    destruct (reduce_some fmin _ Hne) as [lo Hmin].
    destruct (reduce_some fmax _ Hne) as [hi Hmax].
    destruct (full_normalize_float self t rows lo hi Hd Hmin Hmax)
      as (E1 & E2 & E3).
    unfold row_lengths, promote.
    destruct Hk as [->|[->| ->]]; eexists; (split; [eassumption|]);
      now rewrite !lengths_map_rows.
Qed.

(** On a raster without samples [np.min] raises first. *)
Lemma full_normalize_empty (fmt : str) (self : GRDImage) :
  known_format fmt -> elements (data self) = [] ->
  normalize rounded fmt self = Raises (zero_size "minimum") self.
Proof.
  intros Hk He.
  assert (Hm : forall S (s : S), np_min (data self) s = Raises (zero_size "minimum") s).
  { intros S s. pose proof (np_min_value (data self) s) as H.
    apply lowest_none in He. now rewrite He in H. }
  destruct Hk as [->|[->| ->]]; unfold normalize, bind, gets; eval_str_eqb;
    now rewrite Hm.
Qed.

Lemma known_format_dec (fmt : str) : known_format fmt \/ ~ known_format fmt.
Proof.
  unfold known_format.
  destruct (str_eqb fmt (text "0-1")) eqn:E1; [apply str_eqb_eq in E1; auto|].
  destruct (str_eqb fmt (text "-1-1")) eqn:E2; [apply str_eqb_eq in E2; auto|].
  destruct (str_eqb fmt (text "0-255")) eqn:E3; [apply str_eqb_eq in E3; auto|].
  right. intros [H|[H|H]]; apply str_eqb_eq in H; congruence.
Qed.

(** X24. With one of the three selectors, on a raster with a sample,
    normalize returns, whatever the samples are: it leaves a
    single-precision array with the rows as long as they were and changes
    nothing else of the image.  It returns in no other case. *)
Theorem normalize_returns_when (fmt : Full.str) (self : Full.GRDImage) :
  (Full.known_format fmt -> Full.elements (Full.data self) <> [] ->
   exists rows,
     Full.normalize rounded fmt self
     = Full.Returns tt (Full.with_data self (Full.FloatArray Full.Float32 rows))
     /\ map (@List.length Full.float) rows = Full.row_lengths (Full.data self))
  /\ (forall v s, Full.normalize rounded fmt self = Full.Returns v s ->
        Full.known_format fmt /\ Full.elements (Full.data self) <> []).
Proof.
  split; [apply full_normalize_known|].
  intros v s E. destruct (known_format_dec fmt) as [Hk|Hk].
  2:{ rewrite (full_normalize_unknown rounded fmt self Hk) in E. discriminate. }
  split; [exact Hk|]. intro He.
  rewrite (full_normalize_empty fmt self Hk He) in E. discriminate.
Qed.

Hypothesis HR : nearest_float rounded.

Lemma to_float_zero (t : float_dtype) (q : Q) :
  q == 0 -> exists z, to_float rounded t q = Finite z /\ z == 0.
Proof.
  intro E. pose proof (max_finite_ge_one t) as M.
  rewrite (to_float_number rounded HR) by (rewrite E; lra).
  eexists. split; [reflexivity|].
  rewrite (rounded_proper rounded HR t _ _ E). apply (rounded_zero rounded HR).
Qed.

(** A sample minus itself is 0, or NaN when it is not a number. *)
Lemma self_difference (t : float_dtype) (v : float) :
  fsub rounded t v v = Nan \/ exists z, fsub rounded t v v = Finite z /\ z == 0.
Proof.
  destruct v as [q| | |]; try (left; reflexivity).
  right. unfold fsub, fneg, fadd. apply to_float_zero. ring.
Qed.

Lemma zero_quotient (t : float_dtype) (n d : float) :
  (n = Nan \/ exists z, n = Finite z /\ z == 0) ->
  (d = Nan \/ exists z, d = Finite z /\ z == 0) ->
  fdiv rounded t n d = Nan.
Proof.
  intros [->|(z & -> & Ez)] [->|(w & -> & Ew)]; try reflexivity.
  unfold fdiv.
  replace (Qeq_bool w 0) with true by (symmetry; now apply Qeq_bool_iff).
  replace (Qeq_bool z 0) with true by (symmetry; now apply Qeq_bool_iff).
  reflexivity.
Qed.

Lemma zero_product (t : float_dtype) (k : Z) (n : float) :
  (n = Nan \/ exists z, n = Finite z /\ z == 0) ->
  (fmul rounded t (of_int k) n = Nan
   \/ exists z, fmul rounded t (of_int k) n = Finite z /\ z == 0).
Proof.
  intros [->|(z & -> & Ez)]; [left; reflexivity|].
  right. unfold fmul, of_int. apply to_float_zero. rewrite Ez. ring.
Qed.

(** On a raster whose samples are all the same, each sample becomes
    0 / 0. *)
Lemma full_normalize_constant (fmt : str) (self : GRDImage) (v : float) :
  known_format fmt ->
  elements (data self) <> [] ->
  (forall x, In x (elements (data self)) -> x = v) ->
  exists a,
    normalize rounded fmt self = Returns tt (with_data self a)
    /\ row_lengths a = row_lengths (data self)
    /\ forall x, In x (elements a) -> x = Nan.
Proof.
  intros Hk Hne Hall. destruct (data self) as [t rows|t rows] eqn:Hd.
  - rewrite elements_int in Hne, Hall.
    assert (Hc : concat rows <> []) by (intro E; rewrite E in Hne; now apply Hne).
    destruct (reduce_some Z.min _ Hc) as [lo Hmin].
    destruct (reduce_some Z.max _ Hc) as [hi Hmax].
    assert (Hlo : forall x, In x (concat rows) -> x = lo /\ hi = lo).
    { destruct (concat rows) as [|y l] eqn:Ec; [congruence|].
      injection Hmin as Hmin. injection Hmax as Hmax.
      destruct (fold_Zmin_spec l y) as [Imin _]. rewrite Hmin in Imin.
      destruct (fold_Zmax_spec l y) as [Imax _]. rewrite Hmax in Imax.
      intros x Hx.
      assert (Ex := Hall _ (in_map of_int _ _ Hx)).
      assert (El := Hall _ (in_map of_int _ _ Imin)).
      assert (Eh := Hall _ (in_map of_int _ _ Imax)).
      rewrite <- Ex in El, Eh. unfold of_int in El, Eh.
      injection El as El. injection Eh as Eh. split; congruence. }
    assert (W : wrap t 0 = 0%Z) by (apply wrap_in_range; destruct t; simpl; lia).
    assert (W0 : forall k, wrap t (k * 0) = 0%Z) by (intro k; now rewrite Z.mul_0_r).
    destruct (full_normalize_int rounded self t rows lo hi Hd Hmin Hmax)
      as (E1 & E2 & E3).
    destruct Hk as [->|[->| ->]]; eexists; (split; [eassumption|]);
      (split; [unfold row_lengths, promote; now rewrite !lengths_map_rows|]);
      intros x Hx; rewrite elements_float, concat_map_map in Hx;
      apply in_map_iff in Hx as (y & <- & Hy);
      destruct (Hlo y Hy) as [-> ->]; rewrite Z.sub_diag;
      rewrite !W, ?W0; reflexivity.
  - rewrite elements_float in Hne, Hall.
    destruct (reduce_some fmin _ Hne) as [lo Hmin].
    destruct (reduce_some fmax _ Hne) as [hi Hmax].
    assert (Hlo : lo = v /\ hi = v).
    { destruct (concat rows) as [|y l] eqn:Ec; [congruence|].
      injection Hmin as Hmin. injection Hmax as Hmax.
      assert (Hv : v = Nan \/ v <> Nan) by (destruct v; auto; right; discriminate).
      destruct Hv as [->|Hv].
      - assert (Hn : In Nan (y :: l)) by (left; apply Hall; now left).
        rewrite <- Hmin, <- Hmax.
        split; [now apply fold_fmin_has_nan | now apply fold_fmax_has_nan].
      - assert (Hn : ~ In Nan (y :: l)) by (intro H; apply Hall in H; congruence).
        destruct (fold_fmin_spec l y Hn) as [Imin _].
        destruct (fold_fmax_spec l y Hn) as [Imax _].
        rewrite Hmin in Imin. rewrite Hmax in Imax. split; now apply Hall. }
    destruct Hlo as [-> ->].
    destruct (full_normalize_float self t rows v v Hd Hmin Hmax) as (E1 & E2 & E3).
    pose proof (self_difference t v) as D.
    destruct Hk as [->|[->| ->]]; eexists; (split; [eassumption|]);
      (split; [unfold row_lengths, promote; now rewrite !lengths_map_rows|]);
      intros x Hx; rewrite elements_float, concat_map_map in Hx;
      apply in_map_iff in Hx as (y & <- & Hy);
      rewrite (Hall y Hy).
    + rewrite (zero_quotient t _ _ D D). reflexivity.
    + rewrite (zero_quotient t _ _ (zero_product t 2 _ D) D). reflexivity.
    + rewrite (zero_quotient t _ _ (zero_product t 255 _ D) D). reflexivity.
Qed.

(** X25. On a raster whose samples are all the same (numbers or not),
    normalize with any of the three selectors returns and leaves a NaN in
    the place of every sample: each is 0 / 0. *)
Theorem normalize_constant_gives_nan (fmt : Full.str) (self : Full.GRDImage)
    (v : Full.float) :
  Full.known_format fmt ->
  Full.elements (Full.data self) <> [] ->
  (forall x, In x (Full.elements (Full.data self)) -> x = v) ->
  exists a,
    Full.normalize rounded fmt self = Full.Returns tt (Full.with_data self a)
    /\ Full.row_lengths a = Full.row_lengths (Full.data self)
    /\ forall x, In x (Full.elements a) -> x = Full.Nan.
Proof. apply full_normalize_constant. Qed.

Lemma elements_of_row_lengths (a b : ndarray) :
  row_lengths a = row_lengths b -> elements a <> [] -> elements b <> [].
Proof.
  unfold row_lengths, elements. intros E Ha Hb. apply Ha.
  apply length_zero_iff_nil. apply (f_equal (@List.length float)) in Hb.
  rewrite length_concat in *. rewrite E. exact Hb.
Qed.

Variable log10 : float_dtype -> Q -> Q.

(** The formula leaves a NaN where a sample is a NaN. *)
Lemma sigma0_db_of_nan (cf : float) (d : ndarray) :
  (forall x, In x (elements d) -> x = Nan) ->
  forall x,
    In x (elements (times rounded 10 (np_log10 log10 (log10_argument rounded cf d)))) ->
    x = Nan.
Proof.
  intros Hall x Hx. rewrite sigma0_db_elements in Hx.
  apply in_map_iff in Hx as (y & <- & Hy).
  rewrite log10_argument_elements in Hy. simpl in Hy.
  rewrite elements_float, concat_map_map in Hy.
  apply in_map_iff in Hy as (z & <- & Hz).
  assert (Ez : z = Nan).
  { destruct d as [t rows|t rows].
    - exfalso. unfold square, np_abs in Hz. simpl promote in Hz.
      rewrite !map_map_rows, concat_map_map in Hz.
      apply in_map_iff in Hz as (w & _ & Hw).
      rewrite elements_int in Hall.
      specialize (Hall (of_int w) (in_map of_int _ _ Hw)). discriminate Hall.
    - unfold square, np_abs in Hz. simpl promote in Hz.
      rewrite map_map_rows, concat_map_map in Hz.
      apply in_map_iff in Hz as (w & <- & Hw).
      rewrite (Hall w Hw). reflexivity. }
  rewrite Ez. reflexivity.
Qed.

(** X26. A raster whose samples are all the same goes through normalize
    and calibrate without an exception: normalize leaves NaN samples, the
    range check of calibrate lets them pass, and the formula leaves a NaN
    in the place of every sample. *)
Theorem constant_raster_calibrates_to_nan (fmt : Full.str) (self : Full.GRDImage)
    (v : Full.float) :
  Full.known_format fmt ->
  Full.elements (Full.data self) <> [] ->
  (forall x, In x (Full.elements (Full.data self)) -> x = v) ->
  exists s1 s2,
    Full.normalize rounded fmt self = Full.Returns tt s1
    /\ Full.calibrate rounded log10 s1 = Full.Returns tt s2
    /\ Full.elements (Full.data s2) <> []
    /\ forall x, In x (Full.elements (Full.data s2)) -> x = Full.Nan.
Proof.
  intros Hk Hne Hall.
  destruct (full_normalize_constant fmt self v Hk Hne Hall) as (a & E & L & Hn).
  assert (Ha : elements a <> []).
  { apply (elements_of_row_lengths (data self) a); [now symmetry | exact Hne]. }
  assert (Hnan : has_nan (data (with_data self a))).
  { unfold has_nan. simpl data. destruct (elements a) as [|x l] eqn:Ex; [congruence|].
    left. apply Hn. now left. }
  exists (with_data self a). eexists. split; [exact E|].
  rewrite full_calibrate_outcome, (full_range_check_nan _ Hnan), full_sigma0_db_returns.
  split; [reflexivity|].
  repeat match goal with
    | |- context [data (with_data ?s ?x)] => change (data (with_data s x)) with x
    end.
  change (calibration_factor (with_data self a)) with (calibration_factor self).
  split.
  - rewrite sigma0_db_elements. intro H. apply map_eq_nil in H.
    rewrite log10_argument_elements in H. simpl in H.
    rewrite elements_float, concat_map_map in H. apply map_eq_nil in H.
    destruct a as [t rows|t rows].
    + destruct (elements (IntArray t rows)) as [|x l] eqn:Ex; [congruence|].
      assert (Hx : x = Nan) by (apply Hn; now left).
      apply (int_no_nan t rows). unfold has_nan. rewrite Ex, Hx. now left.
    + unfold square, np_abs in H. simpl promote in H.
      rewrite map_map_rows, concat_map_map in H. apply map_eq_nil in H.
      now apply Ha.
  - now apply sigma0_db_of_nan.
Qed.

End FullNormalizeOutcome.

(** ** The file-name pattern *)

Lemma full_literal_spec (p s r : str) : literal p s = Some r <-> s = p ++ r.
Proof.
  revert s. induction p as [|c p IH]; intro s; simpl.
  - split; [now intros [= ->] | now intros ->].
  - destruct s as [|d s]; [split; discriminate|].
    destruct (c =? d)%N eqn:E.
    + apply N.eqb_eq in E. subst d. rewrite IH.
      split; [now intros -> | now intros [= ->]].
    + apply N.eqb_neq in E. split; [discriminate | intros [= <- _]; congruence].
Qed.

Lemma full_literal_app (p r : str) : literal p (p ++ r) = Some r.
Proof. now apply full_literal_spec. Qed.

Section FullPattern.

Variable is_decimal : N -> bool.

Lemma full_span_digits_spec (s ds r : str) :
  span_digits is_decimal s = (ds, r) ->
  s = ds ++ r /\ all_digits is_decimal ds /\ ends_digits is_decimal r.
Proof.
  revert ds r. induction s as [|c s IH]; intros ds r; simpl.
  - intros [= <- <-]. repeat split. constructor.
  - destruct (is_decimal c) eqn:E.
    + destruct (span_digits is_decimal s) as [ds' r'].
      intros [= <- <-]. destruct (IH ds' r' eq_refl) as (-> & Hd & Hr).
      repeat split; [now constructor | exact Hr].
    + intros [= <- <-]. repeat split; [constructor | exact E].
Qed.

Lemma full_span_digits_app (ds r : str) :
  all_digits is_decimal ds -> ends_digits is_decimal r ->
  span_digits is_decimal (ds ++ r) = (ds, r).
Proof.
  intros Hd Hr. induction Hd as [|c ds Hc Hd IH]; simpl.
  - destruct r as [|c r]; [reflexivity|]. simpl in *. now rewrite Hr.
  - now rewrite Hc, IH.
Qed.

Lemma full_digits1_spec (s ds r : str) :
  digits1 is_decimal s = Some (ds, r) <->
  s = ds ++ r /\ ds <> [] /\ all_digits is_decimal ds /\ ends_digits is_decimal r.
Proof.
  unfold digits1. split.
  - destruct (span_digits is_decimal s) as [ds' r'] eqn:E.
    apply full_span_digits_spec in E as (-> & Hd & Hr).
    destruct ds' as [|c ds']; [discriminate|].
    intros [= <- <-]. repeat split; [discriminate | exact Hd | exact Hr].
  - intros (-> & Hne & Hd & Hr). rewrite (full_span_digits_app ds r Hd Hr).
    destruct ds; [congruence | reflexivity].
Qed.

Lemma full_digitsN_spec (n : nat) (s ds r : str) :
  digitsN is_decimal n s = Some (ds, r) <->
  s = ds ++ r /\ List.length ds = n /\ all_digits is_decimal ds.
Proof.
  revert s ds r. induction n as [|n IH]; intros s ds r; simpl.
  - split.
    + intros [= <- <-]. repeat split. constructor.
    + intros (-> & Hl & _). destruct ds; [reflexivity | discriminate].
  - destruct s as [|c s].
    + split; [discriminate|]. intros (E & Hl & _).
      destruct ds; [discriminate | discriminate].
    + destruct (is_decimal c) eqn:Ec.
      * destruct (digitsN is_decimal n s) as [[ds' r']|] eqn:E.
        -- apply IH in E as (-> & Hl & Hd). split.
           ++ intros [= <- <-]. repeat split; [simpl; now f_equal | now constructor].
           ++ intros (E & Hl' & Hd'). destruct ds as [|c' ds]; [discriminate|].
              simpl in E, Hl'. injection E as <- E. injection Hl' as Hl'.
              inversion Hd' as [|? ? _ Hd'']; subst.
              assert (ds = ds' /\ r = r') as [-> ->].
              { clear -E Hl'. revert ds' E Hl'.
                induction ds as [|a ds IHds]; intros [|b ds'] E Hl'; simpl in *;
                  try discriminate; [now split|].
                injection E as -> E. injection Hl' as Hl'.
                destruct (IHds ds' E Hl') as [-> ->]. now split. }
              reflexivity.
        -- split; [discriminate|]. intros (E' & Hl' & Hd').
           destruct ds as [|c' ds]; [discriminate|].
           simpl in E', Hl'. injection E' as <- E'. injection Hl' as Hl'.
           inversion Hd' as [|? ? _ Hd'']; subst.
           assert (K : digitsN is_decimal (List.length ds) (ds ++ r) = Some (ds, r))
             by (apply IH; auto).
           congruence.
      * split; [discriminate|]. intros (E' & Hl' & Hd').
        destruct ds as [|c' ds]; [discriminate|].
        simpl in E'. injection E' as <- E'.
        inversion Hd' as [|? ? Hc _]; subst. congruence.
Qed.

Lemma full_sm_or_sl_spec (s r : str) :
  sm_or_sl s = Some r <->
  exists mode, (mode = text "SM" \/ mode = text "SL") /\ s = mode ++ r.
Proof.
  unfold sm_or_sl. split.
  - destruct (literal (text "SM") s) as [r'|] eqn:E.
    + intros [= <-]. apply full_literal_spec in E. eauto.
    + intro E'. apply full_literal_spec in E'. eauto.
  - intros (mode & [->| ->] & ->).
    + now rewrite full_literal_app.
    + reflexivity.
Qed.

Lemma full_match_here_sound (s g2 g3 : str) :
  match_here is_decimal s = Some (g2, g3) ->
  exists m post, s = m ++ post /\ pattern_match is_decimal m g2 g3.
Proof.
  unfold match_here.
  destruct (literal (text "ICEYE_X") s) as [s1|] eqn:E1; [|discriminate].
  destruct (digits1 is_decimal s1) as [[d1 s2]|] eqn:E2; [|discriminate].
  destruct (literal (text "_GRD_") s2) as [s3|] eqn:E3; [|discriminate].
  destruct (sm_or_sl s3) as [s4|] eqn:E4; [|discriminate].
  destruct (literal (text "_") s4) as [s5|] eqn:E5; [|discriminate].
  destruct (digits1 is_decimal s5) as [[id s6]|] eqn:E6; [|discriminate].
  destruct (literal (text "_") s6) as [s7|] eqn:E7; [|discriminate].
  destruct (digitsN is_decimal 8 s7) as [[d8 s8]|] eqn:E8; [|discriminate].
  destruct (literal (text "T") s8) as [s9|] eqn:E9; [|discriminate].
  destruct (digitsN is_decimal 6 s9) as [[d6 post]|] eqn:E10; [|discriminate].
  intros [= <- <-].
  apply full_literal_spec in E1, E3, E5, E7, E9.
  apply full_digits1_spec in E2 as (-> & N1 & D1 & _).
  apply full_digits1_spec in E6 as (-> & N2 & D2 & _).
  apply full_sm_or_sl_spec in E4 as (mode & Hmode & ->).
  apply full_digitsN_spec in E8 as (-> & L8 & D8).
  apply full_digitsN_spec in E10 as (-> & L6 & D6).
  subst.
  exists (text "ICEYE_X" ++ d1 ++ text "_GRD_" ++ mode ++ text "_" ++ id ++ text "_"
          ++ d8 ++ text "T" ++ d6), post.
  split.
  - now rewrite <- !app_assoc.
  - now constructor.
Qed.

Lemma full_re_search_here (s : str) (g : str * str) :
  match_here is_decimal s = Some g -> re_search is_decimal s = Some g.
Proof.
  intro H. destruct s; [discriminate H | simpl; now rewrite H].
Qed.

Hypothesis HD : decimal_digits is_decimal.

(** The underscore is not a digit: a run of digits ends before it. *)
Lemma ends_before_underscore (r : str) : ends_digits is_decimal (text "_" ++ r).
Proof. simpl. now rewrite HD. Qed.

Lemma full_match_here_complete (m post g2 g3 : str) :
  pattern_match is_decimal m g2 g3 -> match_here is_decimal (m ++ post) = Some (g2, g3).
Proof.
  intros [d1 mode id d8 d6 N1 D1 Hmode N2 D2 L8 D8 L6 D6].
  unfold match_here. rewrite <- !app_assoc.
  rewrite full_literal_app.
  replace (digits1 is_decimal _) with
    (Some (d1, text "_GRD_" ++ mode ++ text "_" ++ id ++ text "_" ++ d8 ++ text "T" ++ d6 ++ post))
    by (symmetry; apply full_digits1_spec; repeat split; auto;
        apply (ends_before_underscore (text "GRD_" ++ _))).
  rewrite full_literal_app.
  replace (sm_or_sl _) with
    (Some (text "_" ++ id ++ text "_" ++ d8 ++ text "T" ++ d6 ++ post))
    by (symmetry; apply full_sm_or_sl_spec; exists mode; auto).
  rewrite full_literal_app.
  replace (digits1 is_decimal _) with
    (Some (id, text "_" ++ d8 ++ text "T" ++ d6 ++ post))
    by (symmetry; apply full_digits1_spec; repeat split; auto;
        apply ends_before_underscore).
  rewrite full_literal_app.
  replace (digitsN is_decimal 8 _) with (Some (d8, text "T" ++ d6 ++ post))
    by (symmetry; apply full_digitsN_spec; auto).
  rewrite full_literal_app.
  replace (digitsN is_decimal 6 _) with (Some (d6, post))
    by (symmetry; apply full_digitsN_spec; auto).
  reflexivity.
Qed.

(** At a given start the pattern matches in one way at most. *)
Lemma full_match_here_iff (s g2 g3 : str) :
  match_here is_decimal s = Some (g2, g3) <-> match_at is_decimal s [] g2 g3.
Proof.
  unfold match_at. simpl. split.
  - apply full_match_here_sound.
  - intros (m & post & -> & H). now apply full_match_here_complete.
Qed.

Lemma full_match_at_cons (c : N) (s pre g2 g3 : str) :
  match_at is_decimal (c :: s) (c :: pre) g2 g3 <-> match_at is_decimal s pre g2 g3.
Proof.
  unfold match_at. split; intros (m & post & E & H); exists m, post; split; auto.
  - simpl in E. now injection E.
  - simpl. now f_equal.
Qed.

Lemma full_match_at_head (s pre g2 g3 : str) :
  match_at is_decimal s pre g2 g3 ->
  exists r, s = pre ++ r /\ match_here is_decimal r = Some (g2, g3).
Proof.
  intros (m & post & -> & H). exists (m ++ post). split; [reflexivity|].
  now apply full_match_here_complete.
Qed.

(** [re.search] finds the groups of the leftmost match. *)
Lemma full_re_search_some (s g2 g3 : str) :
  re_search is_decimal s = Some (g2, g3) ->
  exists pre, match_at is_decimal s pre g2 g3 /\ leftmost is_decimal s pre.
Proof.
  induction s as [|c s IH]; simpl.
  - discriminate.
  - destruct (match_here is_decimal (c :: s)) as [g|] eqn:E.
    + intros [= ->]. exists []. split; [now apply full_match_here_iff|].
      intros pre' ? ? _. simpl. lia.
    + intro R. destruct (IH R) as (pre & Hm & Hl).
      exists (c :: pre). split; [now apply full_match_at_cons|].
      intros pre' h2 h3 Hm'. destruct pre' as [|c' pre'].
      * apply full_match_here_iff in Hm'. congruence.
      * destruct Hm' as (m & post & E' & H'). simpl in E'. injection E' as <- E'.
        simpl. apply le_n_S. apply (Hl pre' h2 h3). now exists m, post.
Qed.

Lemma full_re_search_none (s : str) :
  re_search is_decimal s = None <-> ~ occurs is_decimal s.
Proof.
  induction s as [|c s IH]; simpl.
  - split; [|reflexivity]. intros _ (pre & g2 & g3 & m & post & E' & H).
    destruct pre; [|discriminate].
    assert (K : match_here is_decimal [] = Some (g2, g3))
      by (apply full_match_here_iff; now exists m, post).
    discriminate K.
  - destruct (match_here is_decimal (c :: s)) as [[g2 g3]|] eqn:E.
    + split; [discriminate|]. intro H. exfalso. apply H.
      exists [], g2, g3. now apply full_match_here_iff.
    + rewrite IH. split; intros H (pre & g2 & g3 & Hm); apply H.
      * destruct pre as [|c' pre].
        -- apply full_match_here_iff in Hm. congruence.
        -- destruct Hm as (m & post & E' & H'). simpl in E'. injection E' as <- E'.
           exists pre, g2, g3, m, post. auto.
      * exists (c :: pre), g2, g3. now apply full_match_at_cons.
Qed.

(** The groups of the match at a given start are determined. *)
Lemma full_match_at_unique (s pre g2 g3 h2 h3 : str) :
  match_at is_decimal s pre g2 g3 -> match_at is_decimal s pre h2 h3 ->
  g2 = h2 /\ g3 = h3.
Proof.
  intros H1 H2.
  apply full_match_at_head in H1 as (r & -> & E1).
  apply full_match_at_head in H2 as (r' & E & E2).
  apply app_inv_head in E. subst r'.
  rewrite E1 in E2. now injection E2.
Qed.

Lemma full_re_search_occurs (s g2 g3 : str) :
  re_search is_decimal s = Some (g2, g3) -> occurs is_decimal s.
Proof.
  intro R. destruct (full_re_search_some s g2 g3 R) as (pre & Hm & _).
  now exists pre, g2, g3.
Qed.

(** No match starts at a character other than I. *)
Lemma full_match_here_not_I (c : N) (r : str) :
  c <> 73%N -> match_here is_decimal (c :: r) = None.
Proof.
  intro H. unfold match_here.
  change (literal (text "ICEYE_X") (c :: r))
    with (if (73 =? c)%N then literal (text "CEYE_X") r else None).
  replace (73 =? c)%N with false; [reflexivity|].
  symmetry. apply N.eqb_neq. congruence.
Qed.

Lemma full_re_search_skips (pre r : str) :
  Forall (fun c => c <> 73%N) pre ->
  re_search is_decimal (pre ++ r) = re_search is_decimal r.
Proof.
  induction 1 as [|c pre Hc _ IH]; [reflexivity|].
  simpl app. simpl re_search. rewrite (full_match_here_not_I c _ Hc). exact IH.
Qed.

(** An ASCII character that [\d] takes is an ASCII digit. *)
Lemma ascii_decimal (c : N) : (c < 128)%N -> is_decimal c = true -> ascii_digit c = true.
Proof. intros H E. now rewrite <- HD. Qed.

(** The last group of a match, when its characters are ASCII ones, spells
    a date and a time or fails to. *)
Lemma ascii_group_is_read (m g2 g3 : str) :
  pattern_match is_decimal m g2 g3 -> ascii_text g3 ->
  exists r, ascii_datetime g3 = Some r.
Proof.
  intros [d1 mode id d8 d6 N1 D1 Hmode N2 D2 L8 D8 L6 D6] HA.
  do 8 (destruct d8 as [|? d8]; [discriminate|]). destruct d8; [|discriminate].
  do 6 (destruct d6 as [|? d6]; [discriminate|]). destruct d6; [|discriminate].
  unfold ascii_text in HA. simpl in HA.
  repeat match goal with
    | H : Forall _ (_ :: _) |- _ => inversion H; clear H; subst
    end.
  simpl. unfold all_digits in *.
  repeat match goal with
    | H : Forall _ (_ :: _) |- _ => inversion H; clear H; subst
    end.
  repeat match goal with
    | H : is_decimal ?c = true |- _ =>
        rewrite (ascii_decimal c ltac:(assumption) H); clear H
    end.
  simpl. eexists. reflexivity.
Qed.

End FullPattern.

(** ** Reading and printing the timestamp *)

Lemma full_digit_spec (c : N) :
  ascii_digit c = true -> c = digit_char (digit_val c) /\ (digit_val c < 10)%N.
Proof.
  unfold ascii_digit, digit_char, digit_val. intro H.
  apply andb_true_iff in H as [H1 H2].
  apply N.leb_le in H1, H2. split; lia.
Qed.

Lemma full_pad2_num2 (a b : N) :
  ascii_digit a = true -> ascii_digit b = true ->
  pad2 (num2 a b) = [a; b] /\ (num2 a b < 100)%N.
Proof.
  intros Ha Hb.
  destruct (full_digit_spec a Ha) as [Ea La]. destruct (full_digit_spec b Hb) as [Eb Lb].
  unfold pad2, num2. set (va := digit_val a) in *. set (vb := digit_val b) in *.
  assert (D : ((10 * va + vb) / 10 = va)%N)
    by (symmetry; apply N.div_unique with vb; lia).
  assert (M : ((10 * va + vb) mod 10 = vb)%N)
    by (symmetry; apply N.mod_unique with va; lia).
  rewrite D, M, <- Ea, <- Eb. split; [reflexivity | lia].
Qed.

Lemma full_pad4_num2 (a b c d : N) :
  ascii_digit a = true -> ascii_digit b = true ->
  ascii_digit c = true -> ascii_digit d = true ->
  pad4 (100 * num2 a b + num2 c d) = [a; b; c; d].
Proof.
  intros Ha Hb Hc Hd.
  destruct (full_pad2_num2 a b Ha Hb) as [E1 L1].
  destruct (full_pad2_num2 c d Hc Hd) as [E2 L2].
  unfold pad4. set (p := num2 a b) in *. set (q := num2 c d) in *.
  assert (D : ((100 * p + q) / 100 = p)%N)
    by (symmetry; apply N.div_unique with q; lia).
  assert (M : ((100 * p + q) mod 100 = q)%N)
    by (symmetry; apply N.mod_unique with p; lia).
  now rewrite D, M, E1, E2.
Qed.

(** Printing the datetime read from ASCII digits gives the characters back,
    with the separators between the fields. *)
Lemma ascii_datetime_isoformat (g3 : str) (t : datetime) :
  ascii_datetime g3 = Some (Some t) -> isoformat t = iso_text g3.
Proof.
  unfold ascii_datetime.
  do 15 (destruct g3 as [ | ? g3 ]; [discriminate | ]).
  destruct g3; [|discriminate].
  destruct (forallb _ _ && _) eqn:E; [|discriminate].
  destruct (valid_datetime _); [|discriminate].
  match goal with |- Some (Some ?d) = Some (Some t) -> _ =>
    intro K; replace t with d by congruence; clear K end.
  apply andb_true_iff in E as [E ET]. apply N.eqb_eq in ET. subst.
  simpl in E. repeat (apply andb_true_iff in E as [? E]).
  unfold isoformat, iso_text.
  cbn [dt_year dt_month dt_day dt_hour dt_minute dt_second].
  rewrite full_pad4_num2 by assumption.
  repeat match goal with
    | |- context [pad2 (num2 ?a ?b)] =>
        rewrite (proj1 (full_pad2_num2 a b ltac:(assumption) ltac:(assumption)))
    end.
  reflexivity.
Qed.

(** ** extract_info_from_filename *)

Section FullParser.

Variable is_decimal : N -> bool.
Variable strptime_message : str -> str.
Variable strptime_other : str -> exception + datetime.

(** C5 (as the code has it).  A character counts as a digit when \d takes
    it, which for the ASCII characters means 0 to 9.  With no part of the
    path matching ICEYE_X<digits>_GRD_(SM|SL)_<digits>_<8 digits>T<6 digits>,
    the parser raises its ValueError.  With a match anywhere in the path,
    it takes the leftmost one (whose groups are determined) and hands the
    last group to strptime: it returns the second group of digits as it
    stands and the datetime printed by isoformat, or raises what strptime
    raises.  When the last group is made of ASCII characters, it either
    spells a date and a time of day that exist, and the parser returns the
    group as YYYY-MM-DDTHH:MM:SS, or it does not, and the parser raises
    the ValueError of strptime.  So the parser returns only when some part
    of the path matches.  On the path of the sample it returns "9281" and
    "2019-09-03T14:49:46". *)
Theorem extract_info_from_filename_spec (path : Full.str) :
  Full.decimal_digits is_decimal ->
  let extract :=
    Full.extract_info_from_filename is_decimal strptime_message strptime_other in
  (~ Full.occurs is_decimal path -> extract path = inl Full.invalid_file_name)
  /\ (Full.occurs is_decimal path ->
      exists pre g2 g3,
        Full.match_at is_decimal path pre g2 g3
        /\ Full.leftmost is_decimal path pre
        /\ extract path =
           match Full.strptime strptime_message strptime_other g3 with
           | inr t => inr (g2, Full.isoformat t)
           | inl e => inl e
           end
        /\ (Full.ascii_text g3 ->
            (exists t, Full.ascii_datetime g3 = Some (Some t)
                       /\ extract path = inr (g2, Full.iso_text g3))
            \/ (Full.ascii_datetime g3 = Some None
                /\ extract path = inl (Full.ValueError (strptime_message g3)))))
  /\ (forall pre g2 g3 h2 h3,
        Full.match_at is_decimal path pre g2 g3 ->
        Full.match_at is_decimal path pre h2 h3 -> g2 = h2 /\ g3 = h3)
  /\ (forall r, extract path = inr r -> Full.occurs is_decimal path)
  /\ extract Full.sample_path
     = inr (Full.text "9281", Full.text "2019-09-03T14:49:46").
Proof.
  intros HD extract. unfold extract, extract_info_from_filename.
  split; [|split; [|split; [now apply full_match_at_unique|split]]].
  - intro H. apply (full_re_search_none is_decimal HD) in H. now rewrite H.
  - intro H. destruct (re_search is_decimal path) as [[g2 g3]|] eqn:R.
    + destruct (full_re_search_some is_decimal HD path g2 g3 R) as (pre & Hm & Hl).
      exists pre, g2, g3. split; [exact Hm|]. split; [exact Hl|].
      split; [reflexivity|].
      intro HA. destruct Hm as (m & post & _ & Hp).
      destruct (ascii_group_is_read is_decimal HD m g2 g3 Hp HA) as ([t|] & E).
      * left. exists t. split; [exact E|]. unfold strptime. rewrite E.
        now rewrite (ascii_datetime_isoformat g3 t E).
      * right. split; [exact E|]. unfold strptime. now rewrite E.
    + apply (full_re_search_none is_decimal HD) in R. contradiction.
  - intros r. destruct (re_search is_decimal path) as [[g2 g3]|] eqn:R.
    + intros _. now apply (full_re_search_occurs is_decimal HD path g2 g3).
    + discriminate.
  - change sample_path
      with (text "data/input/"
            ++ (text "ICEYE_X" ++ text "4" ++ text "_GRD_" ++ text "SM" ++ text "_"
                ++ text "9281" ++ text "_" ++ text "20190903" ++ text "T"
                ++ text "144946") ++ text ".tif").
    rewrite full_re_search_skips
      by (repeat constructor; discriminate).
    assert (P : pattern_match is_decimal
                  (text "ICEYE_X" ++ text "4" ++ text "_GRD_" ++ text "SM" ++ text "_"
                   ++ text "9281" ++ text "_" ++ text "20190903" ++ text "T"
                   ++ text "144946")
                  (text "9281") (text "20190903" ++ text "T" ++ text "144946")).
    { constructor; try discriminate; try reflexivity; auto;
        repeat constructor; rewrite HD; reflexivity. }
    rewrite (full_re_search_here is_decimal _ _
               (full_match_here_complete is_decimal HD _ (text ".tif") _ _ P)).
    reflexivity.
Qed.

End FullParser.

End FullProperties.

(* ================================================================== *)
(** * The statements on every array at sample inputs *)

Section FullExamples.

Import Full.

(** Exact arithmetic has what is asked of the rounding. *)
Lemma exact_nearest : nearest_float exact.
Proof.
  split; unfold exact.
  - intros _ a b H. exact H.
  - intros _ a. reflexivity.
  - intros _ z k _ _. reflexivity.
  - intros t. reflexivity.
Qed.

(** Among the ASCII characters the ASCII digits are the decimal digits. *)
Lemma ascii_digit_decimal : decimal_digits ascii_digit.
Proof. intros c _. reflexivity. Qed.

Lemma unit_image_in_range : in_unit_range (data unit_image).
Proof.
  intros x Hx. simpl in Hx.
  destruct Hx as [<-|[<-|[<-|[<-|[]]]]]; eexists; (split; [reflexivity|]);
    split; vm_compute; discriminate.
Qed.

Lemma wide_image_no_nan : ~ has_nan (data wide_image).
Proof. intro H. simpl in H. destruct H as [H|[H|[]]]; discriminate. Qed.

Lemma wide_image_out_of_range : out_of_unit_range (data wide_image).
Proof.
  exists (Finite 2). split; [simpl; auto|]. right. reflexivity.
Qed.



Lemma calibrate_no_nan_witness :
  Full.in_unit_range (Full.data Full.unit_image)
  /\ (exists s,
        Full.calibrate Full.exact Full.log10_sample Full.unit_image = Full.Returns tt s)
  /\ (forall s,
        Full.calibrate Full.exact Full.log10_sample Full.unit_image = Full.Returns tt s ->
        ~ Full.has_nan (Full.data s)).
Proof.
  assert (H := calibrate_no_nan exact log10_sample unit_image 1 exact_nearest
                 unit_image_in_range eq_refl).
  assert (C0 : 0 <= 1) by (vm_compute; discriminate).
  assert (C1 : 1 <= max_finite (float_dtype_of (data unit_image)))
    by (vm_compute; discriminate).
  destruct (H C0 C1) as (_ & R & N).
  split; [exact unit_image_in_range|]. split; [|exact N].
  apply R. discriminate.
Defined.

(** C7 as stated fails: the samples are in [0,1] and the calibration
    factor, the positive infinity that the tag "inf" gives, is positive,
    yet calibrate leaves a NaN: infinity times 0. *)
Lemma calibrate_infinite_factor_nan :
  Full.in_unit_range (Full.data Full.infinite_factor_image)
  /\ Full.positive (Full.calibration_factor Full.infinite_factor_image)
  /\ exists s,
       Full.calibrate Full.exact Full.log10_sample Full.infinite_factor_image
       = Full.Returns tt s
       /\ Full.has_nan (Full.data s).
Proof.
  split; [|split].
  - intros x Hx. simpl in Hx.
    destruct Hx as [<-|[<-|[]]]; eexists; (split; [reflexivity|]);
      split; vm_compute; discriminate.
  - reflexivity.
  - eexists. split; [vm_compute; reflexivity|]. left. reflexivity.
Qed.

Lemma failed_validation_keeps_image_witness :
  Full.normalize Full.exact (Full.text "0-2") Full.wide_image
  = Full.Raises Full.invalid_output_format Full.wide_image
  /\ Full.calibrate Full.exact Full.log10_sample Full.wide_image
     = Full.Raises Full.not_normalized Full.wide_image.
Proof.
  destruct (failed_validation_keeps_image exact log10_sample wide_image)
    as (Hn & _ & Hc).
  split.
  - destruct (Hn (text "0-2")) as (s & E & -> & _); [|exact E].
    intros [H|[H|H]]; discriminate H.
  - apply Hc; [exact wide_image_no_nan | exact wide_image_out_of_range].
Defined.

Lemma normalize_uint16_wraps_witness :
  exists a b c d,
    Full.normalize Full.exact (Full.text "0-255") Full.uint16_image =
      Full.Returns tt
        (Full.with_data Full.uint16_image
           (Full.FloatArray Full.Float32
              [[Full.Finite a; Full.Finite b; Full.Finite c; Full.Finite d]]))
    /\ a == 0 /\ b <= 1 # 2 /\ 5 # 4 <= c /\ d <= 9 # 8.
Proof. exact (normalize_uint16_wraps exact exact_nearest). Defined.

Lemma normalize_int16_leaves_range_witness :
  exists a b c,
    Full.normalize Full.exact (Full.text "0-1") Full.int16_image =
      Full.Returns tt
        (Full.with_data Full.int16_image
           (Full.FloatArray Full.Float32
              [[Full.Finite a; Full.Finite b; Full.Finite c]]))
    /\ a == 0 /\ b <= -5 /\ c == 1
    /\ ~ Full.in_unit_range
           (Full.FloatArray Full.Float32
              [[Full.Finite a; Full.Finite b; Full.Finite c]]).
Proof. exact (normalize_int16_leaves_range exact exact_nearest). Defined.

Lemma normalize_returns_when_witness :
  exists rows,
    Full.normalize Full.exact (Full.text "0-255") Full.uint16_image
    = Full.Returns tt
        (Full.with_data Full.uint16_image (Full.FloatArray Full.Float32 rows))
    /\ map (@List.length Full.float) rows
       = Full.row_lengths (Full.data Full.uint16_image).
Proof.
  apply (proj1 (normalize_returns_when exact (text "0-255") uint16_image)).
  - right. right. reflexivity.
  - discriminate.
Defined.

Lemma normalize_constant_gives_nan_witness :
  exists a,
    Full.normalize Full.exact (Full.text "0-1") Full.constant_image
    = Full.Returns tt (Full.with_data Full.constant_image a)
    /\ Full.row_lengths a = Full.row_lengths (Full.data Full.constant_image)
    /\ forall x, In x (Full.elements a) -> x = Full.Nan.
Proof.
  apply (normalize_constant_gives_nan exact exact_nearest (text "0-1")
           constant_image (Finite 3)).
  - left. reflexivity.
  - discriminate.
  - intros x Hx. simpl in Hx.
    destruct Hx as [<-|[<-|[<-|[<-|[]]]]]; reflexivity.
Defined.

Lemma constant_raster_calibrates_to_nan_witness :
  exists s1 s2,
    Full.normalize Full.exact (Full.text "0-1") Full.constant_image = Full.Returns tt s1
    /\ Full.calibrate Full.exact Full.log10_sample s1 = Full.Returns tt s2
    /\ Full.elements (Full.data s2) <> []
    /\ forall x, In x (Full.elements (Full.data s2)) -> x = Full.Nan.
Proof.
  apply (constant_raster_calibrates_to_nan exact exact_nearest log10_sample
           (text "0-1") constant_image (Finite 3)).
  - left. reflexivity.
  - discriminate.
  - intros x Hx. simpl in Hx.
    destruct Hx as [<-|[<-|[<-|[<-|[]]]]]; reflexivity.
Defined.

Lemma save_as_png_scales_clips_casts_witness :
  Full.save_as_png Full.exact Full.zero_byte Full.writable
    (Full.text "out.png") (Full.unit_image, [])
  = Full.Returns tt (Full.unit_image, [(Full.text "out.png", [[0; 63]; [127; 255]]%Z)])
  /\ Full.save_as_png Full.exact Full.zero_byte Full.read_only
       (Full.text "out.png") (Full.unit_image, [])
     = Full.Raises (Full.mk_exception "OSError" (Full.text "Read-only file system"))
         (Full.unit_image, []).
Proof.
  destruct (save_as_png_scales_clips_casts exact zero_byte writable
              (text "out.png") unit_image []) as (Hw & _).
  destruct (save_as_png_scales_clips_casts exact zero_byte read_only
              (text "out.png") unit_image []) as (_ & Hr & _).
  split.
  - exact (Hw eq_refl).
  - exact (Hr _ eq_refl).
Defined.

(** C9 as stated fails: the array holds 1/2, which clipped to [0,255] and
    cast is 0, but the byte written is 127: the array is multiplied by 255
    first. *)
Lemma save_as_png_not_clip_and_cast :
  Full.clip_and_cast Full.zero_byte (Full.data Full.half_image) = [[0%Z]]
  /\ Full.save_as_png Full.exact Full.zero_byte Full.writable
       (Full.text "out.png") (Full.half_image, [])
     = Full.Returns tt (Full.half_image, [(Full.text "out.png", [[127%Z]])]).
Proof. split; reflexivity. Qed.

Lemma extract_info_from_filename_spec_witness :
  Full.extract_info_from_filename Full.ascii_digit Full.strptime_text
    Full.strptime_raises Full.sample_path
  = inr (Full.text "9281", Full.text "2019-09-03T14:49:46").
Proof.
  exact (proj2 (proj2 (proj2 (proj2
    (extract_info_from_filename_spec ascii_digit strptime_text strptime_raises
       sample_path ascii_digit_decimal))))).
Defined.

(** C5 as stated fails: a part of this path matches the pattern, yet the
    parser returns no pair: the month is 13 and strptime raises. *)
Lemma extract_info_match_without_result :
  Full.occurs Full.ascii_digit Full.month13_path
  /\ Full.extract_info_from_filename Full.ascii_digit Full.strptime_text
       Full.strptime_raises Full.month13_path
     = inl (Full.ValueError (Full.strptime_text (Full.text "20191303T144946")))
  /\ forall r,
       Full.extract_info_from_filename Full.ascii_digit Full.strptime_text
         Full.strptime_raises Full.month13_path <> inr r.
Proof.
  split; [|split].
  - apply (full_re_search_occurs ascii_digit ascii_digit_decimal _
             (text "9281") (text "20191303T144946")).
    reflexivity.
  - reflexivity.
  - intros r H. vm_compute in H. discriminate H.
Qed.

End FullExamples.
